(** * Block template assembler (node/miner.cpp): a shallow embedding

    The definitions below follow [src/node/miner.cpp] function by function.
    Machine integers are integers of [Z] with the wrap-around of their C++
    type written out; collaborators that live in other translation units
    (consensus parameters, the mempool, the contract VM) are interfaces. *)

From Stdlib Require Import ZArith Lia Bool.
From stdpp Require Import base tactics option list gmap sorting.

Local Open Scope Z_scope.

(** ** Machine integers *)

Definition u32 (x : Z) : Z := x mod 2 ^ 32.
Definition u64 (x : Z) : Z := x mod 2 ^ 64.
Definition u256 (x : Z) : Z := x mod 2 ^ 256.
(** Two's complement reading of the low 64 bits ([int64_t], [CAmount]). *)
Definition s64 (x : Z) : Z := (x + 2 ^ 63) mod 2 ^ 64 - 2 ^ 63.
(** The same for 32 bits ([int]). *)
Definition s32 (x : Z) : Z := (x + 2 ^ 31) mod 2 ^ 32 - 2 ^ 31.

Definition fits_u32 (x : Z) : Prop := 0 <= x < 2 ^ 32.
Definition fits_u64 (x : Z) : Prop := 0 <= x < 2 ^ 64.
Definition fits_s64 (x : Z) : Prop := - 2 ^ 63 <= x < 2 ^ 63.

(** ** Consensus parameters (consensus/params.h), as far as miner.cpp reads them *)

Record ConsensusParams := {
  TimestampDownscaleFactor : Z -> Z;
  TargetSpacing : Z -> Z;
  fPowAllowMinDifficultyBlocks : bool
}.

(** ** Time-parameter scaler: [updateMinerParams] *)

(** The staker constants of node/miner.h.  Their values are not part of
    miner.cpp, so they are fields of an interface. *)
Class MinerConstants := {
  MAX_STAKE_LOOKAHEAD : Z;
  BYTECODE_TIME_BUFFER : Z;
  STAKE_TIME_BUFFER : Z;
  STAKER_POLLING_PERIOD : Z;
  STAKER_POLLING_PERIOD_MIN_DIFFICULTY : Z;
  STAKER_WAIT_FOR_WALID_BLOCK : Z;
  STAKER_WAIT_FOR_BEST_BLOCK_HEADER : Z
}.

(** The six namespace-level [unsigned int] globals and the two function-local
    statics of [updateMinerParams]. *)
Record MinerGlobals := {
  nMaxStakeLookahead : Z;
  nBytecodeTimeBuffer : Z;
  nStakeTimeBuffer : Z;
  nMinerSleep : Z;
  nMinerWaitWalidBlock : Z;
  nMinerWaitBestBlockHeader : Z;
  timeDownscale : Z;
  timeDefault : Z
}.

Module Scaler.
Section WithConstants.
Context `{MinerConstants}.

(** Static initialisation (miner.cpp lines 31-36, 40-41). *)
Definition initial : MinerGlobals := {|
  nMaxStakeLookahead := u32 MAX_STAKE_LOOKAHEAD;
  nBytecodeTimeBuffer := u32 BYTECODE_TIME_BUFFER;
  nStakeTimeBuffer := u32 STAKE_TIME_BUFFER;
  nMinerSleep := u32 STAKER_POLLING_PERIOD;
  nMinerWaitWalidBlock := u32 STAKER_WAIT_FOR_WALID_BLOCK;
  nMinerWaitBestBlockHeader := u32 STAKER_WAIT_FOR_BEST_BLOCK_HEADER;
  timeDownscale := 1;
  timeDefault := 1
|}.

(** [unsigned int] division; dividing by zero has no defined result. *)
Definition udiv (a b : Z) : option Z :=
  if b =? 0 then None else Some (u32 a / b).

(** The body of [if (timeDownscale != timeDownscaleTmp)]. *)
Definition rescale (g : MinerGlobals) (timeDownscaleTmp targetSpacing : Z)
  : option MinerGlobals :=
  a ← udiv MAX_STAKE_LOOKAHEAD timeDownscaleTmp;
  b ← udiv BYTECODE_TIME_BUFFER timeDownscaleTmp;
  c ← udiv STAKE_TIME_BUFFER timeDownscaleTmp;
  d ← udiv STAKER_POLLING_PERIOD timeDownscaleTmp;
  e ← udiv STAKER_WAIT_FOR_WALID_BLOCK timeDownscaleTmp;
  Some {|
    nMaxStakeLookahead := Z.min (Z.max a (timeDefault g)) targetSpacing;
    nBytecodeTimeBuffer := Z.max b (timeDefault g);
    nStakeTimeBuffer := Z.max c (timeDefault g);
    nMinerSleep := Z.max d (timeDefault g);
    nMinerWaitWalidBlock := Z.max e (timeDefault g);
    nMinerWaitBestBlockHeader := nMinerWaitBestBlockHeader g;
    timeDownscale := timeDownscaleTmp;
    timeDefault := timeDefault g
  |}.

Definition set_nMinerSleep (v : Z) (g : MinerGlobals) : MinerGlobals := {|
  nMaxStakeLookahead := nMaxStakeLookahead g;
  nBytecodeTimeBuffer := nBytecodeTimeBuffer g;
  nStakeTimeBuffer := nStakeTimeBuffer g;
  nMinerSleep := v;
  nMinerWaitWalidBlock := nMinerWaitWalidBlock g;
  nMinerWaitBestBlockHeader := nMinerWaitBestBlockHeader g;
  timeDownscale := timeDownscale g;
  timeDefault := timeDefault g
|}.

Definition updateMinerParams (g : MinerGlobals) (nHeight : Z)
    (consensusParams : ConsensusParams) (minDifficulty : bool)
  : option MinerGlobals :=
  let timeDownscaleTmp := u32 (TimestampDownscaleFactor consensusParams nHeight) in
  g1 ← (if negb (timeDownscale g =? timeDownscaleTmp)
        then rescale g timeDownscaleTmp (u32 (TargetSpacing consensusParams nHeight))
        else Some g);
  if minDifficulty && negb (nMinerSleep g1 =? u32 STAKER_POLLING_PERIOD_MIN_DIFFICULTY)
  then Some (set_nMinerSleep (u32 STAKER_POLLING_PERIOD_MIN_DIFFICULTY) g1)
  else Some g1.

(** One call as the staker loop makes it. *)
Record call := {
  call_nHeight : Z;
  call_params : ConsensusParams;
  call_minDifficulty : bool
}.

Definition defined_call (c : call) : Prop :=
  u32 (TimestampDownscaleFactor (call_params c) (call_nHeight c)) <> 0.

(** Any number of successive calls, threading the globals. *)
Fixpoint updateMinerParams_calls (g : MinerGlobals) (cs : list call)
  : option MinerGlobals :=
  match cs with
  | [] => Some g
  | c :: cs' =>
      g' ← updateMinerParams g (call_nHeight c) (call_params c) (call_minDifficulty c);
      updateMinerParams_calls g' cs'
  end.
End WithConstants.
End Scaler.

(** ** Header time: [UpdateTime] *)

Record CBlockIndex := {
  nHeight_of : Z;
  GetMedianTimePast : Z  (* int64_t *)
}.

Record CBlockHeader := {
  nVersion : Z;
  hashPrevBlock : Z;
  hashMerkleRoot : Z;
  nTime : Z;      (* uint32_t *)
  nBits : Z;      (* uint32_t *)
  nNonce : Z;
  fProofOfStake : bool   (* what the header's IsProofOfStake() reports *)
}.

Definition set_nTime (v : Z) (h : CBlockHeader) : CBlockHeader := {|
  nVersion := nVersion h; hashPrevBlock := hashPrevBlock h;
  hashMerkleRoot := hashMerkleRoot h; nTime := v; nBits := nBits h;
  nNonce := nNonce h; fProofOfStake := fProofOfStake h |}.

Definition set_nBits (v : Z) (h : CBlockHeader) : CBlockHeader := {|
  nVersion := nVersion h; hashPrevBlock := hashPrevBlock h;
  hashMerkleRoot := hashMerkleRoot h; nTime := nTime h; nBits := v;
  nNonce := nNonce h; fProofOfStake := fProofOfStake h |}.

Module HeaderTime.
Section WithPow.
(** pow.h: the next difficulty target, a function of the previous index,
    the header under construction, the parameters and the PoS flag. *)
Variable GetNextWorkRequired :
  CBlockIndex -> CBlockHeader -> ConsensusParams -> bool -> Z.

(** [adjusted] is the value read from the adjusted clock,
    [TicksSinceEpoch<seconds>(GetAdjustedTime())], an [int64_t]. *)
Definition nNewTime_of (pindexPrev : CBlockIndex) (adjusted : Z) : Z :=
  Z.max (s64 (GetMedianTimePast pindexPrev + 1)) adjusted.

Definition UpdateTime (pblock : CBlockHeader) (consensusParams : ConsensusParams)
    (pindexPrev : CBlockIndex) (adjusted : Z) : CBlockHeader * Z :=
  let nOldTime := nTime pblock in
  let nNewTime := nNewTime_of pindexPrev adjusted in
  let pblock1 :=
    if nOldTime <? nNewTime then set_nTime (u32 nNewTime) pblock else pblock in
  let pblock2 :=
    if fPowAllowMinDifficultyBlocks consensusParams
    then set_nBits (GetNextWorkRequired pindexPrev pblock1 consensusParams
                      (fProofOfStake pblock1)) pblock1
    else pblock1 in
  (pblock2, s64 (nNewTime - nOldTime)).
End WithPow.
End HeaderTime.

(** ** Transactions and blocks (primitives/transaction.h, primitives/block.h) *)

Definition CAmount := Z.
Definition CScript := list Z.

Record CTxOut := {
  nValue : CAmount;
  scriptPubKey : CScript
}.

(** [CTxOut()] calls [SetNull]: value -1 and an empty script. *)
Definition CTxOut_null : CTxOut := {| nValue := -1; scriptPubKey := [] |}.

Record CTxIn := {
  prevout_hash : Z;
  prevout_n : Z;
  scriptSig : CScript;
  nSequence : Z
}.

(** [CTransaction] and [CMutableTransaction] carry the same data; the
    conversions between them copy these four members. *)
Record CTransaction := {
  vin : list CTxIn;
  vout : list CTxOut;
  tx_nVersion : Z;
  nLockTime : Z
}.

(** A [CTransactionRef] is a shared pointer: [None] is the null pointer that
    [vtx.emplace_back()] leaves in the coinbase slot. *)
Definition CTransactionRef := option CTransaction.
Definition MakeTransactionRef (tx : CTransaction) : CTransactionRef := Some tx.

Definition set_vout (v : list CTxOut) (tx : CTransaction) : CTransaction := {|
  vin := vin tx; vout := v; tx_nVersion := tx_nVersion tx; nLockTime := nLockTime tx |}.

Record CBlock := {
  header : CBlockHeader;
  vtx : list CTransactionRef
}.

Definition IsProofOfStake (b : CBlock) : bool := fProofOfStake (header b).

Definition set_vtx (v : list CTransactionRef) (b : CBlock) : CBlock :=
  {| header := header b; vtx := v |}.

Record CBlockTemplate := {
  block : CBlock;
  vTxFees : list CAmount;
  vTxSigOpsCost : list Z
}.

(** ** Contract subsystem (qtum/qtumstate.h, qtum/qtumtransaction.h) *)

Record QtumTransaction := {
  gas : Z;        (* dev::u256 *)
  gasPrice : Z;   (* dev::u256 *)
  qtx_payload : list Z
}.

Record ByteCodeExecResult := {
  usedGas : Z;                        (* uint64_t *)
  refundSender : CAmount;
  refundOutputs : list CTxOut;
  valueTransfers : list CTransaction
}.

(** The process-global [globalState], as far as miner.cpp can observe it:
    the two trie roots read by [rootHash]/[rootHashUTXO] and written by
    [setRoot]/[setRootUTXO]. *)
Record QtumState := {
  rootHash : Z;
  rootHashUTXO : Z
}.

Definition setRoot (r : Z) (s : QtumState) : QtumState :=
  {| rootHash := r; rootHashUTXO := rootHashUTXO s |}.
Definition setRootUTXO (r : Z) (s : QtumState) : QtumState :=
  {| rootHash := rootHash s; rootHashUTXO := r |}.

(** ** Mempool entries (txmempool.h) *)

(** A [txiter] points at one entry of [mapTx]; entries are unique per
    transaction id, which is what [CompareIteratorByHash] orders by. *)
Definition txiter := N.

Record CTxMemPoolEntry := {
  GetSharedTx : CTransaction;
  GetFee : CAmount;
  GetTxWeight : Z;
  GetTxSize : Z;
  GetSigOpCost : Z;
  GetModifiedFee : CAmount;
  GetCountWithAncestors : Z;
  GetSizeWithAncestors : Z;
  GetModFeesWithAncestors : CAmount;
  GetSigOpCostWithAncestors : Z
}.

(** One record of the modified-entry overlay ([CTxMemPoolModifiedEntry]). *)
Record CTxMemPoolModifiedEntry := {
  iter : txiter;
  nSizeWithAncestors : Z;          (* uint64_t *)
  nModFeesWithAncestors : CAmount;
  nSigOpCostWithAncestors : Z      (* int64_t *)
}.

(** ** Collaborator interfaces *)

(** Chain state and consensus helpers called from miner.cpp. *)
Class Chain := {
  WITNESS_SCALE_FACTOR : Z;
  dgpMaxBlockSigOps : Z;       (* unsigned int *)
  dgpMaxBlockWeight : Z;       (* unsigned int *)
  GetBlockSubsidy : Z -> CAmount;
  IsFinalTx : CTransaction -> Z -> Z -> bool;
  GetLegacySigOpCount : CTransaction -> Z;
  GetTransactionWeight : CTransaction -> Z;
  (** [CFeeRate::GetFee]: the fee the rate asks for a given size. *)
  FeeRate_GetFee : Z -> Z -> CAmount
}.

(** The mempool as [addPackageTxs] reads it under [mempool.cs]. *)
Class MemPool := {
  (** dereferencing a [txiter] *)
  entry : txiter -> CTxMemPoolEntry;
  (** the [ancestor_score_or_gas_price] index, from [begin()] to [end()] *)
  mapTx_by_score : list txiter;
  CalculateMemPoolAncestors : txiter -> gset txiter;
  CalculateDescendants : txiter -> gset txiter;
  (** [CompareModifiedEntry()(a, b)]: [a] is ordered before [b] *)
  CompareModifiedEntry : CTxMemPoolModifiedEntry -> CTxMemPoolModifiedEntry -> bool
}.

(** The contract VM: [QtumTxConverter] and [ByteCodeExec].  Execution works
    on the global state, so both execution steps return the state they
    leave behind. *)
Class ContractVM := {
  (** [CTransaction::HasCreateOrCall]: the transaction carries OP_CREATE or
      OP_CALL *)
  HasCreateOrCall : CTransaction -> bool;
  GetContractScriptFlags : Z -> Z;
  extractionQtumTransactions :
    CTransaction -> list CTransactionRef -> Z -> option (list QtumTransaction);
  performByteCode :
    QtumState -> CBlock -> list QtumTransaction -> Z -> bool * QtumState;
  processingResults :
    QtumState -> CBlock -> list QtumTransaction -> Z
    -> option ByteCodeExecResult * QtumState
}.

(** What a call reads from its surroundings: the adjusted clock, the
    [-disablecontractstaking] argument and the staker globals. *)
Record Ambient := {
  GetAdjustedTimeSeconds : Z;          (* int64_t *)
  arg_disablecontractstaking : bool;
  miner_globals : MinerGlobals
}.

(** ** The assembler object (node/miner.h) *)

Record BlockAssembler := {
  pblocktemplate : CBlockTemplate;
  nBlockMaxWeight : Z;       (* unsigned int *)
  blockMinFeeRate : Z;       (* CFeeRate, satoshis per kvB *)
  nBlockWeight : Z;          (* uint64_t *)
  nBlockTx : Z;              (* uint64_t *)
  nBlockSigOpsCost : Z;      (* uint64_t *)
  nFees : CAmount;
  inBlock : gset txiter;
  nHeight : Z;
  m_lock_time_cutoff : Z;
  bceResult : ByteCodeExecResult;
  hardBlockGasLimit : Z;     (* uint64_t *)
  softBlockGasLimit : Z;     (* uint64_t *)
  txGasLimit : Z;            (* uint64_t *)
  originalRewardTx : CTransaction;
  nTimeLimit : Z             (* int32_t *)
}.

(** The mutable part of the assembler that the inclusion paths write. *)
Definition with_state (a : BlockAssembler) (t : CBlockTemplate)
    (w n s : Z) (f : CAmount) (ib : gset txiter) (r : ByteCodeExecResult)
  : BlockAssembler := {|
  pblocktemplate := t;
  nBlockMaxWeight := nBlockMaxWeight a;
  blockMinFeeRate := blockMinFeeRate a;
  nBlockWeight := w;
  nBlockTx := n;
  nBlockSigOpsCost := s;
  nFees := f;
  inBlock := ib;
  nHeight := nHeight a;
  m_lock_time_cutoff := m_lock_time_cutoff a;
  bceResult := r;
  hardBlockGasLimit := hardBlockGasLimit a;
  softBlockGasLimit := softBlockGasLimit a;
  txGasLimit := txGasLimit a;
  originalRewardTx := originalRewardTx a;
  nTimeLimit := nTimeLimit a
|}.

Definition set_pblocktemplate (t : CBlockTemplate) (a : BlockAssembler) :=
  with_state a t (nBlockWeight a) (nBlockTx a) (nBlockSigOpsCost a) (nFees a)
    (inBlock a) (bceResult a).
Definition set_nBlockWeight (v : Z) (a : BlockAssembler) :=
  with_state a (pblocktemplate a) v (nBlockTx a) (nBlockSigOpsCost a) (nFees a)
    (inBlock a) (bceResult a).
Definition set_nBlockTx (v : Z) (a : BlockAssembler) :=
  with_state a (pblocktemplate a) (nBlockWeight a) v (nBlockSigOpsCost a) (nFees a)
    (inBlock a) (bceResult a).
Definition set_nBlockSigOpsCost (v : Z) (a : BlockAssembler) :=
  with_state a (pblocktemplate a) (nBlockWeight a) (nBlockTx a) v (nFees a)
    (inBlock a) (bceResult a).
Definition set_nFees (v : CAmount) (a : BlockAssembler) :=
  with_state a (pblocktemplate a) (nBlockWeight a) (nBlockTx a) (nBlockSigOpsCost a) v
    (inBlock a) (bceResult a).
Definition set_inBlock (v : gset txiter) (a : BlockAssembler) :=
  with_state a (pblocktemplate a) (nBlockWeight a) (nBlockTx a) (nBlockSigOpsCost a)
    (nFees a) v (bceResult a).
Definition set_bceResult (v : ByteCodeExecResult) (a : BlockAssembler) :=
  with_state a (pblocktemplate a) (nBlockWeight a) (nBlockTx a) (nBlockSigOpsCost a)
    (nFees a) (inBlock a) v.

(** Writing through [pblock]: the block inside the template. *)
Definition set_block_vtx (v : list CTransactionRef) (a : BlockAssembler) :=
  let t := pblocktemplate a in
  set_pblocktemplate
    {| block := set_vtx v (block t); vTxFees := vTxFees t;
       vTxSigOpsCost := vTxSigOpsCost t |} a.

Definition block_vtx (a : BlockAssembler) : list CTransactionRef :=
  vtx (block (pblocktemplate a)).

(** [vtx.emplace_back(tx)] together with the two parallel [push_back]s. *)
Definition push_tx_fee_sigops (tx : CTransactionRef) (fee : CAmount) (sigops : Z)
    (a : BlockAssembler) :=
  let t := pblocktemplate a in
  set_pblocktemplate
    {| block := set_vtx (vtx (block t) ++ [tx]) (block t);
       vTxFees := vTxFees t ++ [fee];
       vTxSigOpsCost := vTxSigOpsCost t ++ [sigops] |} a.

(** ** std::vector and std::set helpers *)

(** [v.resize(n)] with value-initialised new elements. *)
Definition vector_resize {A} (d : A) (n : nat) (v : list A) : list A :=
  take n v ++ replicate (n - length v)%nat d.

(** [for (x : src) { dst[i] = x; i++; }] *)
Fixpoint copy_at {A} (i : nat) (src dst : list A) : list A :=
  match src with
  | [] => dst
  | x :: src' => copy_at (S i) src' (<[i := x]> dst)
  end.

(** A [setEntries] is iterated in the order of its comparator, the hash. *)
Definition setEntries_iterate (s : gset txiter) : list txiter :=
  merge_sort N.le (elements s).

(** ** The assembler's member functions *)

Module Assembler.
Section WithCollaborators.
Context `{Chain} `{MemPool} `{ContractVM}.

(** The constructor's clamp of [options.nBlockMaxWeight] (line 104). *)
Definition clamp_nBlockMaxWeight (options_nBlockMaxWeight : Z) : Z :=
  u32 (Z.max 4000 (Z.min (u32 (dgpMaxBlockWeight - 4000)) (u64 options_nBlockMaxWeight))).

Definition resetBlock (a : BlockAssembler) : BlockAssembler :=
  with_state a (pblocktemplate a) 4000 0 400 0 ∅ (bceResult a).

(** *** RebuildRefundTransaction (lines 146-162)

    [operator[]] on a vector has no defined result out of range, so the
    function is partial. *)
Definition refund_index (pblock : CBlock) : nat :=
  if IsProofOfStake pblock then 1%nat else 0%nat.

Definition set_nValue (v : CAmount) (o : CTxOut) : CTxOut :=
  {| nValue := v; scriptPubKey := scriptPubKey o |}.

(** The two statements that write [contrTx.vout[refundtx].nValue]. *)
Definition reward_value (a : BlockAssembler) : CAmount :=
  s64 (s64 (nFees a + GetBlockSubsidy (nHeight a)) - refundSender (bceResult a)).

(** Lines 155-160: grow the output vector and copy the refund outputs in. *)
Definition append_outputs (outs : list CTxOut) (v : list CTxOut) : list CTxOut :=
  let i := length v in
  copy_at i outs (vector_resize CTxOut_null (length v + length outs)%nat v).

Definition RebuildRefundTransaction (a : BlockAssembler) : option BlockAssembler :=
  let pblock := block (pblocktemplate a) in
  let refundtx := refund_index pblock in
  let contrTx := originalRewardTx a in
  o ← vout contrTx !! refundtx;
  let vout1 := <[refundtx := set_nValue (reward_value a) o]> (vout contrTx) in
  let vout2 := append_outputs (refundOutputs (bceResult a)) vout1 in
  _ ← vtx pblock !! refundtx;
  Some (set_block_vtx
          (<[refundtx := MakeTransactionRef (set_vout vout2 contrTx)]> (vtx pblock)) a).

(** *** onlyUnconfirmed, TestPackage, TestPackageTransactions *)

Definition onlyUnconfirmed (a : BlockAssembler) (testSet : gset txiter) : gset txiter :=
  filter (λ it, it ∉ inBlock a) testSet.

Definition TestPackage (a : BlockAssembler) (packageSize packageSigOpsCost : Z) : bool :=
  if u64 (nBlockWeight a + u64 (WITNESS_SCALE_FACTOR * packageSize)) >=? nBlockMaxWeight a
  then false
  else if u64 (nBlockSigOpsCost a + packageSigOpsCost) >=? u64 dgpMaxBlockSigOps
  then false
  else true.

Definition TestPackageTransactions (a : BlockAssembler) (package : gset txiter) : bool :=
  forallb (λ it, IsFinalTx (GetSharedTx (entry it)) (nHeight a) (m_lock_time_cutoff a))
    (setEntries_iterate package).

(** *** AddToBlock (lines 424-441); the priority log line has no effect *)
Definition AddToBlock (a : BlockAssembler) (it : txiter) : BlockAssembler :=
  let e := entry it in
  let a := push_tx_fee_sigops (Some (GetSharedTx e)) (GetFee e) (GetSigOpCost e) a in
  let a := set_nBlockWeight (u64 (nBlockWeight a + GetTxWeight e)) a in
  let a := set_nBlockTx (u64 (nBlockTx a + 1)) a in
  let a := set_nBlockSigOpsCost (u64 (nBlockSigOpsCost a + GetSigOpCost e)) a in
  let a := set_nFees (s64 (nFees a + GetFee e)) a in
  set_inBlock ({[it]} ∪ inBlock a) a.

(** *** AttemptToAddContractToBlock (lines 277-422) *)

(** The loop of lines 305-325; [true] when no sub-transaction is refused. *)
Fixpoint gas_checks (a : BlockAssembler) (minGasPrice : Z) (txGas : Z)
    (qtumTransactions : list QtumTransaction) : bool :=
  match qtumTransactions with
  | [] => true
  | qtumTransaction :: rest =>
      let txGas := u256 (txGas + gas qtumTransaction) in
      if txGas >? txGasLimit a then false
      else if u256 (usedGas (bceResult a) + gas qtumTransaction) >? softBlockGasLimit a
      then false
      else if gasPrice qtumTransaction <? minGasPrice then false
      else gas_checks a minGasPrice txGas rest
  end.


(** Lines 358-361: the value transfers' cost on the local counters. *)
Definition add_transfer_costs (ws : Z * Z) (ts : list CTransaction) : Z * Z :=
  fold_left (λ '(w, s) t,
               (u64 (w + GetTransactionWeight t), u64 (s + GetLegacySigOpCount t)))
            ts ws.

(** [*pblock->vtx[i]]: undefined on a bad index or a null pointer. *)
Definition deref_vtx (pblock : CBlock) (i : nat) : option CTransaction :=
  mjoin (vtx pblock !! i).

(** Lines 408-413. *)
Definition push_valueTransfer (a : BlockAssembler) (t : CTransaction) : BlockAssembler :=
  let a := set_block_vtx (block_vtx a ++ [MakeTransactionRef t]) a in
  let a := set_nBlockWeight (u64 (nBlockWeight a + GetTransactionWeight t)) a in
  let a := set_nBlockSigOpsCost (u64 (nBlockSigOpsCost a + GetLegacySigOpCount t)) a in
  set_nBlockTx (u64 (nBlockTx a + 1)) a.

Definition set_valueTransfers (v : list CTransaction) (r : ByteCodeExecResult) :=
  {| usedGas := usedGas r; refundSender := refundSender r;
     refundOutputs := refundOutputs r; valueTransfers := v |}.

(** Lines 391-421, entered once every check has passed. *)
Definition commit_contract (a : BlockAssembler) (it : txiter)
    (testExecResult : ByteCodeExecResult) (proofTx : nat) : option BlockAssembler :=
  let e := entry it in
  let r := bceResult a in
  let a := set_bceResult
             {| usedGas := u64 (usedGas r + usedGas testExecResult);
                refundSender := s64 (refundSender r + refundSender testExecResult);
                refundOutputs := refundOutputs r ++ refundOutputs testExecResult;
                valueTransfers := valueTransfers testExecResult |} a in
  (* lines 399-406, the same statements as in AddToBlock *)
  let a := push_tx_fee_sigops (Some (GetSharedTx e)) (GetFee e) (GetSigOpCost e) a in
  let a := set_nBlockWeight (u64 (nBlockWeight a + GetTxWeight e)) a in
  let a := set_nBlockTx (u64 (nBlockTx a + 1)) a in
  let a := set_nBlockSigOpsCost (u64 (nBlockSigOpsCost a + GetSigOpCost e)) a in
  let a := set_nFees (s64 (nFees a + GetFee e)) a in
  let a := set_inBlock ({[it]} ∪ inBlock a) a in
  let a := fold_left push_valueTransfer (valueTransfers (bceResult a)) a in
  old ← deref_vtx (block (pblocktemplate a)) proofTx;
  let a := set_nBlockSigOpsCost (u64 (nBlockSigOpsCost a - GetLegacySigOpCount old)) a in
  a ← RebuildRefundTransaction a;
  new ← deref_vtx (block (pblocktemplate a)) proofTx;
  let a := set_nBlockSigOpsCost (u64 (nBlockSigOpsCost a + GetLegacySigOpCount new)) a in
  Some (set_bceResult (set_valueTransfers [] (bceResult a)) a).

Definition AttemptToAddContractToBlock (amb : Ambient) (a : BlockAssembler)
    (globalState : QtumState) (it : txiter) (minGasPrice : Z)
  : option (bool * BlockAssembler * QtumState) :=
  if negb (nTimeLimit a =? 0)
     && (GetAdjustedTimeSeconds amb
           >=? u32 (nTimeLimit a - nBytecodeTimeBuffer (miner_globals amb)))
  then Some (false, a, globalState)
  else if arg_disablecontractstaking amb then Some (false, a, globalState)
  else
    let oldHashStateRoot := rootHash globalState in
    let oldHashUTXORoot := rootHashUTXO globalState in
    let restore g := setRootUTXO oldHashUTXORoot (setRoot oldHashStateRoot g) in
    let pblock := block (pblocktemplate a) in
    let e := entry it in
    let contractflags := GetContractScriptFlags (nHeight a) in
    match extractionQtumTransactions (GetSharedTx e) (vtx pblock) contractflags with
    | None => Some (false, a, globalState)
    | Some qtumTransactions =>
      if negb (gas_checks a minGasPrice 0 qtumTransactions)
      then Some (false, a, globalState)
      else
        let '(ok, gs1) :=
          performByteCode globalState pblock qtumTransactions (hardBlockGasLimit a) in
        if negb ok then Some (false, a, restore gs1)
        else
          let '(res, gs2) :=
            processingResults gs1 pblock qtumTransactions (hardBlockGasLimit a) in
          match res with
          | None => Some (false, a, restore gs2)
          | Some testExecResult =>
            if u64 (usedGas (bceResult a) + usedGas testExecResult)
                 >? softBlockGasLimit a
            then Some (false, a, restore gs2)
            else
              let '(w, s) :=
                add_transfer_costs
                  (u64 (nBlockWeight a + GetTxWeight e),
                   u64 (nBlockSigOpsCost a + GetSigOpCost e))
                  (valueTransfers testExecResult) in
              let proofTx := refund_index pblock in
              old ← deref_vtx pblock proofTx;
              let s := u64 (s - GetLegacySigOpCount old) in
              let contrTx :=
                set_vout (append_outputs (refundOutputs testExecResult) (vout old)) old in
              let s := u64 (s + GetLegacySigOpCount contrTx) in
              if (u64 (s * WITNESS_SCALE_FACTOR) >? u64 dgpMaxBlockSigOps)
                 || (w >? dgpMaxBlockWeight)
              then Some (false, a, restore gs2)
              else
                a' ← commit_contract a it testExecResult proofTx;
                Some (true, a', gs2)
          end
    end.
End WithCollaborators.
End Assembler.

(** ** Package selection: [UpdatePackagesForAdded], [SortForBlock], [addPackageTxs] *)

Module Selector.
Import Assembler.
Section WithCollaborators.
Context `{Chain} `{MemPool} `{ContractVM}.

(** *** The modified-entry overlay

    [indexed_modified_transaction_set] has a unique index by [iter] and an
    ordered index by score; the list is the score index from [begin()]. *)
Definition overlay := list CTxMemPoolModifiedEntry.

Definition overlay_find (m : overlay) (it : txiter) : option CTxMemPoolModifiedEntry :=
  List.find (λ e, (iter e =? it)%N) m.

Definition overlay_count (m : overlay) (it : txiter) : bool :=
  bool_decide (is_Some (overlay_find m it)).

Definition overlay_erase (it : txiter) (m : overlay) : overlay :=
  List.filter (λ e, negb (iter e =? it)%N) m.

(** Position in the score index: before the first record that the new one
    is ordered before. *)
Fixpoint overlay_place (e : CTxMemPoolModifiedEntry) (m : overlay) : overlay :=
  match m with
  | [] => [e]
  | x :: m' => if CompareModifiedEntry e x then e :: m else x :: overlay_place e m'
  end.

(** [insert] is refused by the unique index when the key is present. *)
Definition overlay_insert (e : CTxMemPoolModifiedEntry) (m : overlay) : overlay :=
  if overlay_count m (iter e) then m else overlay_place e m.

(** Modelled from the spec: the constructor [CTxMemPoolModifiedEntry(entry)]
    is declared in node/miner.h; it makes "a shadow record initialized from
    the entry's current mempool stats". *)
Definition modified_of (it : txiter) : CTxMemPoolModifiedEntry := {|
  iter := it;
  nSizeWithAncestors := GetSizeWithAncestors (entry it);
  nModFeesWithAncestors := GetModFeesWithAncestors (entry it);
  nSigOpCostWithAncestors := GetSigOpCostWithAncestors (entry it)
|}.

(** Modelled from the spec: [update_for_parent_inclusion] is declared in
    node/miner.h; it must "subtract the included ancestor's contribution
    from the existing shadow record", the three subtractions that lines
    465-467 apply to a fresh record. *)
Definition update_for_parent_inclusion (it : txiter) (e : CTxMemPoolModifiedEntry)
  : CTxMemPoolModifiedEntry := {|
  iter := iter e;
  nSizeWithAncestors := u64 (nSizeWithAncestors e - GetTxSize (entry it));
  nModFeesWithAncestors := s64 (nModFeesWithAncestors e - GetModifiedFee (entry it));
  nSigOpCostWithAncestors := s64 (nSigOpCostWithAncestors e - GetSigOpCost (entry it))
|}.

(** The body of the inner loop of [UpdatePackagesForAdded]. *)
Definition update_descendant (alreadyAdded : gset txiter) (it : txiter)
    (acc : Z * overlay) (desc : txiter) : Z * overlay :=
  if bool_decide (desc ∈ alreadyAdded) then acc
  else
    let '(nDescendantsUpdated, mapModifiedTx) := acc in
    match overlay_find mapModifiedTx desc with
    | None =>
        (s32 (nDescendantsUpdated + 1),
         overlay_insert (update_for_parent_inclusion it (modified_of desc)) mapModifiedTx)
    | Some mit =>
        (s32 (nDescendantsUpdated + 1),
         overlay_place (update_for_parent_inclusion it mit)
           (overlay_erase desc mapModifiedTx))
    end.

Definition UpdatePackagesForAdded (alreadyAdded : gset txiter) (mapModifiedTx : overlay)
  : Z * overlay :=
  fold_left
    (λ acc it,
       fold_left (update_descendant alreadyAdded it)
         (setEntries_iterate (CalculateDescendants it)) acc)
    (setEntries_iterate alreadyAdded) (0, mapModifiedTx).

(** *** SortForBlock *)

(** Modelled from the spec: [CompareTxIterByAncestorCount] is declared in
    txmempool.h; the package is sorted "by ancestor-count ascending", and
    entries with equal counts are ordered by hash as in every [setEntries]. *)
Definition CompareTxIterByAncestorCount (a b : txiter) : bool :=
  if negb (GetCountWithAncestors (entry a) =? GetCountWithAncestors (entry b))
  then GetCountWithAncestors (entry a) <? GetCountWithAncestors (entry b)
  else (a <? b)%N.

(** [a] does not come after [b]. *)
Definition not_after (a b : txiter) : Prop := CompareTxIterByAncestorCount b a = false.

#[local] Instance not_after_dec a b : Decision (not_after a b).
Proof. unfold not_after. apply _. Defined.

Definition SortForBlock (package : gset txiter) : list txiter :=
  merge_sort not_after (setEntries_iterate package).

(** *** The selection loop *)

(** The locals of [addPackageTxs] that live across iterations, with the
    assembler and the two counters passed by reference. *)
Record Selection := {
  asm : BlockAssembler;
  mi : list txiter;              (* the score index from [mi] to [end()] *)
  mapModifiedTx : overlay;
  failedTx : gset txiter;
  nConsecutiveFailed : Z;        (* int64_t *)
  nPackagesSelected : Z;         (* int& *)
  nDescendantsUpdated : Z        (* int& *)
}.

Definition MAX_CONSECUTIVE_FAILURES : Z := 1000.

(** How one pass through the loop body ends. *)
Inductive step_result :=
| Continue (s : Selection)    (* back to the loop condition *)
| Break (s : Selection)       (* [break], line 598 *)
| Return (s : Selection)      (* [return], line 581 *)
| Exhausted (s : Selection)   (* the loop condition is false *)
| AssertFail.                 (* [assert], line 568 *)

(** Lines 542-564: which entry to evaluate, the overlay record [*modit]
    when it is the overlay's best ([fUsingModified]), and where [mi] stands
    afterwards.  With [mi] at the end the loop condition makes the overlay
    non-empty; [None] is the dereference of an end iterator. *)
Definition choose_candidate (s : Selection)
  : option (txiter * option CTxMemPoolModifiedEntry * list txiter) :=
  let modit := head (mapModifiedTx s) in
  match mi s with
  | [] => m ← modit; Some (iter m, Some m, [])
  | it :: rest =>
      match modit with
      | Some m =>
          if CompareModifiedEntry m (modified_of it)
          then Some (iter m, Some m, mi s)
          else Some (it, None, rest)
      | None => Some (it, None, rest)
      end
  end.

(** Lines 627-631. *)
Definition include_entry (am : BlockAssembler * overlay) (it : txiter)
  : BlockAssembler * overlay :=
  (AddToBlock (fst am) it, overlay_erase it (snd am)).

(** Lines 585-591 and 613-616: drop a failed overlay candidate. *)
Definition drop_failed (fUsingModified : bool) (it : txiter) (s : Selection)
  : overlay * gset txiter :=
  if fUsingModified
  then (overlay_erase it (mapModifiedTx s), {[it]} ∪ failedTx s)
  else (mapModifiedTx s, failedTx s).

Definition with_locals (s : Selection) (mi' : list txiter) (m : overlay)
    (f : gset txiter) (n : Z) : Selection :=
  {| asm := asm s; mi := mi'; mapModifiedTx := m; failedTx := f;
     nConsecutiveFailed := n;
     nPackagesSelected := nPackagesSelected s;
     nDescendantsUpdated := nDescendantsUpdated s |}.

(** Lines 570-577. *)
Definition package_stats (it : txiter) (modit : option CTxMemPoolModifiedEntry)
  : Z * CAmount * Z :=
  match modit with
  | Some m => (nSizeWithAncestors m, nModFeesWithAncestors m, nSigOpCostWithAncestors m)
  | None => (u64 (GetSizeWithAncestors (entry it)),
             GetModFeesWithAncestors (entry it),
             GetSigOpCostWithAncestors (entry it))
  end.

(** Lines 603-609. *)
Definition package_of (a : BlockAssembler) (it : txiter) : gset txiter :=
  {[it]} ∪ onlyUnconfirmed a (CalculateMemPoolAncestors it).

(** Lines 566-636 for the chosen candidate. *)
Definition evaluate (s : Selection) (it : txiter)
    (modit : option CTxMemPoolModifiedEntry) (mi' : list txiter) : step_result :=
  let a := asm s in
  let fUsingModified := bool_decide (is_Some modit) in
  if bool_decide (it ∈ inBlock a) then AssertFail
  else
    let '(packageSize, packageFees, packageSigOpsCost) := package_stats it modit in
    if packageFees <? FeeRate_GetFee (blockMinFeeRate a) packageSize
    then Return (with_locals s mi' (mapModifiedTx s) (failedTx s) (nConsecutiveFailed s))
    else if negb (TestPackage a packageSize packageSigOpsCost)
    then
      let '(m, f) := drop_failed fUsingModified it s in
      let n := s64 (nConsecutiveFailed s + 1) in
      if (n >? MAX_CONSECUTIVE_FAILURES)
         && (nBlockWeight a >? u32 (nBlockMaxWeight a - 4000))
      then Break (with_locals s mi' m f n)
      else Continue (with_locals s mi' m f n)
    else
      let ancestors := package_of a it in
      if negb (TestPackageTransactions a ancestors)
      then
        let '(m, f) := drop_failed fUsingModified it s in
        Continue (with_locals s mi' m f (nConsecutiveFailed s))
      else
        let sortedEntries := SortForBlock ancestors in
        let '(a', m) := fold_left include_entry sortedEntries (a, mapModifiedTx s) in
        let '(n, m') := UpdatePackagesForAdded ancestors m in
        Continue {| asm := a'; mi := mi'; mapModifiedTx := m';
                    failedTx := failedTx s;
                    nConsecutiveFailed := 0;
                    nPackagesSelected := s32 (nPackagesSelected s + 1);
                    nDescendantsUpdated := s32 (nDescendantsUpdated s + n) |}.

Definition advance (s : Selection) (rest : list txiter) : Selection :=
  {| asm := asm s; mi := rest; mapModifiedTx := mapModifiedTx s;
     failedTx := failedTx s; nConsecutiveFailed := nConsecutiveFailed s;
     nPackagesSelected := nPackagesSelected s;
     nDescendantsUpdated := nDescendantsUpdated s |}.

(** Lines 531-538: the entry under [mi] was already evaluated, or its
    cached ancestor state is stale. *)
Definition stale (s : Selection) (it : txiter) : bool :=
  overlay_count (mapModifiedTx s) it
  || bool_decide (it ∈ inBlock (asm s))
  || bool_decide (it ∈ failedTx s).

(** Lines 540-636.  Under the loop condition a candidate always exists. *)
Definition body (s : Selection) : step_result :=
  match choose_candidate s with
  | Some (cand, modit, mi') => evaluate s cand modit mi'
  | None => AssertFail
  end.

(** One pass: the loop condition, then the body. *)
Definition step (s : Selection) : step_result :=
  match mi s, mapModifiedTx s with
  | [], [] => Exhausted s
  | it :: rest, _ => if stale s it then Continue (advance s rest) else body s
  | [], _ :: _ => body s
  end.

(** At most [fuel] passes of the loop. *)
Fixpoint iterate (fuel : nat) (s : Selection) : step_result :=
  match fuel with
  | O => Continue s
  | S fuel' =>
      match step s with
      | Continue s' => iterate fuel' s'
      | r => r
      end
  end.

(** Entry into [addPackageTxs]: fresh locals, [mi] at [begin()]. *)
Definition enter (a : BlockAssembler) (nPackagesSelected0 nDescendantsUpdated0 : Z)
  : Selection :=
  {| asm := a; mi := mapTx_by_score; mapModifiedTx := []; failedTx := ∅;
     nConsecutiveFailed := 0;
     nPackagesSelected := nPackagesSelected0;
     nDescendantsUpdated := nDescendantsUpdated0 |}.

Definition addPackageTxs (fuel : nat) (a : BlockAssembler)
    (nPackagesSelected0 nDescendantsUpdated0 : Z) : step_result :=
  iterate fuel (enter a nPackagesSelected0 nDescendantsUpdated0).

(** *** Observations used to state the properties *)

Definition result_state (r : step_result) : option Selection :=
  match r with
  | Continue s | Break s | Return s | Exhausted s => Some s
  | AssertFail => None
  end.

(** The pass reaches line 540: the loop condition holds and the entry under
    [mi] is not skipped. *)
Definition reaches_body (s : Selection) : bool :=
  match mi s, mapModifiedTx s with
  | [], [] => false
  | it :: _, _ => negb (stale s it)
  | [], _ :: _ => true
  end.

Definition packageSize_of (it : txiter) (modit : option CTxMemPoolModifiedEntry) : Z :=
  (package_stats it modit).1.1.
Definition packageFees_of (it : txiter) (modit : option CTxMemPoolModifiedEntry) : CAmount :=
  (package_stats it modit).1.2.
Definition packageSigOpsCost_of (it : txiter) (modit : option CTxMemPoolModifiedEntry) : Z :=
  (package_stats it modit).2.

(** The candidate passes the assertion, the fee-rate guard and both tests:
    its package is included in this pass. *)
Definition selected (s : Selection) (it : txiter)
    (modit : option CTxMemPoolModifiedEntry) : Prop :=
  (it ∉ inBlock (asm s))
  /\ FeeRate_GetFee (blockMinFeeRate (asm s)) (packageSize_of it modit)
     <= packageFees_of it modit
  /\ TestPackage (asm s) (packageSize_of it modit) (packageSigOpsCost_of it modit) = true
  /\ TestPackageTransactions (asm s) (package_of (asm s) it) = true.

(** The state a pass leaves when it includes the package of [it]. *)
Definition included (s : Selection) (it : txiter) (mi' : list txiter) : Selection :=
  let a := asm s in
  let package := package_of a it in
  let sortedEntries := SortForBlock package in
  let u := UpdatePackagesForAdded package
             (fold_left (λ m x, overlay_erase x m) sortedEntries (mapModifiedTx s)) in
  {| asm := fold_left AddToBlock sortedEntries a; mi := mi'; mapModifiedTx := u.2;
     failedTx := failedTx s; nConsecutiveFailed := 0;
     nPackagesSelected := s32 (nPackagesSelected s + 1);
     nDescendantsUpdated := s32 (nDescendantsUpdated s + u.1) |}.

(** What [vtx.emplace_back(iter->GetSharedTx())] appends for an entry. *)
Definition tx_ref (it : txiter) : CTransactionRef := Some (GetSharedTx (entry it)).

(** [order] lists the entries appended to the block since [a0], in block
    order: no entry twice, exactly the members of [inBlock], and every
    in-mempool ancestor of an entry at an earlier position. *)
Record appended_in_order (a0 a : BlockAssembler) (order : list txiter) : Prop := {
  order_vtx : block_vtx a = block_vtx a0 ++ map tx_ref order;
  order_NoDup : NoDup order;
  order_inBlock : forall it, it ∈ inBlock a <-> it ∈ order;
  order_ancestors : forall i T A,
    order !! i = Some T -> A ∈ CalculateMemPoolAncestors T ->
    exists j, (j < i)%nat /\ order !! j = Some A
}.

(** What the mempool maintains about ancestors: the ancestor sets are
    transitively closed, and an ancestor has a smaller ancestor count (the
    comment in [SortForBlock]). *)
Record consistent_ancestors : Prop := {
  ancestors_transitive : forall T A B,
    A ∈ CalculateMemPoolAncestors T -> B ∈ CalculateMemPoolAncestors A ->
    B ∈ CalculateMemPoolAncestors T;
  ancestors_count : forall T A,
    A ∈ CalculateMemPoolAncestors T ->
    GetCountWithAncestors (entry A) < GetCountWithAncestors (entry T)
}.

(** Descendants and ancestors describe one dependency relation: an entry is
    an ancestor of each of its descendants other than itself. *)
Definition consistent_descendants : Prop :=
  forall it desc,
    desc ∈ CalculateDescendants it -> desc <> it ->
    it ∈ CalculateMemPoolAncestors desc.

(** "mapModifiedTx shouldn't contain anything that is inBlock" (line 567). *)
Definition overlay_outside_block (s : Selection) : Prop :=
  forall e, e ∈ mapModifiedTx s -> iter e ∉ inBlock (asm s).

(** *** The inclusion step as the specification words it

    "Include each tx via AddToBlock (or AttemptToAddContractToBlock when
    contracts are enabled and the tx carries contract opcodes); erase
    included txs from overlay." *)
Definition include_entry_specified (amb : Ambient) (fContractsEnabled : bool)
    (globalState : QtumState) (minGasPrice : Z)
    (am : BlockAssembler * overlay) (it : txiter) : option (BlockAssembler * overlay) :=
  if fContractsEnabled && HasCreateOrCall (GetSharedTx (entry it))
  then
    r ← AttemptToAddContractToBlock amb am.1 globalState it minGasPrice;
    Some (r.1.2, overlay_erase it am.2)
  else Some (AddToBlock am.1 it, overlay_erase it am.2).
End WithCollaborators.
End Selector.

(** ** A small concrete world, used to run the definitions *)

Module Sample.
Definition constants : MinerConstants := {|
  MAX_STAKE_LOOKAHEAD := 2400;
  BYTECODE_TIME_BUFFER := 6;
  STAKE_TIME_BUFFER := 2;
  STAKER_POLLING_PERIOD := 5000;
  STAKER_POLLING_PERIOD_MIN_DIFFICULTY := 20000;
  STAKER_WAIT_FOR_WALID_BLOCK := 3000;
  STAKER_WAIT_FOR_BEST_BLOCK_HEADER := 250
|}.

(** Block time reduced four-fold from height 100 on. *)
Definition params : ConsensusParams := {|
  TimestampDownscaleFactor := λ h, if h <? 100 then 1 else 4;
  TargetSpacing := λ h, if h <? 100 then 128 else 32;
  fPowAllowMinDifficultyBlocks := true
|}.

Definition calls : list (@Scaler.call) := [
  {| Scaler.call_nHeight := 99; Scaler.call_params := params;
     Scaler.call_minDifficulty := false |};
  {| Scaler.call_nHeight := 100; Scaler.call_params := params;
     Scaler.call_minDifficulty := true |};
  {| Scaler.call_nHeight := 101; Scaler.call_params := params;
     Scaler.call_minDifficulty := false |}
].

Definition tip : CBlockIndex := {| nHeight_of := 100; GetMedianTimePast := 1700000000 |}.

Definition header0 : CBlockHeader := {|
  nVersion := 4; hashPrevBlock := 0; hashMerkleRoot := 0;
  nTime := 1699999990; nBits := 0x1d00ffff; nNonce := 0; fProofOfStake := false |}.

Definition next_work (_ : CBlockIndex) (h : CBlockHeader) (_ : ConsensusParams)
    (_ : bool) : Z := nBits h.

Definition chain : Chain := {|
  WITNESS_SCALE_FACTOR := 4;
  dgpMaxBlockSigOps := 80000;
  dgpMaxBlockWeight := 8000000;
  GetBlockSubsidy := λ _, 400000000;
  IsFinalTx := λ tx _ cutoff, nLockTime tx <=? cutoff;
  GetLegacySigOpCount := λ tx, Z.of_nat (length (vout tx));
  GetTransactionWeight := λ tx, 400 + 40 * Z.of_nat (length (vout tx));
  FeeRate_GetFee := λ rate size, rate * size / 1000
|}.

(** Four mempool entries: 1 is the parent of 2; 3 stands alone and calls a
    contract (its output script holds OP_CALL, 0xc2); 4 pays less than the
    minimum fee rate. *)
Definition tx_of (k : Z) (script : CScript) : CTransaction := {|
  vin := [{| prevout_hash := k; prevout_n := 0; scriptSig := []; nSequence := 0 |}];
  vout := [{| nValue := 1000 * k; scriptPubKey := script |}];
  tx_nVersion := 2; nLockTime := 0 |}.

Definition entry_of (it : txiter) : CTxMemPoolEntry :=
  match it with
  | 1%N => {| GetSharedTx := tx_of 1 [0x51]; GetFee := 1000; GetTxWeight := 400;
              GetTxSize := 100; GetSigOpCost := 4; GetModifiedFee := 1000;
              GetCountWithAncestors := 1; GetSizeWithAncestors := 100;
              GetModFeesWithAncestors := 1000; GetSigOpCostWithAncestors := 4 |}
  | 2%N => {| GetSharedTx := tx_of 2 [0x52]; GetFee := 5000; GetTxWeight := 400;
              GetTxSize := 100; GetSigOpCost := 4; GetModifiedFee := 5000;
              GetCountWithAncestors := 2; GetSizeWithAncestors := 200;
              GetModFeesWithAncestors := 6000; GetSigOpCostWithAncestors := 8 |}
  | 3%N => {| GetSharedTx := tx_of 3 [0xc2]; GetFee := 800; GetTxWeight := 400;
              GetTxSize := 100; GetSigOpCost := 4; GetModifiedFee := 800;
              GetCountWithAncestors := 1; GetSizeWithAncestors := 100;
              GetModFeesWithAncestors := 800; GetSigOpCostWithAncestors := 4 |}
  | _ => {| GetSharedTx := tx_of 4 [0x54]; GetFee := 100; GetTxWeight := 400;
            GetTxSize := 100; GetSigOpCost := 4; GetModifiedFee := 100;
            GetCountWithAncestors := 1; GetSizeWithAncestors := 100;
            GetModFeesWithAncestors := 100; GetSigOpCostWithAncestors := 4 |}
  end.

Definition ancestors_of (it : txiter) : gset txiter :=
  if (it =? 2)%N then {[1%N]} else ∅.

Definition descendants_of (it : txiter) : gset txiter :=
  if (it =? 1)%N then {[1%N; 2%N]} else {[it]}.

(** Higher ancestor fee rate first: fees(a) * size(b) > fees(b) * size(a). *)
Definition by_ancestor_score (a b : CTxMemPoolModifiedEntry) : bool :=
  nModFeesWithAncestors b * nSizeWithAncestors a
  <? nModFeesWithAncestors a * nSizeWithAncestors b.

Definition mempool : MemPool := {|
  entry := entry_of;
  mapTx_by_score := [2%N; 1%N; 3%N; 4%N];
  CalculateMemPoolAncestors := ancestors_of;
  CalculateDescendants := descendants_of;
  CompareModifiedEntry := by_ancestor_score
|}.

(** A VM that burns 60 of the 100 gas of the single call it extracts,
    refunds the rest to the sender and moves both roots. *)
Definition refund_out : CTxOut := {| nValue := 1600; scriptPubKey := [0x76; 0xa9] |}.

Definition vm : ContractVM := {|
  HasCreateOrCall := λ tx,
    existsb (λ o, existsb (λ b, (b =? 0xc1) || (b =? 0xc2)) (scriptPubKey o)) (vout tx);
  GetContractScriptFlags := λ _, 0;
  extractionQtumTransactions := λ tx _ _,
    Some [{| gas := 100; gasPrice := 40; qtx_payload := [] |}];
  performByteCode := λ gs _ _ _,
    (true, {| rootHash := rootHash gs + 1; rootHashUTXO := rootHashUTXO gs + 1 |});
  processingResults := λ gs _ _ _,
    (Some {| usedGas := 60; refundSender := 1600; refundOutputs := [refund_out];
             valueTransfers := [] |}, gs)
|}.

Definition ambient : Ambient := {|
  GetAdjustedTimeSeconds := 1700000123;
  arg_disablecontractstaking := false;
  miner_globals := @Scaler.initial constants
|}.

Definition gs0 : QtumState := {| rootHash := 0xabc; rootHashUTXO := 0xdef |}.

(** The coinbase as [CreateNewBlock] builds it, kept as [originalRewardTx]. *)
Definition coinbase : CTransaction := {|
  vin := [{| prevout_hash := 0; prevout_n := 0xffffffff; scriptSig := [101; 0];
             nSequence := 0xffffffff |}];
  vout := [{| nValue := 400000000; scriptPubKey := [0x51] |}];
  tx_nVersion := 2; nLockTime := 0 |}.

(** The assembler after [resetBlock], with the reward transaction in slot 0. *)
Definition a0 : BlockAssembler := {|
  pblocktemplate := {| block := {| header := header0; vtx := [Some coinbase] |};
                       vTxFees := [-1]; vTxSigOpsCost := [-1] |};
  nBlockMaxWeight := 4000000;
  blockMinFeeRate := 5000;
  nBlockWeight := 4000;
  nBlockTx := 0;
  nBlockSigOpsCost := 400;
  nFees := 0;
  inBlock := ∅;
  nHeight := 101;
  m_lock_time_cutoff := 1700000000;
  bceResult := {| usedGas := 0; refundSender := 0; refundOutputs := [];
                  valueTransfers := [] |};
  hardBlockGasLimit := 40000000;
  softBlockGasLimit := 40000000;
  txGasLimit := 40000000;
  originalRewardTx := coinbase;
  nTimeLimit := 0
|}.

(** The same assembler with a block that is nearly full. *)
Definition a_full : BlockAssembler := set_nBlockWeight 7999900 a0.

(** An assembler that has committed one contract call: fees collected and
    a refund pending. *)
Definition a_refund : BlockAssembler :=
  set_bceResult {| usedGas := 60; refundSender := 1600;
                   refundOutputs := [refund_out]; valueTransfers := [] |}
    (set_nFees 6100 a0).

(** What committing the contract call of entry 3 on [a0] leaves. *)
Definition committed : BlockAssembler * QtumState :=
  Eval vm_compute in
    match @Assembler.AttemptToAddContractToBlock chain mempool vm ambient a0 gs0 3%N 40 with
    | Some (_, a, g) => (a, g)
    | None => (a0, gs0)
    end.

(** The selection after [n] passes over the example mempool. *)
Definition after (n : nat) : @Selector.Selection :=
  match @Selector.iterate chain mempool n (@Selector.enter mempool a0 0 0) with
  | Selector.Continue s => s
  | _ => @Selector.enter mempool a0 0 0
  end.

(** Two passes in: the package of entry 2 is in the block, entry 1 has been
    skipped, and [mi] stands on entry 3, the contract call. *)
Definition s_contract : @Selector.Selection := Eval vm_compute in after 2.

(** One pass later [mi] stands on entry 4, whose fee is below the minimum. *)
Definition s_low_fee : @Selector.Selection := Eval vm_compute in after 3.

(** Entry 1 is next, the block is within 4000 of its maximum weight, and
    1000 candidates in a row have failed the fit test. *)
Definition s_nearly_full : @Selector.Selection := {|
  Selector.asm := set_nBlockWeight 3999900 a0;
  Selector.mi := [1%N; 3%N];
  Selector.mapModifiedTx := [];
  Selector.failedTx := ∅;
  Selector.nConsecutiveFailed := 1000;
  Selector.nPackagesSelected := 7;
  Selector.nDescendantsUpdated := 0
|}.

(** The whole run: it ends in the fee-rate [return] of the fourth pass. *)
Definition s_final : @Selector.Selection :=
  Eval vm_compute in
    match @Selector.addPackageTxs chain mempool 10 a0 0 0 with
    | Selector.Return s => s
    | _ => @Selector.enter mempool a0 0 0
    end.
End Sample.

(** ** Two more sample worlds *)

Module SampleTime.
(** A header whose time is late in the range of the 32-bit field, and a
    clock reading just past that range, 2^32 + 5. *)
Definition header_late : CBlockHeader := set_nTime 4000000000 Sample.header0.
Definition clock_past_u32 : Z := 2 ^ 32 + 5.
End SampleTime.

Module SampleBreak.
(** A mempool of 1003 unrelated entries, in score order.  Entry 1 fills the
    block to within 4000 of its maximum weight; entries 2 to 1002 are 1001
    transactions of 1200 weight units that no longer fit; entry 1003, of
    400, would still fit. *)
Definition entry_of (it : txiter) : CTxMemPoolEntry :=
  if (it =? 1)%N
  then {| GetSharedTx := Sample.tx_of 1 [0x51]; GetFee := 10000000;
          GetTxWeight := 3995000; GetTxSize := 998750; GetSigOpCost := 4;
          GetModifiedFee := 10000000; GetCountWithAncestors := 1;
          GetSizeWithAncestors := 998750; GetModFeesWithAncestors := 10000000;
          GetSigOpCostWithAncestors := 4 |}
  else if (it <=? 1002)%N
  then {| GetSharedTx := Sample.tx_of (Z.of_N it) [0x51]; GetFee := 3000;
          GetTxWeight := 1200; GetTxSize := 300; GetSigOpCost := 4;
          GetModifiedFee := 3000; GetCountWithAncestors := 1;
          GetSizeWithAncestors := 300; GetModFeesWithAncestors := 3000;
          GetSigOpCostWithAncestors := 4 |}
  else {| GetSharedTx := Sample.tx_of (Z.of_N it) [0x51]; GetFee := 600;
          GetTxWeight := 400; GetTxSize := 100; GetSigOpCost := 4;
          GetModifiedFee := 600; GetCountWithAncestors := 1;
          GetSizeWithAncestors := 100; GetModFeesWithAncestors := 600;
          GetSigOpCostWithAncestors := 4 |}.

Definition mempool : MemPool := {|
  entry := entry_of;
  mapTx_by_score := map N.of_nat (seq 1 1003);
  CalculateMemPoolAncestors := λ _, ∅;
  CalculateDescendants := λ it, {[it]};
  CompareModifiedEntry := Sample.by_ancestor_score
|}.

(** The selection after [n] passes, from [Sample.a0] as [resetBlock] and
    [CreateNewBlock] leave it. *)
Definition after (n : nat) : @Selector.Selection :=
  match @Selector.iterate Sample.chain mempool n (@Selector.enter mempool Sample.a0 0 0) with
  | Selector.Continue s => s
  | _ => @Selector.enter mempool Sample.a0 0 0
  end.

(** 1001 passes in: entry 1 is in the block and entries 2 to 1001 have
    failed the fit test one after the other. *)
Definition s_before_break : @Selector.Selection := Eval vm_compute in after 1001.

(** How the whole run ends. *)
Definition run : @Selector.step_result :=
  Eval vm_compute in @Selector.addPackageTxs Sample.chain mempool 2000 Sample.a0 0 0.
End SampleBreak.

(** ** Views on a sequence of [updateMinerParams] calls *)

Module ScalerView.
Import Scaler.
Section WithConstants.
Context `{MinerConstants}.

(** The downscale factor a call reads, as the [unsigned int] it is stored in. *)
Definition factor_of (c : call) : Z :=
  u32 (TimestampDownscaleFactor (call_params c) (call_nHeight c)).

(** The factor of the most recent call; 1, the initial cache, when there
    was none. *)
Definition last_factor (cs : list call) : Z := default 1 (last (factor_of <$> cs)).

(** Some call read a factor other than the initial 1. *)
Definition ever_rescaled (cs : list call) : bool :=
  existsb (λ c, negb (factor_of c =? 1)) cs.

(** The three globals that lines 49, 50 and 52 assign. *)
Definition buffers (g : MinerGlobals) : Z * Z * Z :=
  (nBytecodeTimeBuffer g, nStakeTimeBuffer g, nMinerWaitWalidBlock g).

(** What those lines compute for the factor [d]. *)
Definition buffers_for (d : Z) : Z * Z * Z :=
  (Z.max (u32 BYTECODE_TIME_BUFFER / d) 1,
   Z.max (u32 STAKE_TIME_BUFFER / d) 1,
   Z.max (u32 STAKER_WAIT_FOR_WALID_BLOCK / d) 1).
End WithConstants.
End ScalerView.

(** ** More of the sample world *)

Module SampleScaler.
(** The globals after the three sample calls. *)
Definition globals_after : MinerGlobals :=
  Eval vm_compute in
    default (@Scaler.initial Sample.constants)
      (@Scaler.updateMinerParams_calls Sample.constants
         (@Scaler.initial Sample.constants) Sample.calls).

(** The globals after one call at height 100 on a minimum-difficulty chain. *)
Definition globals_min_difficulty : MinerGlobals :=
  Eval vm_compute in
    default (@Scaler.initial Sample.constants)
      (@Scaler.updateMinerParams Sample.constants
         (@Scaler.initial Sample.constants) 100 Sample.params true).
End SampleScaler.

Module SampleAssembler.
(** [a_refund] with its reward transaction rebuilt. *)
Definition a_rebuilt : BlockAssembler :=
  Eval vm_compute in
    default Sample.a_refund (@Assembler.RebuildRefundTransaction Sample.chain Sample.a_refund).

(** A chain whose DGP block weight is below the 4000 the constructor
    subtracts. *)
Definition tiny_chain : Chain := {|
  WITNESS_SCALE_FACTOR := 4;
  dgpMaxBlockSigOps := 80000;
  dgpMaxBlockWeight := 1000;
  GetBlockSubsidy := λ _, 400000000;
  IsFinalTx := λ tx _ cutoff, nLockTime tx <=? cutoff;
  GetLegacySigOpCount := λ tx, Z.of_nat (length (vout tx));
  GetTransactionWeight := λ tx, 400 + 40 * Z.of_nat (length (vout tx));
  FeeRate_GetFee := λ rate size, rate * size / 1000
|}.
End SampleAssembler.

(** ** Views on the assembler *)

Module AssemblerView.
(** The sum of [f] over a list, in exact arithmetic. *)
Definition sum_with {A} (f : A -> Z) (l : list A) : Z :=
  foldr (λ x acc, f x + acc) 0 l.

(** What the value-transfer loop of lines 408-413 does not write. *)
Definition transfer_frame (a : BlockAssembler) :=
  (vTxFees (pblocktemplate a), vTxSigOpsCost (pblocktemplate a),
   header (block (pblocktemplate a)), nFees a, inBlock a, bceResult a,
   originalRewardTx a, nHeight a).
End AssemblerView.

(** ** Views on the selection loop *)

Module SelectorView.
Import Assembler Selector.
Section WithCollaborators.
Context `{Chain} `{MemPool} `{ContractVM}.

(** The loop has been left: a [Continue] result is a pass that goes back
    to the loop condition. *)
Definition finished (r : step_result) : bool :=
  match r with
  | Continue _ => false
  | _ => true
  end.

(** The record the loop reads for an entry: its overlay record when it has
    one, the mempool's cached values otherwise. *)
Definition current (m : overlay) (x : txiter) : CTxMemPoolModifiedEntry :=
  default (modified_of x) (overlay_find m x).

(** The members of [alreadyAdded] that count [x] among their descendants,
    in the order the outer loop of [UpdatePackagesForAdded] visits them. *)
Definition added_ancestors (alreadyAdded : gset txiter) (x : txiter) : list txiter :=
  List.filter (λ it, bool_decide (x ∈ CalculateDescendants it))
    (setEntries_iterate alreadyAdded).

(** The descendants of [it] that the inner loop does not skip. *)
Definition updated_descendants (alreadyAdded : gset txiter) (it : txiter) : list txiter :=
  List.filter (λ desc, negb (bool_decide (desc ∈ alreadyAdded)))
    (setEntries_iterate (CalculateDescendants it)).

(** What [TestPackageTransactions] tests of one entry. *)
Definition final_for (a : BlockAssembler) (it : txiter) : Prop :=
  IsFinalTx (GetSharedTx (entry it)) (nHeight a) (m_lock_time_cutoff a) = true.

(** What [AddToBlock] does not write. *)
Definition AddToBlock_frame (a : BlockAssembler) :=
  (header (block (pblocktemplate a)), nBlockMaxWeight a, blockMinFeeRate a,
   nHeight a, m_lock_time_cutoff a, bceResult a, hardBlockGasLimit a,
   softBlockGasLimit a, txGasLimit a, originalRewardTx a, nTimeLimit a).

(** The lexicographic measure of the loop: the indexed entries not yet in
    the block, then the entries left under [mi] and in the overlay. *)
Definition remaining (s : Selection) : nat :=
  size (list_to_set mapTx_by_score ∖ inBlock (asm s) : gset txiter).

Definition pending (s : Selection) : nat :=
  (length (mi s) + length (mapModifiedTx s))%nat.

(** The candidates the loop can meet are entries of the score index. *)
Definition indexed (s : Selection) : Prop :=
  (forall x, x ∈ mi s -> x ∈ mapTx_by_score)
  /\ forall e, e ∈ mapModifiedTx s -> iter e ∈ mapTx_by_score.

(** What the mempool guarantees about the sets it computes for an indexed
    entry: their members are indexed entries too. *)
Definition closed_index : Prop :=
  forall it, it ∈ mapTx_by_score ->
    (forall x, x ∈ CalculateMemPoolAncestors it -> x ∈ mapTx_by_score)
    /\ (forall x, x ∈ CalculateDescendants it -> x ∈ mapTx_by_score).
End WithCollaborators.
End SelectorView.

(** * Properties *)

(** ** Machine integers *)

Lemma u32_id x : fits_u32 x -> u32 x = x.
Proof. intros Hx. apply Z.mod_small. exact Hx. Qed.

Lemma u64_id x : fits_u64 x -> u64 x = x.
Proof. intros Hx. apply Z.mod_small. exact Hx. Qed.


Lemma s64_id x : fits_s64 x -> s64 x = x.
Proof.
  unfold fits_s64, s64. intros Hx.
  rewrite Z.mod_small by lia. lia.
Qed.

Lemma u64_add_u64_r x y : u64 (x + u64 y) = u64 (x + y).
Proof. unfold u64. apply Zplus_mod_idemp_r. Qed.

(** ** The time-parameter scaler *)

Module ScalerFacts.
Import Scaler.
Section WithConstants.
Context `{MinerConstants}.

Lemma rescale_frame g d t g' :
  rescale g d t = Some g' ->
  nMinerWaitBestBlockHeader g' = nMinerWaitBestBlockHeader g.
Proof.
  unfold rescale, udiv. intros Hr.
  destruct (d =? 0); simpl in Hr; [discriminate|].
  injection Hr as <-. reflexivity.
Qed.

Lemma rescale_defined g d t : d <> 0 -> is_Some (rescale g d t).
Proof.
  intros Hd. unfold rescale, udiv.
  apply Z.eqb_neq in Hd. rewrite Hd. simpl. eexists. reflexivity.
Qed.

Lemma updateMinerParams_frame g nHeight consensusParams minDifficulty g' :
  updateMinerParams g nHeight consensusParams minDifficulty = Some g' ->
  nMinerWaitBestBlockHeader g' = nMinerWaitBestBlockHeader g.
Proof.
  unfold updateMinerParams. intros Hu.
  destruct (negb _) eqn:Hne in Hu.
  - destruct (rescale _ _ _) as [g1|] eqn:Hr; simpl in Hu; [|discriminate].
    apply rescale_frame in Hr.
    destruct (_ && _) in Hu; injection Hu as <-; simpl; exact Hr.
  - simpl in Hu. destruct (_ && _) in Hu; injection Hu as <-; reflexivity.
Qed.

Lemma updateMinerParams_defined g c :
  defined_call c ->
  is_Some (updateMinerParams g (call_nHeight c) (call_params c) (call_minDifficulty c)).
Proof.
  unfold defined_call, updateMinerParams. intros Hd.
  destruct (negb _).
  - destruct (rescale_defined g _ (u32 (TargetSpacing (call_params c) (call_nHeight c))) Hd)
      as [g1 ->].
    simpl. destruct (_ && _); eexists; reflexivity.
  - simpl. destruct (_ && _); eexists; reflexivity.
Qed.

Lemma updateMinerParams_calls_frame cs : forall g,
  Forall defined_call cs ->
  exists g', updateMinerParams_calls g cs = Some g'
             /\ nMinerWaitBestBlockHeader g' = nMinerWaitBestBlockHeader g.
Proof.
  induction cs as [|c cs IH]; intros g Hall.
  - exists g. split; reflexivity.
  - inversion Hall as [|? ? Hc Hcs]; subst.
    destruct (updateMinerParams_defined g c Hc) as [g1 Hg1].
    destruct (IH g1 Hcs) as (g' & Hrun & Hkeep).
    exists g'. simpl. rewrite Hg1. simpl. split; [exact Hrun|].
    rewrite Hkeep. eapply updateMinerParams_frame. exact Hg1.
Qed.

(** C10.  Whatever sequence of calls the staker makes (each with a non-zero
    downscale factor, so that the divisions are defined), every call
    returns and [nMinerWaitBestBlockHeader] still holds its initial value
    [STAKER_WAIT_FOR_BEST_BLOCK_HEADER]: [updateMinerParams] recomputes the
    five other constants and never this one. *)
Theorem updateMinerParams_keeps_nMinerWaitBestBlockHeader (cs : list call) :
  Forall defined_call cs ->
  exists g', updateMinerParams_calls initial cs = Some g'
             /\ nMinerWaitBestBlockHeader g' = u32 STAKER_WAIT_FOR_BEST_BLOCK_HEADER.
Proof.
  intros Hall. destruct (updateMinerParams_calls_frame cs initial Hall) as (g' & Hrun & Hk).
  exists g'. split; [exact Hrun|]. rewrite Hk. reflexivity.
Qed.
End WithConstants.

Lemma updateMinerParams_keeps_nMinerWaitBestBlockHeader_witness :
Forall (@defined_call) Sample.calls
/\ exists g', @updateMinerParams_calls Sample.constants
                (@initial Sample.constants) Sample.calls = Some g'
              /\ nMinerWaitBestBlockHeader g' = 250.
Proof.
assert (Hall : Forall (@defined_call) Sample.calls).
{ repeat constructor; unfold defined_call; simpl; vm_compute; discriminate. }
split; [exact Hall|].
exact (@updateMinerParams_keeps_nMinerWaitBestBlockHeader Sample.constants
         Sample.calls Hall).
Defined.
End ScalerFacts.

(** ** Header time *)

Module TimeFacts.
Import HeaderTime.
Section WithPow.
Variable GetNextWorkRequired :
  CBlockIndex -> CBlockHeader -> ConsensusParams -> bool -> Z.

(** The header time after the call, whatever happens to [nBits]. *)
Lemma UpdateTime_nTime pblock consensusParams pindexPrev adjusted :
  nTime (UpdateTime GetNextWorkRequired pblock consensusParams pindexPrev adjusted).1
  = if nTime pblock <? nNewTime_of pindexPrev adjusted
    then u32 (nNewTime_of pindexPrev adjusted) else nTime pblock.
Proof.
  unfold UpdateTime. simpl.
  destruct (fPowAllowMinDifficultyBlocks consensusParams); simpl;
    destruct (nTime pblock <? nNewTime_of pindexPrev adjusted); reflexivity.
Qed.

(** C9, amended.  With [m = max(median-time-past + 1, adjusted time)] and
    [old] the header time before the call, the call returns [m - old]; it
    leaves [nTime] alone unless [old < m], and then stores [m] cut to the
    32 bits of the field.  So whenever [m] fits the field, [m < 2^32], the
    header time never decreases and, when it changes, is exactly [m].  The
    [int64_t] arithmetic is taken not to overflow. *)
Theorem UpdateTime_never_decreases pblock consensusParams pindexPrev adjusted :
  let old := nTime pblock in
  let m := Z.max (GetMedianTimePast pindexPrev + 1) adjusted in
  let r := UpdateTime GetNextWorkRequired pblock consensusParams pindexPrev adjusted in
  fits_u32 old ->
  fits_s64 (GetMedianTimePast pindexPrev + 1) ->
  fits_s64 (m - old) ->
  r.2 = m - old
  /\ (~ old < m -> nTime r.1 = old)
  /\ (old < m -> nTime r.1 = m mod 2 ^ 32)
  /\ (m < 2 ^ 32 ->
        old <= nTime r.1
        /\ (nTime r.1 <> old -> old < m)
        /\ (old < m -> nTime r.1 = m)).
Proof.
  intros old m r Hold Hmtp Hdiff. subst r.
  rewrite UpdateTime_nTime.
  assert (Hnew : nNewTime_of pindexPrev adjusted = m).
  { unfold nNewTime_of. rewrite s64_id by exact Hmtp. reflexivity. }
  rewrite Hnew.
  assert (Hret : (UpdateTime GetNextWorkRequired pblock consensusParams
                    pindexPrev adjusted).2 = m - old).
  { unfold UpdateTime. simpl. rewrite Hnew. apply s64_id. exact Hdiff. }
  rewrite Hret. fold old.
  split; [reflexivity|].
  destruct (old <? m) eqn:Hlt.
  - apply Z.ltb_lt in Hlt.
    split; [intros Hn; contradiction|]. split; [intros _; reflexivity|].
    intros Hm.
    assert (Hu : u32 m = m).
    { apply u32_id. unfold fits_u32 in *. lia. }
    rewrite Hu. repeat split; intros; lia.
  - apply Z.ltb_ge in Hlt.
    split; [intros _; reflexivity|]. split; [intros Hn; lia|].
    intros _. repeat split; intros; lia.
Qed.
End WithPow.

Lemma UpdateTime_never_decreases_witness :
let old := nTime Sample.header0 in
let m := Z.max (GetMedianTimePast Sample.tip + 1) 1700000123 in
let r := UpdateTime Sample.next_work Sample.header0 Sample.params
           Sample.tip 1700000123 in
(fits_u32 old /\ fits_s64 (GetMedianTimePast Sample.tip + 1)
 /\ fits_s64 (m - old))
/\ (r.2 = m - old
    /\ (~ old < m -> nTime r.1 = old)
    /\ (old < m -> nTime r.1 = m mod 2 ^ 32)
    /\ (m < 2 ^ 32 ->
          old <= nTime r.1
          /\ (nTime r.1 <> old -> old < m)
          /\ (old < m -> nTime r.1 = m))).
Proof.
assert (H1 : fits_u32 (nTime Sample.header0)) by (vm_compute; split; [discriminate|reflexivity]).
assert (H2 : fits_s64 (GetMedianTimePast Sample.tip + 1))
  by (vm_compute; split; [discriminate|reflexivity]).
assert (H4 : fits_s64 (Z.max (GetMedianTimePast Sample.tip + 1) 1700000123
                       - nTime Sample.header0))
  by (vm_compute; split; [discriminate|reflexivity]).
split; [exact (conj H1 (conj H2 H4))|].
exact (UpdateTime_never_decreases Sample.next_work Sample.header0 Sample.params
         Sample.tip 1700000123 H1 H2 H4).
Defined.

(** C9 as stated fails.  The clock is an [int64_t] and the field a
    [uint32_t]: with the header time at 4000000000 and the clock at
    2^32 + 5 the maximum exceeds the old time, line 68 stores it cut to 32
    bits, and the header time goes back to 5.  The value returned is still
    the maximum minus the old time. *)
Lemma UpdateTime_moves_time_back :
  let pblock := SampleTime.header_late in
  let adjusted := SampleTime.clock_past_u32 in
  let m := Z.max (GetMedianTimePast Sample.tip + 1) adjusted in
  let r := UpdateTime Sample.next_work pblock Sample.params Sample.tip adjusted in
  nTime pblock = 4000000000
  /\ m = 4294967301
  /\ nTime pblock < m
  /\ nTime r.1 = 5
  /\ nTime r.1 < nTime pblock
  /\ nTime r.1 <> m
  /\ r.2 = 294967301.
Proof.
  vm_compute.
  split; [reflexivity|]. split; [reflexivity|]. split; [reflexivity|].
  split; [reflexivity|]. split; [reflexivity|]. split; [discriminate | reflexivity].
Qed.
End TimeFacts.

(** ** The assembler's member functions *)

Lemma copy_at_app {A} (src : list A) : forall (v pad : list A),
  length pad = length src -> copy_at (length v) src (v ++ pad) = v ++ src.
Proof.
  induction src as [|x src IH]; intros v pad Hlen.
  - destruct pad; [|discriminate]. reflexivity.
  - destruct pad as [|p pad]; [discriminate|]. simpl in Hlen.
    simpl. rewrite insert_app_r_alt by lia.
    replace (length v - length v)%nat with 0%nat by lia. simpl.
    replace (S (length v)) with (length (v ++ [x])) by (rewrite length_app; simpl; lia).
    replace (v ++ x :: pad) with ((v ++ [x]) ++ pad) by (rewrite <- app_assoc; reflexivity).
    rewrite IH by lia. rewrite <- app_assoc. reflexivity.
Qed.

Lemma vector_resize_grow {A} (d : A) (v : list A) (k : nat) :
  vector_resize d (length v + k) v = v ++ replicate k d.
Proof.
  unfold vector_resize. rewrite take_ge by lia.
  replace (length v + k - length v)%nat with k by lia. reflexivity.
Qed.

Module AssemblerFacts.
Import Assembler.
Section WithCollaborators.
Context `{Chain} `{MemPool} `{ContractVM}.

(** C3.  [TestPackage] accepts exactly the packages that leave both budgets
    strictly unfilled: block weight plus [WITNESS_SCALE_FACTOR] times the
    package size below [nBlockMaxWeight], and sigops cost plus the
    package's below [dgpMaxBlockSigOps].  A package that exactly fills a
    budget is refused.  The sums are [uint64_t]; the statement is for sums
    that fit. *)
Theorem TestPackage_strict (a : BlockAssembler) (packageSize packageSigOpsCost : Z) :
  fits_u64 (nBlockWeight a + WITNESS_SCALE_FACTOR * packageSize) ->
  fits_u64 (nBlockSigOpsCost a + packageSigOpsCost) ->
  fits_u64 dgpMaxBlockSigOps ->
  TestPackage a packageSize packageSigOpsCost = true
  <-> (nBlockWeight a + WITNESS_SCALE_FACTOR * packageSize < nBlockMaxWeight a
       /\ nBlockSigOpsCost a + packageSigOpsCost < dgpMaxBlockSigOps).
Proof.
  intros Hw Hs Hd. unfold TestPackage.
  rewrite u64_add_u64_r, (u64_id _ Hw), (u64_id _ Hs), (u64_id _ Hd).
  rewrite !Z.geb_leb.
  destruct (nBlockMaxWeight a <=? _) eqn:E1;
    [apply Z.leb_le in E1 | apply Z.leb_gt in E1].
  - split; [discriminate | lia].
  - destruct (dgpMaxBlockSigOps <=? _) eqn:E2;
      [apply Z.leb_le in E2 | apply Z.leb_gt in E2].
    + split; [discriminate | lia].
    + split; [intros _; lia | reflexivity].
Qed.

(** *** RebuildRefundTransaction *)

Lemma append_outputs_app outs v : append_outputs outs v = v ++ outs.
Proof.
  unfold append_outputs. rewrite vector_resize_grow.
  apply copy_at_app. apply length_replicate.
Qed.

Lemma block_vtx_set_block_vtx v a : block_vtx (set_block_vtx v a) = v.
Proof. reflexivity. Qed.

Lemma RebuildRefundTransaction_eq a o :
  vout (originalRewardTx a) !! refund_index (block (pblocktemplate a)) = Some o ->
  (refund_index (block (pblocktemplate a)) < length (block_vtx a))%nat ->
  RebuildRefundTransaction a
  = Some (set_block_vtx
            (<[refund_index (block (pblocktemplate a)) :=
                 Some (set_vout
                         (<[refund_index (block (pblocktemplate a)) :=
                              set_nValue (reward_value a) o]> (vout (originalRewardTx a))
                          ++ refundOutputs (bceResult a))
                         (originalRewardTx a))]> (block_vtx a)) a).
Proof.
  intros Ho Hlt. unfold RebuildRefundTransaction.
  rewrite Ho. simpl.
  destruct (lookup_lt_is_Some_2 _ _ Hlt) as [t Ht].
  unfold block_vtx in Ht. rewrite Ht. simpl.
  rewrite append_outputs_app. reflexivity.
Qed.

(** C5.  After [RebuildRefundTransaction] the reward transaction (slot 0
    of the block for proof of work, slot 1 for proof of stake) has the
    inputs of [originalRewardTx]; its outputs are those of
    [originalRewardTx] with the value at the reward index overwritten by
    [GetBlockSubsidy(nHeight) + nFees - refundSender], followed by the
    accumulated [refundOutputs] in order.  The indices have to be in range
    and the [CAmount] sums have to fit their 64 bits. *)
Theorem RebuildRefundTransaction_reward (a : BlockAssembler) (o : CTxOut) :
  let refundtx := refund_index (block (pblocktemplate a)) in
  let reward := GetBlockSubsidy (nHeight a) + nFees a - refundSender (bceResult a) in
  vout (originalRewardTx a) !! refundtx = Some o ->
  (refundtx < length (block_vtx a))%nat ->
  fits_s64 (nFees a + GetBlockSubsidy (nHeight a)) ->
  fits_s64 reward ->
  exists a' tx',
    RebuildRefundTransaction a = Some a'
    /\ refundtx = (if IsProofOfStake (block (pblocktemplate a)) then 1 else 0)%nat
    /\ block_vtx a' = <[refundtx := Some tx']> (block_vtx a)
    /\ block_vtx a' !! refundtx = Some (Some tx')
    /\ vin tx' = vin (originalRewardTx a)
    /\ vout tx'
       = <[refundtx := {| nValue := reward; scriptPubKey := scriptPubKey o |}]>
           (vout (originalRewardTx a))
         ++ refundOutputs (bceResult a)
    /\ nValue <$> vout tx' !! refundtx = Some reward
    /\ bceResult a' = bceResult a.
Proof.
  intros refundtx reward Ho Hlt Hsum Hreward.
  assert (Hval : reward_value a = reward).
  { unfold reward_value. rewrite (s64_id _ Hsum).
    rewrite s64_id; subst reward; [lia|].
    replace (nFees a + GetBlockSubsidy (nHeight a) - refundSender (bceResult a))
      with (GetBlockSubsidy (nHeight a) + nFees a - refundSender (bceResult a)) by lia.
    exact Hreward. }
  eexists _, _. split; [apply (RebuildRefundTransaction_eq a o Ho Hlt)|].
  fold refundtx. rewrite Hval.
  split; [reflexivity|].
  split; [reflexivity|].
  split; [rewrite block_vtx_set_block_vtx; apply list_lookup_insert_eq; exact Hlt|].
  split; [reflexivity|].
  split; [reflexivity|].
  split; [|reflexivity].
  simpl. apply lookup_lt_Some in Ho.
  rewrite lookup_app_l by (rewrite length_insert; exact Ho).
  rewrite list_lookup_insert_eq by exact Ho. reflexivity.
Qed.

(** *** AttemptToAddContractToBlock *)




(** Every [return false] hands back the assembler it was given, and the
    roots read at lines 287-288. *)
Lemma AttemptToAddContractToBlock_refused amb a gs it minGasPrice a' gs' :
  AttemptToAddContractToBlock amb a gs it minGasPrice = Some (false, a', gs') ->
  a' = a /\ rootHash gs' = rootHash gs /\ rootHashUTXO gs' = rootHashUTXO gs.
Proof.
  unfold AttemptToAddContractToBlock. intros Hr.
  repeat match type of Hr with
         | Some _ = Some _ => injection Hr as <- <-; repeat split; reflexivity
         | None = Some _ => discriminate
         | (if ?c then _ else _) = _ => destruct c
         | match ?x with Some _ => _ | None => _ end = _ => destruct x
         | (let '(_, _) := ?x in _) = _ => destruct x
         | (?x ≫= _) = _ => destruct x; simpl in Hr
         end.
  all: try discriminate.
Qed.

(** C1.  A call of [AttemptToAddContractToBlock] that returns false leaves
    nothing behind: both roots of the global contract state are what they
    were at entry, and the block weight, sigops cost, transaction count,
    fees, [inBlock], the block's transaction list and the accumulated
    [bceResult] are unchanged. *)
Theorem AttemptToAddContractToBlock_refusal_atomic
    (amb : Ambient) (a : BlockAssembler) (globalState : QtumState) (it : txiter)
    (minGasPrice : Z) (a' : BlockAssembler) (globalState' : QtumState) :
  AttemptToAddContractToBlock amb a globalState it minGasPrice
    = Some (false, a', globalState') ->
  rootHash globalState' = rootHash globalState
  /\ rootHashUTXO globalState' = rootHashUTXO globalState
  /\ nBlockWeight a' = nBlockWeight a
  /\ nBlockSigOpsCost a' = nBlockSigOpsCost a
  /\ nBlockTx a' = nBlockTx a
  /\ nFees a' = nFees a
  /\ inBlock a' = inBlock a
  /\ block_vtx a' = block_vtx a
  /\ usedGas (bceResult a') = usedGas (bceResult a)
  /\ refundSender (bceResult a') = refundSender (bceResult a)
  /\ refundOutputs (bceResult a') = refundOutputs (bceResult a).
Proof.
  intros Hr. apply AttemptToAddContractToBlock_refused in Hr as (-> & Hs & Hu).
  repeat split; assumption || reflexivity.
Qed.


End WithCollaborators.

Lemma TestPackage_strict_witness :
(fits_u64 (nBlockWeight Sample.a0 + @WITNESS_SCALE_FACTOR Sample.chain * 999000)
 /\ fits_u64 (nBlockSigOpsCost Sample.a0 + 20)
 /\ fits_u64 (@dgpMaxBlockSigOps Sample.chain))
/\ (@TestPackage Sample.chain Sample.a0 999000 20 = true
    <-> (nBlockWeight Sample.a0 + @WITNESS_SCALE_FACTOR Sample.chain * 999000
           < nBlockMaxWeight Sample.a0
         /\ nBlockSigOpsCost Sample.a0 + 20 < @dgpMaxBlockSigOps Sample.chain)).
Proof.
assert (H1 : fits_u64 (nBlockWeight Sample.a0
                       + @WITNESS_SCALE_FACTOR Sample.chain * 999000))
  by (vm_compute; split; [discriminate|reflexivity]).
assert (H2 : fits_u64 (nBlockSigOpsCost Sample.a0 + 20))
  by (vm_compute; split; [discriminate|reflexivity]).
assert (H3 : fits_u64 (@dgpMaxBlockSigOps Sample.chain))
  by (vm_compute; split; [discriminate|reflexivity]).
split; [exact (conj H1 (conj H2 H3))|].
exact (@TestPackage_strict Sample.chain Sample.a0 999000 20 H1 H2 H3).
Defined.

Lemma RebuildRefundTransaction_reward_witness :
let a := Sample.a_refund in
let o := {| nValue := 400000000; scriptPubKey := [0x51] |} in
(vout (originalRewardTx a) !! 0%nat = Some o
 /\ (0 < length (block_vtx a))%nat
 /\ fits_s64 (nFees a + @GetBlockSubsidy Sample.chain (nHeight a))
 /\ fits_s64 (@GetBlockSubsidy Sample.chain (nHeight a) + nFees a
              - refundSender (bceResult a)))
/\ exists a' tx',
    @RebuildRefundTransaction Sample.chain a = Some a'
    /\ 0%nat = (if IsProofOfStake (block (pblocktemplate a)) then 1 else 0)%nat
    /\ block_vtx a' = <[0%nat := Some tx']> (block_vtx a)
    /\ block_vtx a' !! 0%nat = Some (Some tx')
    /\ vin tx' = vin (originalRewardTx a)
    /\ vout tx'
       = <[0%nat := {| nValue := 400004500; scriptPubKey := scriptPubKey o |}]>
           (vout (originalRewardTx a))
         ++ refundOutputs (bceResult a)
    /\ nValue <$> vout tx' !! 0%nat = Some 400004500
    /\ bceResult a' = bceResult a.
Proof.
intros a o.
assert (H1 : vout (originalRewardTx a) !! 0%nat = Some o) by reflexivity.
assert (H2 : (0 < length (block_vtx a))%nat) by (vm_compute; lia).
assert (H3 : fits_s64 (nFees a + @GetBlockSubsidy Sample.chain (nHeight a)))
  by (vm_compute; split; [discriminate|reflexivity]).
assert (H4 : fits_s64 (@GetBlockSubsidy Sample.chain (nHeight a) + nFees a
                       - refundSender (bceResult a)))
  by (vm_compute; split; [discriminate|reflexivity]).
split; [exact (conj H1 (conj H2 (conj H3 H4)))|].
exact (@RebuildRefundTransaction_reward Sample.chain a o H1 H2 H3 H4).
Defined.

Lemma AttemptToAddContractToBlock_refusal_atomic_witness :
let a := Sample.a_full in
let gs := Sample.gs0 in
@AttemptToAddContractToBlock Sample.chain Sample.mempool Sample.vm
  Sample.ambient a gs 3%N 40 = Some (false, a, gs)
/\ (rootHash gs = rootHash gs
    /\ rootHashUTXO gs = rootHashUTXO gs
    /\ nBlockWeight a = nBlockWeight a
    /\ nBlockSigOpsCost a = nBlockSigOpsCost a
    /\ nBlockTx a = nBlockTx a
    /\ nFees a = nFees a
    /\ inBlock a = inBlock a
    /\ block_vtx a = block_vtx a
    /\ usedGas (bceResult a) = usedGas (bceResult a)
    /\ refundSender (bceResult a) = refundSender (bceResult a)
    /\ refundOutputs (bceResult a) = refundOutputs (bceResult a)).
Proof.
intros a gs.
assert (Hr : @AttemptToAddContractToBlock Sample.chain Sample.mempool Sample.vm
               Sample.ambient a gs 3%N 40 = Some (false, a, gs))
  by (vm_compute; reflexivity).
split; [exact Hr|].
exact (@AttemptToAddContractToBlock_refusal_atomic Sample.chain Sample.mempool
         Sample.vm Sample.ambient a gs 3%N 40 a gs Hr).
Defined.

End AssemblerFacts.


(** ** Package selection *)

Module SelectorFacts.
Import Assembler Selector.
Section WithCollaborators.
Context `{Chain} `{MemPool} `{ContractVM}.

Lemma fold_include_entry l : forall a m,
  fold_left include_entry l (a, m)
  = (fold_left AddToBlock l a, fold_left (λ m x, overlay_erase x m) l m).
Proof.
  induction l as [|x l IH]; intros a m; [reflexivity|].
  simpl. unfold include_entry at 2. simpl. apply IH.
Qed.

(** [evaluate], with the package statistics named. *)
Lemma evaluate_unfold s it modit mi' :
  evaluate s it modit mi' =
  let a := asm s in
  let d := drop_failed (bool_decide (is_Some modit)) it s in
  let n := s64 (nConsecutiveFailed s + 1) in
  if bool_decide (it ∈ inBlock a) then AssertFail
  else if packageFees_of it modit
          <? FeeRate_GetFee (blockMinFeeRate a) (packageSize_of it modit)
  then Return (with_locals s mi' (mapModifiedTx s) (failedTx s) (nConsecutiveFailed s))
  else if negb (TestPackage a (packageSize_of it modit) (packageSigOpsCost_of it modit))
  then if (n >? MAX_CONSECUTIVE_FAILURES)
          && (nBlockWeight a >? u32 (nBlockMaxWeight a - 4000))
       then Break (with_locals s mi' d.1 d.2 n)
       else Continue (with_locals s mi' d.1 d.2 n)
  else if negb (TestPackageTransactions a (package_of a it))
  then Continue (with_locals s mi' d.1 d.2 (nConsecutiveFailed s))
  else Continue (included s it mi').
Proof.
  unfold evaluate, included, packageFees_of, packageSize_of, packageSigOpsCost_of.
  destruct (package_stats it modit) as [[size fees] sigops]. simpl.
  destruct (drop_failed _ it s) as [m f]. simpl.
  rewrite fold_include_entry.
  destruct (UpdatePackagesForAdded _ _) as [n m']. reflexivity.
Qed.

Lemma step_body s : reaches_body s = true -> step s = body s.
Proof.
  unfold reaches_body, step. intros Hb.
  destruct (mi s) as [|it rest], (mapModifiedTx s) as [|m ms]; try discriminate;
    try reflexivity.
  all: apply negb_true_iff in Hb; rewrite Hb; reflexivity.
Qed.

Lemma step_skip s :
  reaches_body s = false ->
  step s = Exhausted s
  \/ exists it rest, mi s = it :: rest /\ step s = Continue (advance s rest).
Proof.
  unfold reaches_body, step. intros Hb.
  destruct (mi s) as [|it rest] eqn:Hmi, (mapModifiedTx s) as [|m ms] eqn:Hm;
    try discriminate.
  - left. reflexivity.
  - right. apply negb_false_iff in Hb. rewrite Hb. eauto.
  - right. apply negb_false_iff in Hb. rewrite Hb. eauto.
Qed.

Lemma iterate_stops fuel s r :
  step s = r -> (forall s', r <> Continue s') -> iterate (S fuel) s = r.
Proof.
  intros Hs Hr. simpl. rewrite Hs. destruct r; try reflexivity.
  exfalso. eapply Hr. reflexivity.
Qed.

(** C6.  When the package of the candidate under evaluation pays less than
    [blockMinFeeRate] asks for its size, the pass ends in [return]: the loop
    is over whatever fuel is left, the assembler (block, counters, [inBlock])
    is the one the pass started with, and nothing is recorded against the
    candidate (the overlay, [failedTx] and the failure counter are as
    before). *)
Theorem addPackageTxs_fee_rate_exit (fuel : nat) (s : Selection) (it : txiter)
    (modit : option CTxMemPoolModifiedEntry) (mi' : list txiter) :
  reaches_body s = true ->
  choose_candidate s = Some (it, modit, mi') ->
  it ∉ inBlock (asm s) ->
  packageFees_of it modit
    < FeeRate_GetFee (blockMinFeeRate (asm s)) (packageSize_of it modit) ->
  exists s',
    iterate (S fuel) s = Return s'
    /\ asm s' = asm s
    /\ mapModifiedTx s' = mapModifiedTx s
    /\ failedTx s' = failedTx s
    /\ nConsecutiveFailed s' = nConsecutiveFailed s
    /\ nPackagesSelected s' = nPackagesSelected s.
Proof.
  intros Hb Hc Hin Hfee.
  eexists. split.
  - apply iterate_stops; [|discriminate].
    rewrite (step_body s Hb). unfold body. rewrite Hc.
    rewrite evaluate_unfold. simpl.
    rewrite bool_decide_eq_false_2 by exact Hin.
    apply Z.ltb_lt in Hfee. rewrite Hfee. reflexivity.
  - repeat split; reflexivity.
Qed.

Lemma clamp_nBlockMaxWeight_range (options_nBlockMaxWeight : Z) :
  4000 <= clamp_nBlockMaxWeight options_nBlockMaxWeight < 2 ^ 32.
Proof.
  unfold clamp_nBlockMaxWeight.
  assert (Hd : 0 <= u32 (dgpMaxBlockWeight - 4000) < 2 ^ 32)
    by (apply Z.mod_pos_bound; reflexivity).
  assert (Ho : 0 <= u64 options_nBlockMaxWeight < 2 ^ 64)
    by (apply Z.mod_pos_bound; reflexivity).
  revert Hd Ho.
  generalize (u32 (dgpMaxBlockWeight - 4000)), (u64 options_nBlockMaxWeight).
  intros x y Hx Hy. rewrite u32_id; unfold fits_u32; lia.
Qed.

(** C8.  A pass ends in [break] exactly when its candidate fails the fit
    test, the failure raises [nConsecutiveFailed] above 1000 and
    [nBlockWeight > nBlockMaxWeight - 4000]; the loop then stops with the
    assembler as it was.  A pass that includes a package sets
    [nConsecutiveFailed] to 0.  Every failure of the fit test raises the
    counter by one, also when the pass does not break; a failure of the
    finality test and a pass that only skips an entry leave it as it is;
    none of these passes touches the assembler.  [nBlockMaxWeight] is in
    the range the constructor clamps it to. *)
Theorem addPackageTxs_break (fuel : nat) (s : Selection) :
  4000 <= nBlockMaxWeight (asm s) < 2 ^ 32 ->
  fits_s64 (nConsecutiveFailed s + 1) ->
  ((exists s', step s = Break s')
   <-> exists it modit mi',
        reaches_body s = true
        /\ choose_candidate s = Some (it, modit, mi')
        /\ (it ∉ inBlock (asm s))
        /\ FeeRate_GetFee (blockMinFeeRate (asm s)) (packageSize_of it modit)
           <= packageFees_of it modit
        /\ TestPackage (asm s) (packageSize_of it modit) (packageSigOpsCost_of it modit)
           = false
        /\ nConsecutiveFailed s + 1 > 1000
        /\ nBlockWeight (asm s) > nBlockMaxWeight (asm s) - 4000)
  /\ (forall s', step s = Break s' ->
        iterate (S fuel) s = Break s' /\ asm s' = asm s
        /\ nConsecutiveFailed s' = nConsecutiveFailed s + 1)
  /\ (forall it modit mi',
        reaches_body s = true ->
        choose_candidate s = Some (it, modit, mi') ->
        selected s it modit ->
        exists s', step s = Continue s' /\ nConsecutiveFailed s' = 0
                   /\ asm s' = fold_left AddToBlock
                                 (SortForBlock (package_of (asm s) it)) (asm s))
  /\ (forall it modit mi',
        reaches_body s = true ->
        choose_candidate s = Some (it, modit, mi') ->
        it ∉ inBlock (asm s) ->
        FeeRate_GetFee (blockMinFeeRate (asm s)) (packageSize_of it modit)
          <= packageFees_of it modit ->
        TestPackage (asm s) (packageSize_of it modit) (packageSigOpsCost_of it modit)
          = false ->
        ~ (nConsecutiveFailed s + 1 > 1000
           /\ nBlockWeight (asm s) > nBlockMaxWeight (asm s) - 4000) ->
        exists s', step s = Continue s'
                   /\ nConsecutiveFailed s' = nConsecutiveFailed s + 1
                   /\ asm s' = asm s)
  /\ (forall it modit mi',
        reaches_body s = true ->
        choose_candidate s = Some (it, modit, mi') ->
        it ∉ inBlock (asm s) ->
        FeeRate_GetFee (blockMinFeeRate (asm s)) (packageSize_of it modit)
          <= packageFees_of it modit ->
        TestPackage (asm s) (packageSize_of it modit) (packageSigOpsCost_of it modit)
          = true ->
        TestPackageTransactions (asm s) (package_of (asm s) it) = false ->
        exists s', step s = Continue s'
                   /\ nConsecutiveFailed s' = nConsecutiveFailed s
                   /\ asm s' = asm s)
  /\ (reaches_body s = false ->
      forall s', result_state (step s) = Some s' ->
                 nConsecutiveFailed s' = nConsecutiveFailed s /\ asm s' = asm s).
Proof.
  intros Hmax Hn.
  assert (Hu : u32 (nBlockMaxWeight (asm s) - 4000) = nBlockMaxWeight (asm s) - 4000).
  { apply u32_id. unfold fits_u32. lia. }
  assert (Hbreak : forall s', step s = Break s' ->
            exists it modit mi',
              reaches_body s = true
              /\ choose_candidate s = Some (it, modit, mi')
              /\ (it ∉ inBlock (asm s))
              /\ FeeRate_GetFee (blockMinFeeRate (asm s)) (packageSize_of it modit)
                 <= packageFees_of it modit
              /\ TestPackage (asm s) (packageSize_of it modit)
                   (packageSigOpsCost_of it modit) = false
              /\ nConsecutiveFailed s + 1 > 1000
              /\ nBlockWeight (asm s) > nBlockMaxWeight (asm s) - 4000
              /\ asm s' = asm s
              /\ nConsecutiveFailed s' = nConsecutiveFailed s + 1).
  { intros s' Hs.
    destruct (reaches_body s) eqn:Hb.
    2:{ destruct (step_skip s Hb) as [He | (it & rest & _ & He)];
          rewrite He in Hs; discriminate. }
    rewrite (step_body s Hb) in Hs. unfold body in Hs.
    destruct (choose_candidate s) as [[[it modit] mi']|] eqn:Hc; [|discriminate].
    rewrite evaluate_unfold in Hs. simpl in Hs.
    rewrite (s64_id _ Hn), Hu in Hs. unfold MAX_CONSECUTIVE_FAILURES in Hs.
    rewrite !Z.gtb_ltb in Hs.
    destruct (bool_decide (it ∈ inBlock (asm s))) eqn:Hin; [discriminate|].
    apply bool_decide_eq_false_1 in Hin.
    destruct (packageFees_of it modit <? _) eqn:Hfee; [discriminate|].
    apply Z.ltb_ge in Hfee.
    destruct (TestPackage _ _ _) eqn:Hfit; simpl in Hs.
    { destruct (negb _); discriminate. }
    destruct (1000 <? nConsecutiveFailed s + 1) eqn:Hcf; simpl in Hs; [|discriminate].
    destruct (_ <? nBlockWeight (asm s)) eqn:Hw; [|discriminate].
    apply Z.ltb_lt in Hcf, Hw.
    injection Hs as <-.
    exists it, modit, mi'. repeat split; try assumption; try reflexivity; lia. }
  split; [split|split; [|split; [|split; [|split]]]].
  - intros [s' Hs]. destruct (Hbreak s' Hs) as (it & modit & mi' & Hrest).
    exists it, modit, mi'. tauto.
  - intros (it & modit & mi' & Hb & Hc & Hin & Hfee & Hfit & Hcf & Hw).
    rewrite (step_body s Hb). unfold body. rewrite Hc.
    rewrite evaluate_unfold. simpl.
    rewrite (s64_id _ Hn), Hu. unfold MAX_CONSECUTIVE_FAILURES.
    rewrite bool_decide_eq_false_2 by exact Hin.
    apply Z.ltb_ge in Hfee. rewrite Hfee, Hfit. simpl.
    rewrite !Z.gtb_ltb.
    rewrite (proj2 (Z.ltb_lt 1000 _)) by lia.
    rewrite (proj2 (Z.ltb_lt _ (nBlockWeight (asm s)))) by lia.
    simpl. eexists. reflexivity.
  - intros s' Hs. split; [apply iterate_stops; [exact Hs | discriminate]|].
    destruct (Hbreak s' Hs) as (it & modit & mi' & Hrest). tauto.
  - intros it modit mi' Hb Hc (Hin & Hfee & Hfit & Hfinal).
    rewrite (step_body s Hb). unfold body. rewrite Hc.
    rewrite evaluate_unfold. simpl.
    rewrite bool_decide_eq_false_2 by exact Hin.
    apply Z.ltb_ge in Hfee. rewrite Hfee, Hfit, Hfinal. simpl.
    eexists. split; [reflexivity|]. split; reflexivity.
  - intros it modit mi' Hb Hc Hin Hfee Hfit Hnot.
    rewrite (step_body s Hb). unfold body. rewrite Hc.
    rewrite evaluate_unfold. simpl.
    rewrite (s64_id _ Hn), Hu. unfold MAX_CONSECUTIVE_FAILURES.
    rewrite bool_decide_eq_false_2 by exact Hin.
    apply Z.ltb_ge in Hfee. rewrite Hfee, Hfit. simpl.
    rewrite !Z.gtb_ltb.
    destruct (1000 <? nConsecutiveFailed s + 1) eqn:Hcf;
      destruct (nBlockMaxWeight (asm s) - 4000 <? nBlockWeight (asm s)) eqn:Hw;
      simpl;
      try (eexists; split; [reflexivity|]; split; reflexivity).
    apply Z.ltb_lt in Hcf, Hw. exfalso. apply Hnot. lia.
  - intros it modit mi' Hb Hc Hin Hfee Hfit Hfinal.
    rewrite (step_body s Hb). unfold body. rewrite Hc.
    rewrite evaluate_unfold. simpl.
    rewrite bool_decide_eq_false_2 by exact Hin.
    apply Z.ltb_ge in Hfee. rewrite Hfee, Hfit, Hfinal. simpl.
    eexists. split; [reflexivity|]. split; reflexivity.
  - intros Hb s' Hs.
    destruct (step_skip s Hb) as [He | (it & rest & _ & He)];
      rewrite He in Hs; injection Hs as <-; split; reflexivity.
Qed.

(** *** The overlay after an inclusion *)

Lemma overlay_find_erase_eq x m : overlay_find (overlay_erase x m) x = None.
Proof.
  unfold overlay_find, overlay_erase.
  induction m as [|e m IH]; [reflexivity|].
  simpl. destruct (iter e =? x)%N eqn:E; simpl; [exact IH|].
  rewrite E. exact IH.
Qed.

Lemma overlay_find_erase_None x y m :
  overlay_find m y = None -> overlay_find (overlay_erase x m) y = None.
Proof.
  unfold overlay_find, overlay_erase.
  induction m as [|e m IH]; [reflexivity|].
  simpl. destruct (iter e =? y)%N eqn:E; [discriminate|].
  intros Hm. destruct (negb (iter e =? x)%N); simpl; [rewrite E|]; exact (IH Hm).
Qed.

Lemma overlay_find_place_ne e m x :
  iter e <> x -> overlay_find (overlay_place e m) x = overlay_find m x.
Proof.
  intros Hne. apply N.eqb_neq in Hne.
  unfold overlay_find.
  induction m as [|y m IH]; simpl; [rewrite Hne; reflexivity|].
  destruct (CompareModifiedEntry e y); simpl; [rewrite Hne; reflexivity|].
  destruct (iter y =? x)%N; [reflexivity | exact IH].
Qed.

Lemma overlay_find_insert_ne e m x :
  iter e <> x -> overlay_find (overlay_insert e m) x = overlay_find m x.
Proof.
  intros Hne. unfold overlay_insert.
  destruct (overlay_count m (iter e)); [reflexivity|].
  apply overlay_find_place_ne. exact Hne.
Qed.

Lemma overlay_find_Some_iter m x e : overlay_find m x = Some e -> iter e = x.
Proof.
  unfold overlay_find. intros Hf. apply find_some in Hf as [_ He].
  apply N.eqb_eq. exact He.
Qed.

Lemma overlay_count_false m x : overlay_count m x = false <-> overlay_find m x = None.
Proof.
  unfold overlay_count. rewrite bool_decide_eq_false.
  destruct (overlay_find m x); split; intros Hx; try reflexivity; try discriminate.
  - exfalso. apply Hx. eexists. reflexivity.
  - intros [? ?]. discriminate.
Qed.

Lemma fold_left_invariant {A B} (P : A -> Prop) (f : A -> B -> A) (l : list B) :
  (forall acc y, P acc -> P (f acc y)) -> forall acc, P acc -> P (fold_left f l acc).
Proof.
  intros Hstep. induction l as [|y l IH]; intros acc Hacc; [exact Hacc|].
  simpl. apply IH, Hstep, Hacc.
Qed.

Lemma fold_erase_absent l : forall m x,
  x ∈ l -> overlay_find (fold_left (λ m y, overlay_erase y m) l m) x = None.
Proof.
  induction l as [|z l IH]; intros m x Hx; [inversion Hx|].
  simpl. apply elem_of_cons in Hx as [-> | Hx]; [|apply IH; exact Hx].
  apply (fold_left_invariant (λ m, overlay_find m z = None)).
  - intros acc y. apply overlay_find_erase_None.
  - apply overlay_find_erase_eq.
Qed.

Lemma update_descendant_absent alreadyAdded it acc desc x :
  x ∈ alreadyAdded ->
  overlay_find acc.2 x = None ->
  overlay_find (update_descendant alreadyAdded it acc desc).2 x = None.
Proof.
  intros Hx Hacc. unfold update_descendant.
  destruct (bool_decide (desc ∈ alreadyAdded)) eqn:Hd; [exact Hacc|].
  apply bool_decide_eq_false_1 in Hd.
  assert (Hne : desc <> x) by (intros ->; contradiction).
  destruct acc as [n m]. simpl in Hacc.
  destruct (overlay_find m desc) as [mit|] eqn:Hf; simpl.
  - apply overlay_find_Some_iter in Hf.
    rewrite overlay_find_place_ne by (simpl; congruence).
    apply overlay_find_erase_None. exact Hacc.
  - rewrite overlay_find_insert_ne by (simpl; exact Hne). exact Hacc.
Qed.

Lemma UpdatePackagesForAdded_absent alreadyAdded m x :
  x ∈ alreadyAdded ->
  overlay_find m x = None ->
  overlay_find (UpdatePackagesForAdded alreadyAdded m).2 x = None.
Proof.
  intros Hx Hm. unfold UpdatePackagesForAdded.
  apply (fold_left_invariant (λ acc : Z * overlay, overlay_find acc.2 x = None));
    [|exact Hm].
  intros acc it Hacc.
  apply (fold_left_invariant (λ acc : Z * overlay, overlay_find acc.2 x = None));
    [|exact Hacc].
  intros acc' desc. apply update_descendant_absent. exact Hx.
Qed.

(** *** SortForBlock *)

Lemma setEntries_iterate_perm (P : gset txiter) : setEntries_iterate P ≡ₚ elements P.
Proof. unfold setEntries_iterate. apply merge_sort_Permutation. Qed.

Lemma SortForBlock_perm (P : gset txiter) : SortForBlock P ≡ₚ elements P.
Proof.
  unfold SortForBlock. rewrite merge_sort_Permutation. apply setEntries_iterate_perm.
Qed.

Lemma elem_of_SortForBlock (P : gset txiter) x : x ∈ SortForBlock P <-> x ∈ P.
Proof. rewrite SortForBlock_perm. apply elem_of_elements. Qed.

(** C4, as the code has it.  A pass that selects a package includes every
    entry of the package through [AddToBlock], in [SortForBlock] order and
    whether or not the transaction carries contract opcodes: the selection
    loop has no call of [AttemptToAddContractToBlock].  Afterwards no entry
    of the package is in the overlay, and [nPackagesSelected] has grown by
    one. *)
Theorem addPackageTxs_includes_by_AddToBlock (s : Selection) (it : txiter)
    (modit : option CTxMemPoolModifiedEntry) (mi' : list txiter) :
  reaches_body s = true ->
  choose_candidate s = Some (it, modit, mi') ->
  selected s it modit ->
  exists s',
    step s = Continue s'
    /\ SortForBlock (package_of (asm s) it) ≡ₚ elements (package_of (asm s) it)
    /\ (asm s', fold_left (λ m x, overlay_erase x m)
                  (SortForBlock (package_of (asm s) it)) (mapModifiedTx s))
       = fold_left include_entry (SortForBlock (package_of (asm s) it))
           (asm s, mapModifiedTx s)
    /\ asm s' = fold_left AddToBlock (SortForBlock (package_of (asm s) it)) (asm s)
    /\ (forall x, x ∈ package_of (asm s) it -> overlay_count (mapModifiedTx s') x = false)
    /\ nPackagesSelected s' = s32 (nPackagesSelected s + 1).
Proof.
  intros Hb Hc (Hin & Hfee & Hfit & Hfinal).
  exists (included s it mi'). split.
  - rewrite (step_body s Hb). unfold body. rewrite Hc.
    rewrite evaluate_unfold. simpl.
    rewrite bool_decide_eq_false_2 by exact Hin.
    apply Z.ltb_ge in Hfee. rewrite Hfee, Hfit, Hfinal. reflexivity.
  - split; [apply SortForBlock_perm|].
    split; [rewrite fold_include_entry; reflexivity|].
    split; [reflexivity|].
    split; [|reflexivity].
    intros x Hx. apply overlay_count_false. simpl.
    apply UpdatePackagesForAdded_absent; [exact Hx|].
    apply fold_erase_absent. apply elem_of_SortForBlock. exact Hx.
Qed.

(** *** Ancestors come first *)

Lemma not_after_spec (a b : txiter) :
  not_after a b
  <-> GetCountWithAncestors (entry a) < GetCountWithAncestors (entry b)
      \/ (GetCountWithAncestors (entry a) = GetCountWithAncestors (entry b)
          /\ (a <= b)%N).
Proof.
  unfold not_after, CompareTxIterByAncestorCount.
  destruct (GetCountWithAncestors (entry b) =? GetCountWithAncestors (entry a)) eqn:E;
    simpl.
  - apply Z.eqb_eq in E. rewrite N.ltb_ge. lia.
  - apply Z.eqb_neq in E. rewrite Z.ltb_ge. lia.
Qed.

Lemma not_after_total (a b : txiter) : not_after a b \/ not_after b a.
Proof. rewrite !not_after_spec. lia. Qed.

Lemma not_after_trans (a b c : txiter) : not_after a b -> not_after b c -> not_after a c.
Proof. rewrite !not_after_spec. lia. Qed.

Lemma SortForBlock_sorted (P : gset txiter) : StronglySorted not_after (SortForBlock P).
Proof.
  unfold SortForBlock.
  apply (@StronglySorted_merge_sort _ not_after _ not_after_trans not_after_total).
Qed.

Lemma StronglySorted_lookup_lt {A} (R : relation A) (l : list A) (i j : nat) x y :
  StronglySorted R l -> l !! i = Some x -> l !! j = Some y -> (i < j)%nat -> R x y.
Proof.
  intros Hs Hi Hj Hlt.
  rewrite <- (take_drop j l) in Hs.
  apply (StronglySorted_app_1_elem_of _ _ _ _ _ Hs).
  - apply list_elem_of_lookup. exists i. rewrite lookup_take_lt by exact Hlt. exact Hi.
  - apply list_elem_of_lookup. exists 0%nat. rewrite lookup_drop.
    rewrite Nat.add_0_r. exact Hj.
Qed.

(** In the sorted package, a smaller ancestor count means an earlier slot. *)
Lemma SortForBlock_count_order (P : gset txiter) (i j : nat) (x y : txiter) :
  SortForBlock P !! i = Some x ->
  SortForBlock P !! j = Some y ->
  GetCountWithAncestors (entry x) < GetCountWithAncestors (entry y) ->
  (i < j)%nat.
Proof.
  intros Hi Hj Hlt.
  destruct (Nat.lt_trichotomy i j) as [Hij | [-> | Hji]]; [exact Hij | |].
  - rewrite Hi in Hj. injection Hj as ->. lia.
  - pose proof (StronglySorted_lookup_lt _ _ _ _ _ _ (SortForBlock_sorted P) Hj Hi Hji)
      as Hyx.
    apply not_after_spec in Hyx. lia.
Qed.

Lemma block_vtx_AddToBlock a it : block_vtx (AddToBlock a it) = block_vtx a ++ [tx_ref it].
Proof. reflexivity. Qed.

Lemma inBlock_AddToBlock a it : inBlock (AddToBlock a it) = {[it]} ∪ inBlock a.
Proof. reflexivity. Qed.

Lemma fold_AddToBlock l : forall a,
  block_vtx (fold_left AddToBlock l a) = block_vtx a ++ map tx_ref l
  /\ inBlock (fold_left AddToBlock l a) = list_to_set l ∪ inBlock a.
Proof.
  induction l as [|x l IH]; intros a.
  - simpl. rewrite app_nil_r. split; [reflexivity|].
    rewrite (left_id_L ∅ (∪)). reflexivity.
  - simpl. destruct (IH (AddToBlock a x)) as [-> ->].
    rewrite block_vtx_AddToBlock, inBlock_AddToBlock, <- app_assoc.
    split; [reflexivity|].
    rewrite (assoc_L (∪)), (comm_L (∪) (list_to_set l)). reflexivity.
Qed.

Lemma elem_of_package_of a it x :
  x ∈ package_of a it <-> x = it \/ (x ∈ CalculateMemPoolAncestors it /\ x ∉ inBlock a).
Proof.
  unfold package_of, onlyUnconfirmed.
  rewrite elem_of_union, elem_of_singleton, elem_of_filter. tauto.
Qed.

(** Including a package keeps the block in ancestor order. *)
Lemma included_in_order a0 s it mi' order :
  consistent_ancestors ->
  appended_in_order a0 (asm s) order ->
  it ∉ inBlock (asm s) ->
  appended_in_order a0 (asm (included s it mi'))
    (order ++ SortForBlock (package_of (asm s) it)).
Proof.
  intros [Htrans Hcount] [Hvtx Hnd Hin Hanc] Hit.
  set (P := package_of (asm s) it).
  destruct (fold_AddToBlock (SortForBlock P) (asm s)) as [Hv Hi].
  split.
  - simpl. fold P. rewrite Hv, Hvtx, map_app, app_assoc. reflexivity.
  - apply NoDup_app. split; [exact Hnd|]. split.
    + intros x Hx Hx'. apply Hin in Hx.
      apply elem_of_SortForBlock, elem_of_package_of in Hx' as [-> | [_ Hx']];
        contradiction.
    + rewrite SortForBlock_perm. apply NoDup_elements.
  - intros x. simpl. fold P. rewrite Hi, elem_of_app, elem_of_union, elem_of_list_to_set.
    rewrite Hin. tauto.
  - intros i T A Hi' HA.
    destruct (decide (i < length order)%nat) as [Hlt | Hge].
    + rewrite lookup_app_l in Hi' by exact Hlt.
      destruct (Hanc i T A Hi' HA) as (j & Hj & HjA).
      exists j. split; [exact Hj|].
      rewrite lookup_app_l by lia. exact HjA.
    + rewrite lookup_app_r in Hi' by lia.
      assert (HT : T ∈ P) by (apply elem_of_SortForBlock, list_elem_of_lookup; eauto).
      assert (HAit : A ∈ CalculateMemPoolAncestors it).
      { apply elem_of_package_of in HT as [-> | [HT _]]; [exact HA|].
        eapply Htrans; eassumption. }
      destruct (decide (A ∈ inBlock (asm s))) as [HAin | HAout].
      * apply Hin, list_elem_of_lookup in HAin as [j Hj].
        exists j. split; [apply lookup_lt_Some in Hj; lia|].
        rewrite lookup_app_l by (apply lookup_lt_Some in Hj; exact Hj). exact Hj.
      * assert (HAP : A ∈ SortForBlock P).
        { apply elem_of_SortForBlock, elem_of_package_of. right. split; assumption. }
        apply list_elem_of_lookup in HAP as [k Hk].
        pose proof (SortForBlock_count_order P k (i - length order) A T Hk Hi'
                      (Hcount T A HA)) as Hki.
        exists (length order + k)%nat. split; [lia|].
        rewrite lookup_app_r by lia.
        replace (length order + k - length order)%nat with k by lia. exact Hk.
Qed.

Lemma step_in_order a0 s order s' :
  consistent_ancestors ->
  appended_in_order a0 (asm s) order ->
  result_state (step s) = Some s' ->
  exists order', appended_in_order a0 (asm s') order'.
Proof.
  intros Hcons Hinv Hs.
  destruct (reaches_body s) eqn:Hb.
  2:{ destruct (step_skip s Hb) as [He | (it & rest & _ & He)];
        rewrite He in Hs; injection Hs as <-; exists order; exact Hinv. }
  rewrite (step_body s Hb) in Hs. unfold body in Hs.
  destruct (choose_candidate s) as [[[it modit] mi']|]; [|discriminate].
  rewrite evaluate_unfold in Hs. simpl in Hs.
  destruct (bool_decide (it ∈ inBlock (asm s))) eqn:Hin; [discriminate|].
  apply bool_decide_eq_false_1 in Hin.
  destruct (packageFees_of it modit <? _).
  { injection Hs as <-. exists order. exact Hinv. }
  destruct (negb (TestPackage _ _ _)).
  { destruct (_ && _); injection Hs as <-; exists order; exact Hinv. }
  destruct (negb (TestPackageTransactions _ _)).
  { injection Hs as <-. exists order. exact Hinv. }
  injection Hs as <-. eexists. apply included_in_order; eassumption.
Qed.

Lemma iterate_in_order a0 fuel : forall s order s',
  consistent_ancestors ->
  appended_in_order a0 (asm s) order ->
  result_state (iterate fuel s) = Some s' ->
  exists order', appended_in_order a0 (asm s') order'.
Proof.
  induction fuel as [|fuel IH]; intros s order s' Hcons Hinv Hr.
  - injection Hr as <-. exists order. exact Hinv.
  - simpl in Hr. destruct (step s) as [s1| | | |] eqn:Hstep;
      try (eapply step_in_order; [exact Hcons | exact Hinv | rewrite Hstep; exact Hr]).
    destruct (step_in_order a0 s order s1 Hcons Hinv) as [order1 Hinv1];
      [rewrite Hstep; reflexivity|].
    exact (IH s1 order1 s' Hcons Hinv1 Hr).
Qed.

(** C2.  Run [addPackageTxs] on an assembler whose [inBlock] is empty, for
    any number of passes.  The entries appended to the block so far form a
    sequence without repetition, which is exactly [inBlock]; the block's
    transaction list is the list at entry followed by their transactions in
    that order; and every in-mempool ancestor of an appended entry is in
    [inBlock] and sits at a strictly earlier position.  The mempool's
    ancestor sets are transitively closed and ancestor counts grow along
    them. *)
Theorem addPackageTxs_ancestors_first (fuel : nat) (a : BlockAssembler)
    (nPackagesSelected0 nDescendantsUpdated0 : Z) (s' : Selection) :
  consistent_ancestors ->
  inBlock a = ∅ ->
  result_state (addPackageTxs fuel a nPackagesSelected0 nDescendantsUpdated0) = Some s' ->
  exists order : list txiter,
    block_vtx (asm s') = block_vtx a ++ map tx_ref order
    /\ NoDup order
    /\ (forall it, it ∈ inBlock (asm s') <-> it ∈ order)
    /\ size (inBlock (asm s')) = length order
    /\ forall i T A,
        order !! i = Some T ->
        A ∈ CalculateMemPoolAncestors T ->
        A ∈ inBlock (asm s')
        /\ exists j, (j < i)%nat /\ order !! j = Some A
                     /\ block_vtx (asm s') !! (length (block_vtx a) + j)%nat
                        = Some (tx_ref A)
                     /\ block_vtx (asm s') !! (length (block_vtx a) + i)%nat
                        = Some (tx_ref T).
Proof.
  intros Hcons Hempty Hr. unfold addPackageTxs in Hr.
  assert (Hinit : appended_in_order a (asm (enter a nPackagesSelected0 nDescendantsUpdated0)) []).
  { split.
    - simpl. rewrite app_nil_r. reflexivity.
    - constructor.
    - intros it. simpl. rewrite Hempty. split; intros Hx.
      + apply elem_of_empty in Hx. contradiction.
      + inversion Hx.
    - intros i T A Hi. rewrite lookup_nil in Hi. discriminate. }
  destruct (iterate_in_order a fuel _ [] s' Hcons Hinit Hr) as [order [Hvtx Hnd Hin Hanc]].
  exists order. split; [exact Hvtx|]. split; [exact Hnd|]. split; [exact Hin|].
  split.
  { rewrite <- (size_list_to_set (C := gset txiter) order Hnd).
    f_equal. apply set_eq. intros x. rewrite elem_of_list_to_set. apply Hin. }
  intros i T A Hi HA.
  destruct (Hanc i T A Hi HA) as (j & Hj & HjA).
  split; [apply Hin, list_elem_of_lookup; eauto|].
  exists j. split; [exact Hj|]. split; [exact HjA|].
  rewrite Hvtx, !lookup_app_r by lia.
  replace (length (block_vtx a) + j - length (block_vtx a))%nat with j by lia.
  replace (length (block_vtx a) + i - length (block_vtx a))%nat with i by lia.
  rewrite !list_lookup_fmap, HjA, Hi. split; reflexivity.
Qed.

(** *** The assertion of line 568 holds *)

Lemma elem_of_overlay_erase e x m :
  e ∈ overlay_erase x m <-> e ∈ m /\ iter e <> x.
Proof.
  unfold overlay_erase. rewrite !list_elem_of_In, filter_In.
  rewrite negb_true_iff, N.eqb_neq. tauto.
Qed.

Lemma elem_of_overlay_place e' e m : e' ∈ overlay_place e m <-> e' = e \/ e' ∈ m.
Proof.
  induction m as [|x m IH]; simpl.
  - rewrite elem_of_cons. tauto.
  - destruct (CompareModifiedEntry e x).
    + rewrite elem_of_cons. tauto.
    + rewrite !elem_of_cons, IH. tauto.
Qed.

Lemma elem_of_overlay_insert e' e m : e' ∈ overlay_insert e m -> e' = e \/ e' ∈ m.
Proof.
  unfold overlay_insert. destruct (overlay_count m (iter e)); [tauto|].
  apply elem_of_overlay_place.
Qed.

Lemma elem_of_fold_erase l : forall m e,
  e ∈ fold_left (λ m y, overlay_erase y m) l m -> e ∈ m /\ iter e ∉ l.
Proof.
  induction l as [|x l IH]; intros m e He; simpl in He.
  - split; [exact He | apply not_elem_of_nil].
  - apply IH in He as [He Hl]. apply elem_of_overlay_erase in He as [He Hx].
    split; [exact He|]. rewrite elem_of_cons. tauto.
Qed.

Lemma fold_left_invariant_in {A B} (P : A -> Prop) (f : A -> B -> A) (l : list B) :
  (forall acc y, y ∈ l -> P acc -> P (f acc y)) -> forall acc, P acc -> P (fold_left f l acc).
Proof.
  induction l as [|y l IH]; intros Hstep acc Hacc; [exact Hacc|].
  simpl. apply IH.
  - intros acc' y' Hy'. apply Hstep. apply elem_of_cons. right. exact Hy'.
  - apply Hstep; [apply elem_of_cons; left; reflexivity | exact Hacc].
Qed.

Lemma elem_of_setEntries_iterate (P : gset txiter) x : x ∈ setEntries_iterate P <-> x ∈ P.
Proof. rewrite setEntries_iterate_perm. apply elem_of_elements. Qed.

Lemma overlay_head_elem (m : overlay) e : head m = Some e -> e ∈ m.
Proof. destruct m; intros Hh; [discriminate|]. injection Hh as ->. apply elem_of_cons. tauto. Qed.

(** The records [UpdatePackagesForAdded] leaves are for entries outside the
    package and outside the block. *)
Lemma UpdatePackagesForAdded_outside (a : BlockAssembler) (P : gset txiter) (m : overlay) :
  consistent_descendants ->
  (forall T A, T ∈ inBlock a -> A ∈ CalculateMemPoolAncestors T -> A ∈ inBlock a) ->
  (forall x, x ∈ P -> x ∉ inBlock a) ->
  (forall e, e ∈ m -> (iter e ∉ P) /\ (iter e ∉ inBlock a)) ->
  forall e, e ∈ (UpdatePackagesForAdded P m).2 -> (iter e ∉ P) /\ (iter e ∉ inBlock a).
Proof.
  intros Hdesc Hclosed HP Hm. unfold UpdatePackagesForAdded.
  apply (fold_left_invariant_in
           (λ acc : Z * overlay, forall e, e ∈ acc.2 -> (iter e ∉ P) /\ (iter e ∉ inBlock a)));
    [|exact Hm].
  intros acc it Hit Hacc. apply elem_of_setEntries_iterate in Hit.
  apply (fold_left_invariant_in
           (λ acc : Z * overlay, forall e, e ∈ acc.2 -> (iter e ∉ P) /\ (iter e ∉ inBlock a)));
    [|exact Hacc].
  clear acc Hacc. intros [n m'] desc Hd Hacc e. simpl in Hacc.
  apply elem_of_setEntries_iterate in Hd.
  unfold update_descendant.
  destruct (bool_decide (desc ∈ P)) eqn:HdP; [apply Hacc|].
  apply bool_decide_eq_false_1 in HdP.
  assert (Hout : desc ∉ inBlock a).
  { intros Hin. apply (HP it Hit). apply (Hclosed desc it Hin).
    apply Hdesc; [exact Hd|]. intros ->. contradiction. }
  destruct (overlay_find m' desc) as [mit|] eqn:Hf; simpl.
  - apply overlay_find_Some_iter in Hf. intros He.
    apply elem_of_overlay_place in He as [-> | He].
    + simpl. rewrite Hf. split; assumption.
    + apply elem_of_overlay_erase in He as [He _]. apply Hacc. exact He.
  - intros He. apply elem_of_overlay_insert in He as [-> | He].
    + simpl. split; assumption.
    + apply Hacc. exact He.
Qed.

Lemma appended_closed a0 a order :
  appended_in_order a0 a order ->
  forall T A, T ∈ inBlock a -> A ∈ CalculateMemPoolAncestors T -> A ∈ inBlock a.
Proof.
  intros [_ _ Hin Hanc] T A HT HA.
  apply Hin, list_elem_of_lookup in HT as [i Hi].
  destruct (Hanc i T A Hi HA) as (j & _ & Hj).
  apply Hin, list_elem_of_lookup. eauto.
Qed.

Lemma drop_failed_subset b it s e :
  e ∈ (drop_failed b it s).1 -> e ∈ mapModifiedTx s.
Proof.
  unfold drop_failed. destruct b; simpl; [|tauto].
  intros He. apply elem_of_overlay_erase in He. tauto.
Qed.

(** One pass passes its assertion and hands on an overlay that is outside
    the block. *)
Lemma step_safe a0 s order :
  consistent_descendants ->
  appended_in_order a0 (asm s) order ->
  overlay_outside_block s ->
  step s <> AssertFail
  /\ forall s', result_state (step s) = Some s' -> overlay_outside_block s'.
Proof.
  intros Hdesc Hinv Hov.
  destruct (reaches_body s) eqn:Hb.
  2:{ destruct (step_skip s Hb) as [He | (it & rest & _ & He)]; rewrite He;
        (split; [discriminate | intros s' Hs; injection Hs as <-; exact Hov]). }
  rewrite (step_body s Hb). unfold body.
  assert (Hcand : exists it modit mi',
             choose_candidate s = Some (it, modit, mi') /\ it ∉ inBlock (asm s)).
  { unfold reaches_body, stale in Hb. unfold choose_candidate.
    destruct (mi s) as [|it rest].
    - destruct (mapModifiedTx s) as [|m ms] eqn:Hm; [discriminate|]. simpl.
      eexists _, _, _. split; [reflexivity|].
      apply Hov. rewrite Hm. apply elem_of_cons. left. reflexivity.
    - apply negb_true_iff in Hb.
      apply orb_false_iff in Hb as [Hb _]. apply orb_false_iff in Hb as [_ Hb].
      apply bool_decide_eq_false_1 in Hb.
      destruct (head (mapModifiedTx s)) as [m|] eqn:Hh.
      + destruct (CompareModifiedEntry m (modified_of it)).
        * eexists _, _, _. split; [reflexivity|].
          apply Hov, overlay_head_elem. exact Hh.
        * eexists _, _, _. split; [reflexivity | exact Hb].
      + eexists _, _, _. split; [reflexivity | exact Hb]. }
  destruct Hcand as (it & modit & mi' & -> & Hin).
  rewrite evaluate_unfold. simpl.
  rewrite bool_decide_eq_false_2 by exact Hin.
  assert (Hkeep : forall n, overlay_outside_block
                    (with_locals s mi' (drop_failed (bool_decide (is_Some modit)) it s).1
                       (drop_failed (bool_decide (is_Some modit)) it s).2 n)).
  { intros n e He. simpl in He. apply drop_failed_subset in He. apply Hov. exact He. }
  destruct (packageFees_of it modit <? _).
  { split; [discriminate|]. intros s' Hs. injection Hs as <-. exact Hov. }
  destruct (negb (TestPackage _ _ _)).
  { destruct (_ && _); (split; [discriminate|]); intros s' Hs; injection Hs as <-;
      apply Hkeep. }
  destruct (negb (TestPackageTransactions _ _)).
  { split; [discriminate|]. intros s' Hs. injection Hs as <-. apply Hkeep. }
  split; [discriminate|]. intros s' Hs. injection Hs as <-.
  intros e He. simpl in He. simpl.
  destruct (fold_AddToBlock (SortForBlock (package_of (asm s) it)) (asm s)) as [_ ->].
  assert (HP : forall x, x ∈ package_of (asm s) it -> x ∉ inBlock (asm s)).
  { intros x Hx. apply elem_of_package_of in Hx as [-> | [_ Hx]]; assumption. }
  assert (Hm : forall e',
             e' ∈ fold_left (λ m x, overlay_erase x m)
                    (SortForBlock (package_of (asm s) it)) (mapModifiedTx s) ->
             (iter e' ∉ package_of (asm s) it) /\ (iter e' ∉ inBlock (asm s))).
  { intros e' He'. apply elem_of_fold_erase in He' as [He' Hs'].
    split; [rewrite <- elem_of_SortForBlock; exact Hs' | apply Hov; exact He']. }
  destruct (UpdatePackagesForAdded_outside (asm s) (package_of (asm s) it) _
              Hdesc (appended_closed a0 (asm s) order Hinv) HP Hm e He) as [HeP Heb].
  rewrite elem_of_union, elem_of_list_to_set, elem_of_SortForBlock. tauto.
Qed.

(** From [enter] on, no pass fails the assertion. *)
Lemma iterate_safe a0 fuel : forall s order,
  consistent_ancestors -> consistent_descendants ->
  appended_in_order a0 (asm s) order ->
  overlay_outside_block s ->
  iterate fuel s <> AssertFail.
Proof.
  induction fuel as [|fuel IH]; intros s order Hanc Hdesc Hinv Hov; [discriminate|].
  simpl. destruct (step_safe a0 s order Hdesc Hinv Hov) as [Hne Hnext].
  destruct (step s) as [s1| | | |] eqn:Hstep; try discriminate; [|contradiction].
  destruct (step_in_order a0 s order s1 Hanc Hinv) as [order1 Hinv1];
    [rewrite Hstep; reflexivity|].
  apply (IH s1 order1 Hanc Hdesc Hinv1). apply Hnext. reflexivity.
Qed.

Lemma addPackageTxs_assertion_holds (fuel : nat) (a : BlockAssembler)
    (nPackagesSelected0 nDescendantsUpdated0 : Z) :
  consistent_ancestors -> consistent_descendants ->
  inBlock a = ∅ ->
  addPackageTxs fuel a nPackagesSelected0 nDescendantsUpdated0 <> AssertFail.
Proof.
  intros Hanc Hdesc Hempty. unfold addPackageTxs.
  apply (iterate_safe a fuel _ [] Hanc Hdesc).
  - split.
    + simpl. rewrite app_nil_r. reflexivity.
    + constructor.
    + intros it. simpl. rewrite Hempty. split; intros Hx.
      * apply elem_of_empty in Hx. contradiction.
      * inversion Hx.
    + intros i T A Hi. rewrite lookup_nil in Hi. discriminate.
  - intros e He. simpl in He. inversion He.
Qed.
End WithCollaborators.

Section OnTheSample.
#[local] Existing Instance Sample.chain.
#[local] Existing Instance Sample.mempool.
#[local] Existing Instance Sample.vm.

Lemma addPackageTxs_fee_rate_exit_witness :
  let s := Sample.s_low_fee in
  (reaches_body s = true
   /\ choose_candidate s = Some (4%N, None, [])
   /\ (4%N ∉ inBlock (asm s))
   /\ packageFees_of 4%N None
      < FeeRate_GetFee (blockMinFeeRate (asm s)) (packageSize_of 4%N None))
  /\ exists s',
      iterate 5 s = Return s'
      /\ asm s' = asm s
      /\ mapModifiedTx s' = mapModifiedTx s
      /\ failedTx s' = failedTx s
      /\ nConsecutiveFailed s' = nConsecutiveFailed s
      /\ nPackagesSelected s' = nPackagesSelected s.
Proof.
  intros s.
  assert (H1 : reaches_body s = true) by (vm_compute; reflexivity).
  assert (H2 : choose_candidate s = Some (4%N, None, [])) by (vm_compute; reflexivity).
  assert (H3 : 4%N ∉ inBlock (asm s)).
  { apply (bool_decide_eq_false_1 (4%N ∈ inBlock (asm s))). vm_compute. reflexivity. }
  assert (H4 : packageFees_of 4%N None
               < FeeRate_GetFee (blockMinFeeRate (asm s)) (packageSize_of 4%N None))
    by (vm_compute; reflexivity).
  split; [exact (conj H1 (conj H2 (conj H3 H4)))|].
  exact (addPackageTxs_fee_rate_exit 4 s 4%N None [] H1 H2 H3 H4).
Defined.

(** The nearly full example does break, on its 1001st failure in a row. *)
Example s_nearly_full_breaks :
  exists s', step Sample.s_nearly_full = Break s'
             /\ nConsecutiveFailed s' = 1001
             /\ asm s' = asm Sample.s_nearly_full.
Proof. eexists. split; [vm_compute; reflexivity|]. split; reflexivity. Qed.

(** C4 as stated fails.  In the example's third pass the selected package
    is entry 3 alone, whose transaction carries OP_CALL.  Included the way
    the claim says, through [AttemptToAddContractToBlock], it would run the
    VM and leave 60 gas accounted in [bceResult]; the pass includes it
    through [AddToBlock] and accounts none. *)
Lemma include_entry_not_as_specified :
  let s := Sample.s_contract in
  HasCreateOrCall (GetSharedTx (entry 3%N)) = true
  /\ choose_candidate s = Some (3%N, None, [4%N])
  /\ SortForBlock (package_of (asm s) 3%N) = [3%N]
  /\ exists s' a' m',
      step s = Continue s'
      /\ include_entry_specified Sample.ambient true Sample.gs0 40
           (asm s, mapModifiedTx s) 3%N = Some (a', m')
      /\ usedGas (bceResult a') = 60
      /\ usedGas (bceResult (asm s')) = 0
      /\ asm s' <> a'.
Proof.
  intros s.
  split; [vm_compute; reflexivity|].
  split; [vm_compute; reflexivity|].
  split; [vm_compute; reflexivity|].
  eexists _, _, _.
  split; [vm_compute; reflexivity|].
  split; [vm_compute; reflexivity|].
  split; [reflexivity|].
  split; [reflexivity|].
  intros Heq. apply (f_equal (λ a, usedGas (bceResult a))) in Heq.
  vm_compute in Heq. discriminate.
Qed.

Lemma addPackageTxs_includes_by_AddToBlock_witness :
  let s := Sample.after 0 in
  let modit : option CTxMemPoolModifiedEntry := None in
  (reaches_body s = true
   /\ choose_candidate s = Some (2%N, modit, [1%N; 3%N; 4%N])
   /\ selected s 2%N modit)
  /\ exists s',
      step s = Continue s'
      /\ SortForBlock (package_of (asm s) 2%N) ≡ₚ elements (package_of (asm s) 2%N)
      /\ (asm s', fold_left (λ m x, overlay_erase x m)
                    (SortForBlock (package_of (asm s) 2%N)) (mapModifiedTx s))
         = fold_left include_entry (SortForBlock (package_of (asm s) 2%N))
             (asm s, mapModifiedTx s)
      /\ asm s' = fold_left AddToBlock (SortForBlock (package_of (asm s) 2%N)) (asm s)
      /\ (forall x, x ∈ package_of (asm s) 2%N ->
                    overlay_count (mapModifiedTx s') x = false)
      /\ nPackagesSelected s' = s32 (nPackagesSelected s + 1).
Proof.
  intros s modit.
  assert (H1 : reaches_body s = true) by (vm_compute; reflexivity).
  assert (H2 : choose_candidate s = Some (2%N, modit, [1%N; 3%N; 4%N]))
    by (vm_compute; reflexivity).
  assert (H3 : selected s 2%N modit).
  { split; [|split; [|split]].
    - apply (bool_decide_eq_false_1 (2%N ∈ inBlock (asm s))). vm_compute. reflexivity.
    - vm_compute. discriminate.
    - vm_compute. reflexivity.
    - vm_compute. reflexivity. }
  split; [exact (conj H1 (conj H2 H3))|].
  exact (addPackageTxs_includes_by_AddToBlock s 2%N modit [1%N; 3%N; 4%N] H1 H2 H3).
Defined.

Lemma sample_consistent_ancestors : consistent_ancestors.
Proof.
  split.
  - intros T A B HA HB. simpl in *. unfold Sample.ancestors_of in *.
    destruct (T =? 2)%N; [|apply elem_of_empty in HA; contradiction].
    apply elem_of_singleton in HA. subst A. simpl in HB.
    apply elem_of_empty in HB. contradiction.
  - intros T A HA. simpl in *. unfold Sample.ancestors_of in HA.
    destruct (T =? 2)%N eqn:E; [|apply elem_of_empty in HA; contradiction].
    apply N.eqb_eq in E. apply elem_of_singleton in HA. subst. reflexivity.
Defined.

Lemma addPackageTxs_ancestors_first_witness :
  let a := Sample.a0 in
  let s' := Sample.s_final in
  (consistent_ancestors
   /\ inBlock a = ∅
   /\ result_state (addPackageTxs 10 a 0 0) = Some s')
  /\ exists order : list txiter,
      block_vtx (asm s') = block_vtx a ++ map tx_ref order
      /\ NoDup order
      /\ (forall it, it ∈ inBlock (asm s') <-> it ∈ order)
      /\ size (inBlock (asm s')) = length order
      /\ forall i T A,
          order !! i = Some T ->
          A ∈ CalculateMemPoolAncestors T ->
          A ∈ inBlock (asm s')
          /\ exists j, (j < i)%nat /\ order !! j = Some A
                       /\ block_vtx (asm s') !! (length (block_vtx a) + j)%nat
                          = Some (tx_ref A)
                       /\ block_vtx (asm s') !! (length (block_vtx a) + i)%nat
                          = Some (tx_ref T).
Proof.
  intros a s'.
  assert (H2 : inBlock a = ∅) by reflexivity.
  assert (H3 : result_state (addPackageTxs 10 a 0 0) = Some s')
    by (vm_compute; reflexivity).
  split; [exact (conj sample_consistent_ancestors (conj H2 H3))|].
  exact (addPackageTxs_ancestors_first 10 a 0 0 s' sample_consistent_ancestors H2 H3).
Defined.

(** On the sample the block ends up as: coinbase, 1, 2, 3. *)
Example sample_block_order :
  block_vtx (asm Sample.s_final)
  = block_vtx Sample.a0 ++ map tx_ref [1%N; 2%N; 3%N].
Proof. vm_compute. reflexivity. Qed.
End OnTheSample.

Section OnTheFullBlock.
#[local] Existing Instance Sample.chain.
#[local] Existing Instance SampleBreak.mempool.
#[local] Existing Instance Sample.vm.

(** The state the witness stands on is the one the run itself reaches:
    one inclusion, then 1000 fit-test failures in a row. *)
Example s_before_break_reached :
  iterate 1001 (enter Sample.a0 0 0) = Continue SampleBreak.s_before_break
  /\ nConsecutiveFailed SampleBreak.s_before_break = 1000
  /\ nPackagesSelected SampleBreak.s_before_break = 1
  /\ mi SampleBreak.s_before_break = [1002%N; 1003%N].
Proof. vm_compute. repeat split; reflexivity. Qed.

Lemma addPackageTxs_break_witness :
  let s := SampleBreak.s_before_break in
  (4000 <= nBlockMaxWeight (asm s) < 2 ^ 32 /\ fits_s64 (nConsecutiveFailed s + 1))
  /\ ((exists s', step s = Break s')
      <-> exists it modit mi',
           reaches_body s = true
           /\ choose_candidate s = Some (it, modit, mi')
           /\ (it ∉ inBlock (asm s))
           /\ FeeRate_GetFee (blockMinFeeRate (asm s)) (packageSize_of it modit)
              <= packageFees_of it modit
           /\ TestPackage (asm s) (packageSize_of it modit) (packageSigOpsCost_of it modit)
              = false
           /\ nConsecutiveFailed s + 1 > 1000
           /\ nBlockWeight (asm s) > nBlockMaxWeight (asm s) - 4000)
  /\ (forall s', step s = Break s' ->
        iterate 1 s = Break s' /\ asm s' = asm s
        /\ nConsecutiveFailed s' = nConsecutiveFailed s + 1)
  /\ (forall it modit mi',
        reaches_body s = true ->
        choose_candidate s = Some (it, modit, mi') ->
        selected s it modit ->
        exists s', step s = Continue s' /\ nConsecutiveFailed s' = 0
                   /\ asm s' = fold_left AddToBlock
                                 (SortForBlock (package_of (asm s) it)) (asm s))
  /\ (forall it modit mi',
        reaches_body s = true ->
        choose_candidate s = Some (it, modit, mi') ->
        it ∉ inBlock (asm s) ->
        FeeRate_GetFee (blockMinFeeRate (asm s)) (packageSize_of it modit)
          <= packageFees_of it modit ->
        TestPackage (asm s) (packageSize_of it modit) (packageSigOpsCost_of it modit)
          = false ->
        ~ (nConsecutiveFailed s + 1 > 1000
           /\ nBlockWeight (asm s) > nBlockMaxWeight (asm s) - 4000) ->
        exists s', step s = Continue s'
                   /\ nConsecutiveFailed s' = nConsecutiveFailed s + 1
                   /\ asm s' = asm s)
  /\ (forall it modit mi',
        reaches_body s = true ->
        choose_candidate s = Some (it, modit, mi') ->
        it ∉ inBlock (asm s) ->
        FeeRate_GetFee (blockMinFeeRate (asm s)) (packageSize_of it modit)
          <= packageFees_of it modit ->
        TestPackage (asm s) (packageSize_of it modit) (packageSigOpsCost_of it modit)
          = true ->
        TestPackageTransactions (asm s) (package_of (asm s) it) = false ->
        exists s', step s = Continue s'
                   /\ nConsecutiveFailed s' = nConsecutiveFailed s
                   /\ asm s' = asm s)
  /\ (reaches_body s = false ->
      forall s', result_state (step s) = Some s' ->
                 nConsecutiveFailed s' = nConsecutiveFailed s /\ asm s' = asm s).
Proof.
  intros s.
  assert (H1 : 4000 <= nBlockMaxWeight (asm s) < 2 ^ 32)
    by (vm_compute; split; [discriminate | reflexivity]).
  assert (H2 : fits_s64 (nConsecutiveFailed s + 1))
    by (vm_compute; split; [discriminate | reflexivity]).
  split; [exact (conj H1 H2)|].
  exact (addPackageTxs_break 0 s H1 H2).
Defined.

(** The whole run on that mempool: entry 1 is included, entries 2 to 1002
    fail the fit test, and the 1001st failure breaks out of the loop with
    the block kept.  Entry 1003, which would have fitted, is never looked
    at. *)
Example full_block_run_breaks :
  addPackageTxs 2000 Sample.a0 0 0 = SampleBreak.run
  /\ exists s',
      SampleBreak.run = Break s'
      /\ nConsecutiveFailed s' = 1001
      /\ nPackagesSelected s' = 1
      /\ block_vtx (asm s') = block_vtx Sample.a0 ++ [tx_ref 1%N]
      /\ mi s' = [1003%N]
      /\ TestPackage (asm s') (packageSize_of 1003%N None)
           (packageSigOpsCost_of 1003%N None) = true.
Proof.
  split; [vm_compute; reflexivity|].
  eexists. split; [reflexivity|]. vm_compute. repeat split; reflexivity.
Qed.
End OnTheFullBlock.
End SelectorFacts.

(** * Further properties *)

(** ** The time-parameter scaler, continued *)

Module ScalerMore.
Import Scaler ScalerView.
Section WithConstants.
Context `{MinerConstants}.

Lemma rescale_fields g d t g' :
  rescale g d t = Some g' ->
  d <> 0
  /\ timeDownscale g' = d
  /\ timeDefault g' = timeDefault g
  /\ buffers g' = (Z.max (u32 BYTECODE_TIME_BUFFER / d) (timeDefault g),
                   Z.max (u32 STAKE_TIME_BUFFER / d) (timeDefault g),
                   Z.max (u32 STAKER_WAIT_FOR_WALID_BLOCK / d) (timeDefault g)).
Proof.
  unfold rescale, udiv. intros Hr.
  destruct (d =? 0) eqn:Hd; simpl in Hr; [discriminate|].
  apply Z.eqb_neq in Hd. injection Hr as <-. repeat split; try reflexivity. exact Hd.
Qed.

(** What one call does to the cache and to the three buffers. *)
Lemma updateMinerParams_cache g c g' :
  updateMinerParams g (call_nHeight c) (call_params c) (call_minDifficulty c) = Some g' ->
  timeDownscale g' = factor_of c
  /\ timeDefault g' = timeDefault g
  /\ (timeDownscale g = factor_of c -> buffers g' = buffers g)
  /\ (timeDownscale g <> factor_of c ->
      buffers g' = (Z.max (u32 BYTECODE_TIME_BUFFER / factor_of c) (timeDefault g),
                    Z.max (u32 STAKE_TIME_BUFFER / factor_of c) (timeDefault g),
                    Z.max (u32 STAKER_WAIT_FOR_WALID_BLOCK / factor_of c) (timeDefault g))).
Proof.
  unfold updateMinerParams. fold (factor_of c). intros Hu.
  destruct (timeDownscale g =? factor_of c) eqn:E; simpl in Hu.
  - apply Z.eqb_eq in E.
    destruct (_ && _) in Hu; injection Hu as <-;
      (split; [exact E|]; split; [reflexivity|];
       split; [intros _; reflexivity | intros Hne; contradiction]).
  - apply Z.eqb_neq in E.
    destruct (rescale _ _ _) as [g1|] eqn:Hr; simpl in Hu; [|discriminate].
    apply rescale_fields in Hr as (_ & Hd & Ht & Hb).
    destruct (_ && _) in Hu; injection Hu as <-;
      (split; [exact Hd|]; split; [exact Ht|];
       split; [intros Heq; contradiction | intros _; exact Hb]).
Qed.

Lemma calls_closed_form cs : forall g (touched : bool) g',
  timeDefault g = 1 ->
  buffers g = (if touched then buffers_for (timeDownscale g) else buffers initial) ->
  (touched = false -> timeDownscale g = 1) ->
  updateMinerParams_calls g cs = Some g' ->
  timeDownscale g' = default (timeDownscale g) (last (factor_of <$> cs))
  /\ timeDefault g' = 1
  /\ buffers g' = (if touched || ever_rescaled cs
                   then buffers_for (default (timeDownscale g) (last (factor_of <$> cs)))
                   else buffers initial).
Proof.
  induction cs as [|c cs IH]; intros g touched g' Hdef Hbuf Hone Hrun.
  - injection Hrun as <-. simpl. rewrite orb_false_r. auto.
  - simpl in Hrun.
    destruct (updateMinerParams g _ _ _) as [g1|] eqn:Hcall; simpl in Hrun; [|discriminate].
    apply updateMinerParams_cache in Hcall as (Hd1 & Ht1 & Hsame & Hnew).
    rewrite Hdef in Ht1, Hnew.
    assert (Hb1 : buffers g1
                  = if touched || negb (factor_of c =? 1)
                    then buffers_for (timeDownscale g1) else buffers initial).
    { rewrite Hd1. destruct (Z.eq_dec (timeDownscale g) (factor_of c)) as [Heq | Hne].
      - rewrite (Hsame Heq), Hbuf. destruct touched; simpl.
        + rewrite Heq. reflexivity.
        + rewrite <- Heq, (Hone eq_refl). reflexivity.
      - rewrite (Hnew Hne). destruct touched; simpl; [reflexivity|].
        rewrite (Hone eq_refl) in Hne.
        rewrite (proj2 (Z.eqb_neq (factor_of c) 1)) by congruence. reflexivity. }
    assert (Hone1 : touched || negb (factor_of c =? 1) = false -> timeDownscale g1 = 1).
    { intros Hf. apply orb_false_iff in Hf as [_ Hf].
      apply negb_false_iff, Z.eqb_eq in Hf. congruence. }
    destruct (IH g1 _ g' Ht1 Hb1 Hone1 Hrun) as (Hd' & Ht' & Hb').
    split; [|split; [exact Ht'|]].
    + rewrite Hd', Hd1, fmap_cons, last_cons.
      destruct (last (factor_of <$> cs)); reflexivity.
    + rewrite Hb', Hd1, fmap_cons, last_cons.
      change (ever_rescaled (c :: cs))
        with (negb (factor_of c =? 1) || ever_rescaled cs).
      rewrite orb_assoc.
      destruct (last (factor_of <$> cs)); reflexivity.
Qed.

(** X1.  However the staker's calls went, the cached downscale factor is
    the one the most recent call read, [timeDefault] is still 1, and the
    bytecode, stake and wait-for-valid-block buffers are a function of that
    factor alone: the constant divided by it, at least 1; or the initial
    constants when every call so far read the factor 1. *)
Theorem updateMinerParams_follows_last_factor (cs : list call) (g' : MinerGlobals) :
  updateMinerParams_calls initial cs = Some g' ->
  timeDownscale g' = last_factor cs
  /\ timeDefault g' = 1
  /\ buffers g' = (if ever_rescaled cs then buffers_for (last_factor cs)
                   else buffers initial).
Proof.
  intros Hrun.
  apply (calls_closed_form cs initial false g'); try reflexivity. exact Hrun.
Qed.

(** X2.  A call repeated with the same arguments changes nothing: the
    second call finds the factor cached and the polling period already
    set. *)
Theorem updateMinerParams_idempotent (g : MinerGlobals) (nHeight : Z)
    (consensusParams : ConsensusParams) (minDifficulty : bool) (g' : MinerGlobals) :
  updateMinerParams g nHeight consensusParams minDifficulty = Some g' ->
  updateMinerParams g' nHeight consensusParams minDifficulty = Some g'.
Proof.
  intros Hu.
  pose proof (updateMinerParams_cache g
                {| call_nHeight := nHeight; call_params := consensusParams;
                   call_minDifficulty := minDifficulty |} g' Hu) as (Hd & _).
  unfold factor_of in Hd. simpl in Hd.
  assert (Hsleep : minDifficulty = true ->
                   nMinerSleep g' = u32 STAKER_POLLING_PERIOD_MIN_DIFFICULTY).
  { intros ->. unfold updateMinerParams in Hu.
    destruct (if negb _ then _ else _) as [g1|]; simpl in Hu; [|discriminate].
    destruct (nMinerSleep g1 =? _) eqn:E; simpl in Hu; injection Hu as <-.
    - apply Z.eqb_eq in E. exact E.
    - reflexivity. }
  unfold updateMinerParams. rewrite Hd, Z.eqb_refl. simpl.
  destruct minDifficulty; simpl; [|reflexivity].
  rewrite (Hsleep eq_refl), Z.eqb_refl. reflexivity.
Qed.

Lemma min_difficulty_kept g c g' :
  nMinerSleep g = u32 STAKER_POLLING_PERIOD_MIN_DIFFICULTY ->
  factor_of c = timeDownscale g ->
  updateMinerParams g (call_nHeight c) (call_params c) (call_minDifficulty c) = Some g' ->
  g' = g.
Proof.
  intros Hs Hf Hu. unfold updateMinerParams in Hu. fold (factor_of c) in Hu.
  rewrite Hf, Z.eqb_refl in Hu. simpl in Hu.
  rewrite Hs, Z.eqb_refl, andb_false_r in Hu. injection Hu as <-. reflexivity.
Qed.

(** X3.  The minimum-difficulty polling period sticks.  After a call with
    [minDifficulty] set, later calls that read the same downscale factor
    leave [nMinerSleep] at [STAKER_POLLING_PERIOD_MIN_DIFFICULTY], also when
    they pass [minDifficulty = false]: only a change of the factor
    recomputes it. *)
Theorem updateMinerParams_min_difficulty_sticks (g : MinerGlobals) (c : call)
    (cs : list call) (g' : MinerGlobals) :
  call_minDifficulty c = true ->
  Forall (λ c', factor_of c' = factor_of c) cs ->
  updateMinerParams_calls g (c :: cs) = Some g' ->
  nMinerSleep g' = u32 STAKER_POLLING_PERIOD_MIN_DIFFICULTY
  /\ updateMinerParams g (call_nHeight c) (call_params c) true = Some g'.
Proof.
  intros Hmin Hall Hrun. simpl in Hrun. rewrite Hmin in Hrun.
  destruct (updateMinerParams g _ _ true) as [g1|] eqn:Hcall; simpl in Hrun;
    [|discriminate].
  assert (Hd : timeDownscale g1 = factor_of c).
  { pose proof (updateMinerParams_cache g c g1) as Hc. rewrite Hmin in Hc.
    apply Hc. exact Hcall. }
  assert (Hs : nMinerSleep g1 = u32 STAKER_POLLING_PERIOD_MIN_DIFFICULTY).
  { unfold updateMinerParams in Hcall.
    destruct (if negb _ then _ else _) as [g0|]; simpl in Hcall; [|discriminate].
    destruct (nMinerSleep g0 =? _) eqn:E; simpl in Hcall; injection Hcall as <-.
    - apply Z.eqb_eq in E. exact E.
    - reflexivity. }
  assert (Hkeep : g' = g1).
  { clear Hcall. revert Hrun. induction Hall as [|c' cs' Hc' _ IH]; intros Hrun.
    - injection Hrun as <-. reflexivity.
    - simpl in Hrun.
      destruct (updateMinerParams g1 _ _ _) as [g2|] eqn:Hcall'; simpl in Hrun;
        [|discriminate].
      apply (min_difficulty_kept g1 c' g2 Hs) in Hcall'; [|congruence].
      subst g2. apply IH. exact Hrun. }
  subst g'. split; [exact Hs | reflexivity].
Qed.
End WithConstants.

Section OnTheSample.
#[local] Existing Instance Sample.constants.

Lemma updateMinerParams_follows_last_factor_witness :
  updateMinerParams_calls initial Sample.calls = Some SampleScaler.globals_after
  /\ timeDownscale SampleScaler.globals_after = last_factor Sample.calls
  /\ timeDefault SampleScaler.globals_after = 1
  /\ buffers SampleScaler.globals_after
     = (if ever_rescaled Sample.calls then buffers_for (last_factor Sample.calls)
        else buffers initial).
Proof.
  assert (Hrun : updateMinerParams_calls initial Sample.calls = Some SampleScaler.globals_after)
    by (vm_compute; reflexivity).
  split; [exact Hrun|].
  exact (updateMinerParams_follows_last_factor Sample.calls SampleScaler.globals_after Hrun).
Defined.

Lemma updateMinerParams_idempotent_witness :
  updateMinerParams initial 100 Sample.params true = Some SampleScaler.globals_min_difficulty
  /\ updateMinerParams SampleScaler.globals_min_difficulty 100 Sample.params true
     = Some SampleScaler.globals_min_difficulty.
Proof.
  assert (Hu : updateMinerParams initial 100 Sample.params true
               = Some SampleScaler.globals_min_difficulty) by (vm_compute; reflexivity).
  split; [exact Hu|].
  exact (updateMinerParams_idempotent initial 100 Sample.params true
           SampleScaler.globals_min_difficulty Hu).
Defined.

Lemma updateMinerParams_min_difficulty_sticks_witness :
  let c := {| call_nHeight := 100; call_params := Sample.params;
              call_minDifficulty := true |} in
  let cs := [{| call_nHeight := 101; call_params := Sample.params;
                call_minDifficulty := false |};
             {| call_nHeight := 250; call_params := Sample.params;
                call_minDifficulty := false |}] in
  (call_minDifficulty c = true
   /\ Forall (λ c', factor_of c' = factor_of c) cs
   /\ updateMinerParams_calls initial (c :: cs) = Some SampleScaler.globals_min_difficulty)
  /\ nMinerSleep SampleScaler.globals_min_difficulty = u32 STAKER_POLLING_PERIOD_MIN_DIFFICULTY
  /\ updateMinerParams initial (call_nHeight c) (call_params c) true
     = Some SampleScaler.globals_min_difficulty.
Proof.
  intros c cs.
  assert (H1 : call_minDifficulty c = true) by reflexivity.
  assert (H2 : Forall (λ c', factor_of c' = factor_of c) cs)
    by (repeat constructor).
  assert (H3 : updateMinerParams_calls initial (c :: cs) = Some SampleScaler.globals_min_difficulty)
    by (vm_compute; reflexivity).
  split; [exact (conj H1 (conj H2 H3))|].
  exact (updateMinerParams_min_difficulty_sticks initial c cs
           SampleScaler.globals_min_difficulty H1 H2 H3).
Defined.
End OnTheSample.
End ScalerMore.

(** ** Header time, continued *)

Module TimeMore.
Import HeaderTime.
Section WithPow.
Variable GetNextWorkRequired :
  CBlockIndex -> CBlockHeader -> ConsensusParams -> bool -> Z.

(** X4.  Calling [UpdateTime] again with the same tip and the same clock
    reading leaves [nTime] where the first call put it and returns a value
    that is not positive (0 when the first call moved the time).  Apart from
    [nTime] and [nBits] no header field is ever written.  As for the time
    itself, the values are such that nothing wraps. *)
Theorem UpdateTime_twice pblock consensusParams pindexPrev adjusted :
  let old := nTime pblock in
  let m := Z.max (GetMedianTimePast pindexPrev + 1) adjusted in
  let r1 := UpdateTime GetNextWorkRequired pblock consensusParams pindexPrev adjusted in
  let r2 := UpdateTime GetNextWorkRequired r1.1 consensusParams pindexPrev adjusted in
  fits_u32 old ->
  fits_s64 (GetMedianTimePast pindexPrev + 1) ->
  m < 2 ^ 32 ->
  fits_s64 (m - old) ->
  nTime r2.1 = nTime r1.1
  /\ nTime r1.1 = Z.max old m
  /\ r2.2 <= 0
  /\ (0 < r1.2 -> r2.2 = 0)
  /\ (nVersion r2.1, hashPrevBlock r2.1, hashMerkleRoot r2.1, nNonce r2.1,
      fProofOfStake r2.1)
     = (nVersion pblock, hashPrevBlock pblock, hashMerkleRoot pblock, nNonce pblock,
        fProofOfStake pblock).
Proof.
  intros old m r1 r2 Hold Hmtp Hm Hdiff.
  assert (Hnew : nNewTime_of pindexPrev adjusted = m).
  { unfold nNewTime_of. rewrite s64_id by exact Hmtp. reflexivity. }
  assert (H1 : nTime r1.1 = Z.max old m).
  { subst r1. rewrite TimeFacts.UpdateTime_nTime, Hnew. fold old.
    destruct (old <? m) eqn:E; [apply Z.ltb_lt in E | apply Z.ltb_ge in E].
    - rewrite u32_id by (unfold fits_u32 in *; lia). lia.
    - lia. }
  assert (H2 : nTime r2.1 = nTime r1.1).
  { subst r2. rewrite TimeFacts.UpdateTime_nTime, Hnew, H1.
    rewrite (proj2 (Z.ltb_ge (Z.max old m) m)) by lia. reflexivity. }
  assert (Hret : forall p, (UpdateTime GetNextWorkRequired p consensusParams
                              pindexPrev adjusted).2 = s64 (m - nTime p)).
  { intros p. rewrite <- Hnew. reflexivity. }
  assert (Hr1 : r1.2 = m - old).
  { subst r1. rewrite Hret. apply s64_id. exact Hdiff. }
  assert (Hr2 : r2.2 = m - Z.max old m).
  { subst r2. rewrite Hret, H1. apply s64_id.
    unfold fits_s64, fits_u32 in *. lia. }
  split; [exact H2|]. split; [exact H1|].
  split; [lia|]. split; [lia|].
  subst r2 r1. unfold UpdateTime. simpl.
  destruct (fPowAllowMinDifficultyBlocks consensusParams); simpl;
    repeat (match goal with |- context [if ?c then _ else _] => destruct c end; simpl);
    reflexivity.
Qed.
End WithPow.

Lemma UpdateTime_twice_witness :
  let pblock := Sample.header0 in
  let old := nTime pblock in
  let m := Z.max (GetMedianTimePast Sample.tip + 1) 1700000123 in
  let r1 := UpdateTime Sample.next_work pblock Sample.params Sample.tip 1700000123 in
  let r2 := UpdateTime Sample.next_work r1.1 Sample.params Sample.tip 1700000123 in
  (fits_u32 old /\ fits_s64 (GetMedianTimePast Sample.tip + 1)
   /\ m < 2 ^ 32 /\ fits_s64 (m - old))
  /\ (nTime r2.1 = nTime r1.1
      /\ nTime r1.1 = Z.max old m
      /\ r2.2 <= 0
      /\ (0 < r1.2 -> r2.2 = 0)
      /\ (nVersion r2.1, hashPrevBlock r2.1, hashMerkleRoot r2.1, nNonce r2.1,
          fProofOfStake r2.1)
         = (nVersion pblock, hashPrevBlock pblock, hashMerkleRoot pblock, nNonce pblock,
            fProofOfStake pblock)).
Proof.
  intros pblock old m r1 r2.
  assert (H1 : fits_u32 old) by (vm_compute; split; [discriminate|reflexivity]).
  assert (H2 : fits_s64 (GetMedianTimePast Sample.tip + 1))
    by (vm_compute; split; [discriminate|reflexivity]).
  assert (H3 : m < 2 ^ 32) by (vm_compute; reflexivity).
  assert (H4 : fits_s64 (m - old)) by (vm_compute; split; [discriminate|reflexivity]).
  split; [exact (conj H1 (conj H2 (conj H3 H4)))|].
  exact (UpdateTime_twice Sample.next_work pblock Sample.params Sample.tip 1700000123
           H1 H2 H3 H4).
Defined.
End TimeMore.

(** ** The assembler's member functions, continued *)

Module AssemblerMore.
Import Assembler.
Section WithCollaborators.
Context `{Chain} `{MemPool} `{ContractVM}.

(** X5.  The constructor keeps [nBlockMaxWeight] between 4000 and
    [dgpMaxBlockWeight - 4000]: an option inside that range is taken as it
    is, a smaller one becomes 4000, a larger one the upper bound.  This
    needs [dgpMaxBlockWeight] to be at least 8000. *)
Theorem BlockAssembler_clamps_nBlockMaxWeight (options_nBlockMaxWeight : Z) :
  fits_u32 dgpMaxBlockWeight ->
  8000 <= dgpMaxBlockWeight ->
  fits_u64 options_nBlockMaxWeight ->
  let w := clamp_nBlockMaxWeight options_nBlockMaxWeight in
  4000 <= w <= dgpMaxBlockWeight - 4000
  /\ (4000 <= options_nBlockMaxWeight <= dgpMaxBlockWeight - 4000 ->
      w = options_nBlockMaxWeight)
  /\ (options_nBlockMaxWeight < 4000 -> w = 4000)
  /\ (dgpMaxBlockWeight - 4000 < options_nBlockMaxWeight -> w = dgpMaxBlockWeight - 4000).
Proof.
  intros Hd H8 Ho w. subst w. unfold clamp_nBlockMaxWeight.
  rewrite (u32_id (dgpMaxBlockWeight - 4000)) by (unfold fits_u32 in *; lia).
  rewrite (u64_id _ Ho).
  rewrite u32_id by (unfold fits_u32, fits_u64 in *; lia).
  unfold fits_u64 in Ho. repeat split; intros; lia.
Qed.

(** X6.  With [dgpMaxBlockWeight] below 4000 the unsigned subtraction in
    the constructor wraps around, and the upper bound is lost: the result is
    still at least 4000, hence above [dgpMaxBlockWeight]. *)
Theorem BlockAssembler_clamp_wraps (options_nBlockMaxWeight : Z) :
  0 <= dgpMaxBlockWeight < 4000 ->
  fits_u64 options_nBlockMaxWeight ->
  let w := clamp_nBlockMaxWeight options_nBlockMaxWeight in
  dgpMaxBlockWeight < 4000 <= w
  /\ w = Z.max 4000 (Z.min (2 ^ 32 + dgpMaxBlockWeight - 4000) options_nBlockMaxWeight).
Proof.
  intros Hd Ho w. subst w. unfold clamp_nBlockMaxWeight.
  assert (Hw : u32 (dgpMaxBlockWeight - 4000) = 2 ^ 32 + dgpMaxBlockWeight - 4000).
  { unfold u32.
    replace (dgpMaxBlockWeight - 4000)
      with (2 ^ 32 + dgpMaxBlockWeight - 4000 + (-1) * 2 ^ 32) by lia.
    rewrite Z_mod_plus_full. apply Z.mod_small. lia. }
  rewrite Hw, (u64_id _ Ho).
  rewrite u32_id by (unfold fits_u32, fits_u64 in *; lia).
  unfold fits_u64 in Ho. split; [lia | reflexivity].
Qed.

Lemma TestPackage_true a packageSize packageSigOpsCost :
  TestPackage a packageSize packageSigOpsCost = true
  <-> u64 (nBlockWeight a + WITNESS_SCALE_FACTOR * packageSize) < nBlockMaxWeight a
      /\ u64 (nBlockSigOpsCost a + packageSigOpsCost) < u64 dgpMaxBlockSigOps.
Proof.
  unfold TestPackage. rewrite u64_add_u64_r, !Z.geb_leb.
  destruct (nBlockMaxWeight a <=? _) eqn:E1;
    [apply Z.leb_le in E1 | apply Z.leb_gt in E1].
  - split; [discriminate | lia].
  - destruct (u64 dgpMaxBlockSigOps <=? _) eqn:E2;
      [apply Z.leb_le in E2 | apply Z.leb_gt in E2].
    + split; [discriminate | lia].
    + split; [intros _; lia | reflexivity].
Qed.

(** X7.  [TestPackage] is monotone: when a package fits, so does every
    package that is no larger and costs no more sigops.  The sums are the
    ones of the code, within their 64 bits. *)
Theorem TestPackage_monotone (a : BlockAssembler)
    (packageSize packageSigOpsCost packageSize' packageSigOpsCost' : Z) :
  0 <= WITNESS_SCALE_FACTOR ->
  0 <= nBlockWeight a ->
  fits_u64 (nBlockWeight a + WITNESS_SCALE_FACTOR * packageSize) ->
  fits_u64 (nBlockSigOpsCost a + packageSigOpsCost) ->
  0 <= packageSize' <= packageSize ->
  packageSigOpsCost' <= packageSigOpsCost ->
  0 <= nBlockSigOpsCost a + packageSigOpsCost' ->
  TestPackage a packageSize packageSigOpsCost = true ->
  TestPackage a packageSize' packageSigOpsCost' = true.
Proof.
  intros Hk Hw Hfw Hfs Hsize Hsig Hlow.
  rewrite !TestPackage_true.
  rewrite (u64_id _ Hfw), (u64_id _ Hfs).
  assert (Hfw' : fits_u64 (nBlockWeight a + WITNESS_SCALE_FACTOR * packageSize')).
  { unfold fits_u64 in *. nia. }
  assert (Hfs' : fits_u64 (nBlockSigOpsCost a + packageSigOpsCost')).
  { unfold fits_u64 in *. lia. }
  rewrite (u64_id _ Hfw'), (u64_id _ Hfs'). intros [Ha Hb]. split; [nia | lia].
Qed.

(** *** RebuildRefundTransaction, continued *)

Lemma RebuildRefundTransaction_Some_inv a a' :
  RebuildRefundTransaction a = Some a' ->
  exists o,
    vout (originalRewardTx a) !! refund_index (block (pblocktemplate a)) = Some o
    /\ (refund_index (block (pblocktemplate a)) < length (block_vtx a))%nat.
Proof.
  unfold RebuildRefundTransaction, block_vtx. intros Hr.
  destruct (vout (originalRewardTx a) !! _) as [o|]; simpl in Hr; [|discriminate].
  destruct (vtx (block (pblocktemplate a)) !! _) as [t|] eqn:Ht; simpl in Hr;
    [|discriminate].
  exists o. split; [reflexivity|]. apply lookup_lt_Some in Ht. exact Ht.
Qed.

(** X10.  [RebuildRefundTransaction] builds the reward transaction from
    [originalRewardTx], not from the block, so doing it twice is doing it
    once; and it writes nothing but that one slot of the transaction
    list. *)
Theorem RebuildRefundTransaction_idempotent (a a' : BlockAssembler) :
  RebuildRefundTransaction a = Some a' ->
  RebuildRefundTransaction a' = Some a'
  /\ length (block_vtx a') = length (block_vtx a)
  /\ (forall i, i <> refund_index (block (pblocktemplate a)) ->
                block_vtx a' !! i = block_vtx a !! i)
  /\ exists v, a' = set_block_vtx v a.
Proof.
  intros Hr.
  destruct (RebuildRefundTransaction_Some_inv a a' Hr) as (o & Hlo & Hv).
  rewrite (AssemblerFacts.RebuildRefundTransaction_eq a o Hlo Hv) in Hr.
  injection Hr as <-.
  split; [|split; [|split]].
  - rewrite (AssemblerFacts.RebuildRefundTransaction_eq _ o).
    + unfold set_block_vtx at 1. simpl. unfold block_vtx. simpl.
      rewrite list_insert_insert_eq. reflexivity.
    + exact Hlo.
    + simpl. unfold block_vtx. simpl. rewrite length_insert. exact Hv.
  - unfold block_vtx. simpl. apply length_insert.
  - intros i Hi. unfold block_vtx. simpl. apply list_lookup_insert_ne. congruence.
  - eexists. reflexivity.
Qed.
End WithCollaborators.

Section OnTheSample.
#[local] Existing Instance Sample.chain.
#[local] Existing Instance Sample.mempool.
#[local] Existing Instance Sample.vm.

Lemma BlockAssembler_clamps_nBlockMaxWeight_witness :
  let w := clamp_nBlockMaxWeight 9000000 in
  (fits_u32 dgpMaxBlockWeight /\ 8000 <= dgpMaxBlockWeight /\ fits_u64 9000000)
  /\ (4000 <= w <= dgpMaxBlockWeight - 4000
      /\ (4000 <= 9000000 <= dgpMaxBlockWeight - 4000 -> w = 9000000)
      /\ (9000000 < 4000 -> w = 4000)
      /\ (dgpMaxBlockWeight - 4000 < 9000000 -> w = dgpMaxBlockWeight - 4000)).
Proof.
  intros w.
  assert (H1 : fits_u32 dgpMaxBlockWeight) by (vm_compute; split; [discriminate|reflexivity]).
  assert (H2 : 8000 <= dgpMaxBlockWeight) by (vm_compute; discriminate).
  assert (H3 : fits_u64 9000000) by (vm_compute; split; [discriminate|reflexivity]).
  split; [exact (conj H1 (conj H2 H3))|].
  exact (BlockAssembler_clamps_nBlockMaxWeight 9000000 H1 H2 H3).
Defined.

Lemma TestPackage_monotone_witness :
  let a := Sample.a0 in
  (0 <= WITNESS_SCALE_FACTOR
   /\ 0 <= nBlockWeight a
   /\ fits_u64 (nBlockWeight a + WITNESS_SCALE_FACTOR * 200)
   /\ fits_u64 (nBlockSigOpsCost a + 8)
   /\ 0 <= 100 <= 200
   /\ 4 <= 8
   /\ 0 <= nBlockSigOpsCost a + 4
   /\ TestPackage a 200 8 = true)
  /\ TestPackage a 100 4 = true.
Proof.
  intros a.
  assert (H1 : 0 <= WITNESS_SCALE_FACTOR) by (vm_compute; discriminate).
  assert (H2 : 0 <= nBlockWeight a) by (vm_compute; discriminate).
  assert (H3 : fits_u64 (nBlockWeight a + WITNESS_SCALE_FACTOR * 200))
    by (vm_compute; split; [discriminate|reflexivity]).
  assert (H4 : fits_u64 (nBlockSigOpsCost a + 8))
    by (vm_compute; split; [discriminate|reflexivity]).
  assert (H5 : 0 <= 100 <= 200) by lia.
  assert (H6 : 4 <= 8) by lia.
  assert (H7 : 0 <= nBlockSigOpsCost a + 4) by (vm_compute; discriminate).
  assert (H8 : TestPackage a 200 8 = true) by (vm_compute; reflexivity).
  split; [exact (conj H1 (conj H2 (conj H3 (conj H4 (conj H5 (conj H6 (conj H7 H8)))))))|].
  exact (TestPackage_monotone a 200 8 100 4 H1 H2 H3 H4 H5 H6 H7 H8).
Defined.

Lemma RebuildRefundTransaction_idempotent_witness :
  let a := Sample.a_refund in
  let a' := SampleAssembler.a_rebuilt in
  RebuildRefundTransaction a = Some a'
  /\ (RebuildRefundTransaction a' = Some a'
      /\ length (block_vtx a') = length (block_vtx a)
      /\ (forall i, i <> refund_index (block (pblocktemplate a)) ->
                    block_vtx a' !! i = block_vtx a !! i)
      /\ exists v, a' = set_block_vtx v a).
Proof.
  intros a a'.
  assert (Hr : RebuildRefundTransaction a = Some a') by (vm_compute; reflexivity).
  split; [exact Hr|].
  exact (RebuildRefundTransaction_idempotent a a' Hr).
Defined.
End OnTheSample.

Section OnTheTinyChain.
#[local] Existing Instance SampleAssembler.tiny_chain.

Lemma BlockAssembler_clamp_wraps_witness :
  let w := clamp_nBlockMaxWeight 4000000 in
  (0 <= dgpMaxBlockWeight < 4000 /\ fits_u64 4000000)
  /\ dgpMaxBlockWeight < 4000 <= w
  /\ w = Z.max 4000 (Z.min (2 ^ 32 + dgpMaxBlockWeight - 4000) 4000000).
Proof.
  intros w.
  assert (H1 : 0 <= dgpMaxBlockWeight < 4000)
    by (vm_compute; split; [discriminate | reflexivity]).
  assert (H2 : fits_u64 4000000) by (vm_compute; split; [discriminate|reflexivity]).
  split; [exact (conj H1 H2)|].
  exact (BlockAssembler_clamp_wraps 4000000 H1 H2).
Defined.
End OnTheTinyChain.
End AssemblerMore.

(** ** A committed contract *)

Lemma u64_add_u64_l x y : u64 (u64 x + y) = u64 (x + y).
Proof. unfold u64. apply Zplus_mod_idemp_l. Qed.

Lemma s64_add_s64_l x y : s64 (s64 x + y) = s64 (x + y).
Proof.
  unfold s64. f_equal.
  replace ((x + 2 ^ 63) mod 2 ^ 64 - 2 ^ 63 + y + 2 ^ 63)
    with ((x + 2 ^ 63) mod 2 ^ 64 + y) by lia.
  rewrite Zplus_mod_idemp_l. f_equal. lia.
Qed.

Lemma u64_sub_add_u64 x l r : u64 (u64 x - l + r) = u64 (x - l + r).
Proof.
  replace (u64 x - l + r) with (u64 x + (r - l)) by lia.
  rewrite u64_add_u64_l. f_equal. lia.
Qed.

Module AttemptFacts.
Import Assembler AssemblerView.
Section WithCollaborators.
Context `{Chain} `{MemPool} `{ContractVM}.

Lemma add_transfer_costs_sum ts : forall x y,
  add_transfer_costs (u64 x, u64 y) ts
  = (u64 (x + sum_with GetTransactionWeight ts),
     u64 (y + sum_with GetLegacySigOpCount ts)).
Proof.
  unfold add_transfer_costs.
  induction ts as [|t ts IH]; intros x y; simpl.
  - rewrite !Z.add_0_r. reflexivity.
  - rewrite !u64_add_u64_l, IH. f_equal; f_equal; lia.
Qed.

Lemma count_up_u64 (k : nat) : forall x,
  Nat.iter k (λ n, u64 (n + 1)) (u64 x) = u64 (x + Z.of_nat k).
Proof.
  induction k as [|k IH]; intros x.
  - simpl. rewrite Z.add_0_r. reflexivity.
  - rewrite Nat.iter_succ, IH, u64_add_u64_l. f_equal. lia.
Qed.

Lemma push_valueTransfers_fields ts : forall a,
  transfer_frame (fold_left push_valueTransfer ts a) = transfer_frame a
  /\ block_vtx (fold_left push_valueTransfer ts a) = block_vtx a ++ map Some ts
  /\ (nBlockWeight (fold_left push_valueTransfer ts a),
      nBlockSigOpsCost (fold_left push_valueTransfer ts a))
     = add_transfer_costs (nBlockWeight a, nBlockSigOpsCost a) ts
  /\ nBlockTx (fold_left push_valueTransfer ts a)
     = Nat.iter (length ts) (λ n, u64 (n + 1)) (nBlockTx a).
Proof.
  induction ts as [|t ts IH]; intros a.
  - simpl. rewrite app_nil_r. repeat split; reflexivity.
  - simpl fold_left. destruct (IH (push_valueTransfer a t)) as (Hf & Hv & Hw & Hn).
    rewrite Hf, Hv, Hw, Hn. split; [reflexivity|]. split.
    + unfold push_valueTransfer, block_vtx. simpl.
      rewrite <- app_assoc. reflexivity.
    + split; [reflexivity|].
      change (length (t :: ts)) with (S (length ts)).
      rewrite Nat.iter_succ_r. reflexivity.
Qed.

(** Everything that a [return true] went through. *)
Lemma AttemptToAddContractToBlock_committed amb a gs it minGasPrice a' gs' :
  AttemptToAddContractToBlock amb a gs it minGasPrice = Some (true, a', gs') ->
  exists qs gs1 t old,
    extractionQtumTransactions (GetSharedTx (entry it)) (block_vtx a)
      (GetContractScriptFlags (nHeight a)) = Some qs
    /\ performByteCode gs (block (pblocktemplate a)) qs (hardBlockGasLimit a) = (true, gs1)
    /\ processingResults gs1 (block (pblocktemplate a)) qs (hardBlockGasLimit a)
       = (Some t, gs')
    /\ deref_vtx (block (pblocktemplate a)) (refund_index (block (pblocktemplate a)))
       = Some old
    /\ (add_transfer_costs (u64 (nBlockWeight a + GetTxWeight (entry it)),
                            u64 (nBlockSigOpsCost a + GetSigOpCost (entry it)))
          (valueTransfers t)).1 <= dgpMaxBlockWeight
    /\ commit_contract a it t (refund_index (block (pblocktemplate a))) = Some a'.
Proof.
  unfold AttemptToAddContractToBlock, block_vtx. intros Hr.
  destruct (negb _ && _); [discriminate|].
  destruct (arg_disablecontractstaking amb); [discriminate|].
  destruct (extractionQtumTransactions _ _ _) as [qs|] eqn:Hx; [|discriminate].
  destruct (gas_checks a minGasPrice 0 qs); simpl in Hr; [|discriminate].
  destruct (performByteCode _ _ _ _) as [ok gs1] eqn:Hp.
  destruct ok; simpl in Hr; [|discriminate].
  destruct (processingResults _ _ _ _) as [[t|] gs2] eqn:Hq; [|discriminate].
  destruct (_ >? softBlockGasLimit a); [discriminate|].
  destruct (add_transfer_costs _ _) as [w s] eqn:Hws.
  destruct (deref_vtx _ _) as [old|] eqn:Hold; simpl in Hr; [|discriminate].
  destruct (_ || _) eqn:Hlim; [discriminate|].
  destruct (commit_contract a it t _) as [a1|] eqn:Hc; simpl in Hr; [|discriminate].
  injection Hr as <- <-.
  apply orb_false_iff in Hlim as [_ Hw]. rewrite Z.gtb_ltb in Hw. apply Z.ltb_ge in Hw.
  exists qs, gs1, t, old. rewrite Hws.
  split; [reflexivity|]. split; [exact Hp|]. split; [exact Hq|].
  split; [reflexivity|]. split; [exact Hw | exact Hc].
Qed.

Lemma deref_vtx_app_l (b : CBlock) (more : list CTransactionRef) (k : nat) tx :
  deref_vtx b k = Some tx -> deref_vtx (set_vtx (vtx b ++ more) b) k = Some tx.
Proof.
  unfold deref_vtx. simpl. intros Hd.
  destruct (vtx b !! k) as [r|] eqn:Hk; [|discriminate].
  rewrite (lookup_app_l_Some _ _ _ _ Hk). exact Hd.
Qed.

(** [commit_contract], with its intermediate states named: the assembler
    after the contract transaction and the value transfers were pushed, and
    after the reward transaction was rebuilt. *)
Lemma commit_contract_unfold a it t k :
  commit_contract a it t k
  = let a3 := fold_left push_valueTransfer (valueTransfers t)
                (AddToBlock
                   (set_bceResult
                      {| usedGas := u64 (usedGas (bceResult a) + usedGas t);
                         refundSender := s64 (refundSender (bceResult a) + refundSender t);
                         refundOutputs := refundOutputs (bceResult a) ++ refundOutputs t;
                         valueTransfers := valueTransfers t |} a) it) in
    old ← deref_vtx (block (pblocktemplate a3)) k;
    a5 ← RebuildRefundTransaction
           (set_nBlockSigOpsCost (u64 (nBlockSigOpsCost a3 - GetLegacySigOpCount old)) a3);
    new ← deref_vtx (block (pblocktemplate a5)) k;
    Some (set_bceResult (set_valueTransfers [] (bceResult a5))
            (set_nBlockSigOpsCost (u64 (nBlockSigOpsCost a5 + GetLegacySigOpCount new)) a5)).
Proof. reflexivity. Qed.

(** The fields of the assembler that [commit_contract] returns. *)
Lemma commit_contract_fields a it t a' old :
  let k := refund_index (block (pblocktemplate a)) in
  let e := entry it in
  deref_vtx (block (pblocktemplate a)) k = Some old ->
  commit_contract a it t k = Some a' ->
  exists o rebuilt,
    vout (originalRewardTx a) !! k = Some o
    /\ rebuilt
       = set_vout
           (<[k := set_nValue
                     (s64 (s64 (s64 (nFees a + GetFee e) + GetBlockSubsidy (nHeight a))
                           - s64 (refundSender (bceResult a) + refundSender t))) o]>
              (vout (originalRewardTx a))
            ++ refundOutputs (bceResult a) ++ refundOutputs t)
           (originalRewardTx a)
    /\ block_vtx a'
       = <[k := Some rebuilt]>
           (block_vtx a ++ Some (GetSharedTx e) :: map Some (valueTransfers t))
    /\ vTxFees (pblocktemplate a') = vTxFees (pblocktemplate a) ++ [GetFee e]
    /\ vTxSigOpsCost (pblocktemplate a')
       = vTxSigOpsCost (pblocktemplate a) ++ [GetSigOpCost e]
    /\ inBlock a' = {[it]} ∪ inBlock a
    /\ nFees a' = s64 (nFees a + GetFee e)
    /\ nBlockTx a' = u64 (nBlockTx a + 1 + Z.of_nat (length (valueTransfers t)))
    /\ nBlockWeight a'
       = u64 (nBlockWeight a + GetTxWeight e
              + sum_with GetTransactionWeight (valueTransfers t))
    /\ nBlockSigOpsCost a'
       = u64 (nBlockSigOpsCost a + GetSigOpCost e
              + sum_with GetLegacySigOpCount (valueTransfers t)
              - GetLegacySigOpCount old + GetLegacySigOpCount rebuilt)
    /\ bceResult a'
       = {| usedGas := u64 (usedGas (bceResult a) + usedGas t);
            refundSender := s64 (refundSender (bceResult a) + refundSender t);
            refundOutputs := refundOutputs (bceResult a) ++ refundOutputs t;
            valueTransfers := [] |}
    /\ originalRewardTx a' = originalRewardTx a
    /\ nHeight a' = nHeight a
    /\ header (block (pblocktemplate a')) = header (block (pblocktemplate a)).
Proof.
  intros k e Hold Hc. rewrite commit_contract_unfold in Hc. cbv zeta in Hc.
  match type of Hc with
  | context [fold_left push_valueTransfer ?ts ?b] =>
      destruct (push_valueTransfers_fields ts b) as (Hf & Hv & Hw & Hn);
      set (a3 := fold_left push_valueTransfer ts b) in *
  end.
  simpl in Hf, Hv, Hw, Hn.
  unfold transfer_frame in Hf. simpl in Hf.
  rewrite add_transfer_costs_sum in Hw. rewrite count_up_u64 in Hn.
  injection Hf as Hfees Hsig Hhdr Hnf Hib Hbce Horig Hh.
  injection Hw as Hw Hs.
  rewrite SelectorFacts.block_vtx_AddToBlock in Hv.
  change (block_vtx (set_bceResult _ a)) with (block_vtx a) in Hv.
  unfold Selector.tx_ref in Hv. rewrite <- app_assoc in Hv. simpl in Hv.
  assert (Hk : refund_index (block (pblocktemplate a3)) = k).
  { unfold refund_index, IsProofOfStake. rewrite Hhdr. reflexivity. }
  assert (Hold3 : deref_vtx (block (pblocktemplate a3)) k = Some old).
  { unfold deref_vtx. fold (block_vtx a3). rewrite Hv.
    unfold deref_vtx in Hold. fold (block_vtx a) in Hold.
    destruct (block_vtx a !! k) as [r|] eqn:Hr; [|discriminate].
    rewrite (lookup_app_l_Some _ _ _ _ Hr). exact Hold. }
  rewrite Hold3 in Hc. cbn [mbind option_bind] in Hc.
  set (a4 := set_nBlockSigOpsCost
               (u64 (nBlockSigOpsCost a3 - GetLegacySigOpCount old)) a3) in *.
  destruct (RebuildRefundTransaction a4) as [a5|] eqn:Hreb; [|discriminate].
  cbn [mbind option_bind] in Hc.
  destruct (AssemblerMore.RebuildRefundTransaction_Some_inv a4 a5 Hreb) as (o & Ho & Hlt).
  rewrite (AssemblerFacts.RebuildRefundTransaction_eq a4 o Ho Hlt) in Hreb.
  injection Hreb as <-.
  change (refund_index (block (pblocktemplate a4)))
    with (refund_index (block (pblocktemplate a3))) in *.
  change (originalRewardTx a4) with (originalRewardTx a3) in *.
  change (block_vtx a4) with (block_vtx a3) in *.
  change (refundOutputs (bceResult a4)) with (refundOutputs (bceResult a3)) in *.
  rewrite Hk in *. rewrite Horig in *.
  match type of Hc with
  | context [deref_vtx (block (pblocktemplate (set_block_vtx ?v a4))) k] =>
      change (deref_vtx (block (pblocktemplate (set_block_vtx v a4))) k)
        with (mjoin (v !! k)) in Hc
  end.
  rewrite list_lookup_insert_eq in Hc by exact Hlt.
  cbn [mjoin option_join mbind option_bind] in Hc.
  injection Hc as <-.
  assert (Hval : reward_value a4
                 = s64 (s64 (s64 (nFees a + GetFee e) + GetBlockSubsidy (nHeight a))
                        - s64 (refundSender (bceResult a) + refundSender t))).
  { unfold reward_value.
    change (nFees a4) with (nFees a3). change (nHeight a4) with (nHeight a3).
    change (bceResult a4) with (bceResult a3). rewrite Hnf, Hh, Hbce. reflexivity. }
  rewrite Hval, Hbce, Hv. cbn [refundOutputs].
  exists o. eexists. split; [exact Ho|]. split; [reflexivity|].
  split; [reflexivity|].
  split; [exact Hfees|]. split; [exact Hsig|]. split; [exact Hib|].
  split; [exact Hnf|]. split; [exact Hn|]. split; [exact Hw|].
  split.
  - change (nBlockSigOpsCost (set_bceResult ?r (set_nBlockSigOpsCost ?x ?y))) with x.
    change (nBlockSigOpsCost (set_block_vtx ?v a4)) with (nBlockSigOpsCost a4).
    change (nBlockSigOpsCost a4)
      with (u64 (nBlockSigOpsCost a3 - GetLegacySigOpCount old)).
    rewrite u64_add_u64_l, Hs. apply u64_sub_add_u64.
  - split; [reflexivity|].
    split; [exact Horig|]. split; [exact Hh | exact Hhdr].
Qed.

(** X11.  When [AttemptToAddContractToBlock] returns true, the VM has run
    and the global state is the one it left.  The block's transaction list
    has grown by the contract transaction followed by the VM's value
    transfers, with the reward slot rewritten; the fee and sigops vectors
    have grown by one entry only, so they are shorter than the transaction
    list by the number of value transfers.  [inBlock] has gained the entry,
    [nFees] its fee, and [nBlockTx] counts the contract transaction and
    every value transfer. *)
Theorem AttemptToAddContractToBlock_commit_grows_block
    (amb : Ambient) (a : BlockAssembler) (globalState : QtumState) (it : txiter)
    (minGasPrice : Z) (a' : BlockAssembler) (globalState' : QtumState) :
  AttemptToAddContractToBlock amb a globalState it minGasPrice
    = Some (true, a', globalState') ->
  let k := refund_index (block (pblocktemplate a)) in
  let e := entry it in
  exists qs gs1 t rebuilt,
    extractionQtumTransactions (GetSharedTx e) (block_vtx a)
      (GetContractScriptFlags (nHeight a)) = Some qs
    /\ performByteCode globalState (block (pblocktemplate a)) qs (hardBlockGasLimit a)
       = (true, gs1)
    /\ processingResults gs1 (block (pblocktemplate a)) qs (hardBlockGasLimit a)
       = (Some t, globalState')
    /\ block_vtx a'
       = <[k := Some rebuilt]>
           (block_vtx a ++ Some (GetSharedTx e) :: map Some (valueTransfers t))
    /\ length (block_vtx a')
       = (length (block_vtx a) + 1 + length (valueTransfers t))%nat
    /\ vTxFees (pblocktemplate a') = vTxFees (pblocktemplate a) ++ [GetFee e]
    /\ vTxSigOpsCost (pblocktemplate a')
       = vTxSigOpsCost (pblocktemplate a) ++ [GetSigOpCost e]
    /\ inBlock a' = {[it]} ∪ inBlock a
    /\ nFees a' = s64 (nFees a + GetFee e)
    /\ nBlockTx a' = u64 (nBlockTx a + 1 + Z.of_nat (length (valueTransfers t))).
Proof.
  intros Hr k e.
  apply AttemptToAddContractToBlock_committed in Hr
    as (qs & gs1 & t & old & Hx & Hp & Hq & Hold & _ & Hc).
  destruct (commit_contract_fields a it t a' old Hold Hc)
    as (o & rebuilt & _ & _ & Hv & Hf & Hs & Hib & Hnf & Hn & _).
  exists qs, gs1, t, rebuilt.
  split; [exact Hx|]. split; [exact Hp|]. split; [exact Hq|].
  split; [exact Hv|]. split.
  { rewrite Hv, length_insert, length_app. simpl. rewrite length_map. lia. }
  split; [exact Hf|]. split; [exact Hs|]. split; [exact Hib|].
  split; [exact Hnf | exact Hn].
Qed.

(** X12.  When [AttemptToAddContractToBlock] returns true, the reward slot
    of the block holds [originalRewardTx] with the value at the reward index
    set to subsidy plus the fees collected so far minus the refunds to
    senders, followed by every refund output accumulated so far, those of
    earlier contracts first.  No value transfer is left pending. *)
Theorem AttemptToAddContractToBlock_commit_rebuilds_reward
    (amb : Ambient) (a : BlockAssembler) (globalState : QtumState) (it : txiter)
    (minGasPrice : Z) (a' : BlockAssembler) (globalState' : QtumState) :
  AttemptToAddContractToBlock amb a globalState it minGasPrice
    = Some (true, a', globalState') ->
  let k := refund_index (block (pblocktemplate a')) in
  exists o extra,
    vout (originalRewardTx a') !! k = Some o
    /\ block_vtx a' !! k
       = Some (Some (set_vout
                       (<[k := set_nValue (reward_value a') o]>
                          (vout (originalRewardTx a'))
                        ++ refundOutputs (bceResult a'))
                       (originalRewardTx a')))
    /\ refundOutputs (bceResult a') = refundOutputs (bceResult a) ++ extra
    /\ valueTransfers (bceResult a') = []
    /\ originalRewardTx a' = originalRewardTx a.
Proof.
  intros Hr k.
  apply AttemptToAddContractToBlock_committed in Hr
    as (qs & gs1 & t & old & _ & _ & _ & Hold & _ & Hc).
  destruct (commit_contract_fields a it t a' old Hold Hc)
    as (o & rebuilt & Ho & Hreb & Hv & _ & _ & _ & Hnf & _ & _ & _ & Hb & Horig & Hh & Hhdr).
  assert (Hk : k = refund_index (block (pblocktemplate a))).
  { subst k. unfold refund_index, IsProofOfStake. rewrite Hhdr. reflexivity. }
  exists o, (refundOutputs t).
  rewrite Hk, Horig.
  split; [exact Ho|]. split.
  - rewrite Hv, list_lookup_insert_eq.
    + rewrite Hreb. unfold reward_value. rewrite Hnf, Hh, Hb. simpl.
      rewrite app_assoc. reflexivity.
    + rewrite length_app. unfold deref_vtx in Hold.
      change (vtx (block (pblocktemplate a))) with (block_vtx a) in Hold.
      destruct (block_vtx a !! refund_index (block (pblocktemplate a))) eqn:Hl;
        [|discriminate].
      apply lookup_lt_Some in Hl. eapply Nat.lt_le_trans; [exact Hl | apply Nat.le_add_r].
  - rewrite Hb. simpl. repeat split; reflexivity.
Qed.

(** X13.  When [AttemptToAddContractToBlock] returns true, the weight it
    checked on its local copy is the weight it committed: [nBlockWeight] is
    at most [dgpMaxBlockWeight] afterwards.  (The check is against the DGP
    limit, not against [nBlockMaxWeight].) *)
Theorem AttemptToAddContractToBlock_commit_within_dgp_weight
    (amb : Ambient) (a : BlockAssembler) (globalState : QtumState) (it : txiter)
    (minGasPrice : Z) (a' : BlockAssembler) (globalState' : QtumState) :
  AttemptToAddContractToBlock amb a globalState it minGasPrice
    = Some (true, a', globalState') ->
  0 <= nBlockWeight a' <= dgpMaxBlockWeight.
Proof.
  intros Hr.
  apply AttemptToAddContractToBlock_committed in Hr
    as (qs & gs1 & t & old & _ & _ & _ & Hold & Hw & Hc).
  destruct (commit_contract_fields a it t a' old Hold Hc)
    as (o & rebuilt & _ & _ & _ & _ & _ & _ & _ & _ & Hwa & _).
  rewrite add_transfer_costs_sum in Hw. simpl in Hw.
  rewrite Hwa. split; [|exact Hw].
  apply Z.mod_pos_bound. reflexivity.
Qed.
End WithCollaborators.

Section OnTheSample.
#[local] Existing Instance Sample.chain.
#[local] Existing Instance Sample.mempool.
#[local] Existing Instance Sample.vm.

Lemma sample_committed :
  AttemptToAddContractToBlock Sample.ambient Sample.a0 Sample.gs0 3%N 40
  = Some (true, Sample.committed.1, Sample.committed.2).
Proof. vm_compute. reflexivity. Defined.

Lemma AttemptToAddContractToBlock_commit_grows_block_witness :
  let a := Sample.a0 in
  let a' := Sample.committed.1 in
  let k := refund_index (block (pblocktemplate a)) in
  let e := entry 3%N in
  AttemptToAddContractToBlock Sample.ambient a Sample.gs0 3%N 40
    = Some (true, a', Sample.committed.2)
  /\ exists qs gs1 t rebuilt,
      extractionQtumTransactions (GetSharedTx e) (block_vtx a)
        (GetContractScriptFlags (nHeight a)) = Some qs
      /\ performByteCode Sample.gs0 (block (pblocktemplate a)) qs (hardBlockGasLimit a)
         = (true, gs1)
      /\ processingResults gs1 (block (pblocktemplate a)) qs (hardBlockGasLimit a)
         = (Some t, Sample.committed.2)
      /\ block_vtx a'
         = <[k := Some rebuilt]>
             (block_vtx a ++ Some (GetSharedTx e) :: map Some (valueTransfers t))
      /\ length (block_vtx a')
         = (length (block_vtx a) + 1 + length (valueTransfers t))%nat
      /\ vTxFees (pblocktemplate a') = vTxFees (pblocktemplate a) ++ [GetFee e]
      /\ vTxSigOpsCost (pblocktemplate a')
         = vTxSigOpsCost (pblocktemplate a) ++ [GetSigOpCost e]
      /\ inBlock a' = {[3%N]} ∪ inBlock a
      /\ nFees a' = s64 (nFees a + GetFee e)
      /\ nBlockTx a' = u64 (nBlockTx a + 1 + Z.of_nat (length (valueTransfers t))).
Proof.
  intros a a' k e. split; [exact sample_committed|].
  exact (AttemptToAddContractToBlock_commit_grows_block Sample.ambient a Sample.gs0
           3%N 40 a' Sample.committed.2 sample_committed).
Defined.

Lemma AttemptToAddContractToBlock_commit_rebuilds_reward_witness :
  let a := Sample.a0 in
  let a' := Sample.committed.1 in
  let k := refund_index (block (pblocktemplate a')) in
  AttemptToAddContractToBlock Sample.ambient a Sample.gs0 3%N 40
    = Some (true, a', Sample.committed.2)
  /\ exists o extra,
      vout (originalRewardTx a') !! k = Some o
      /\ block_vtx a' !! k
         = Some (Some (set_vout
                         (<[k := set_nValue (reward_value a') o]>
                            (vout (originalRewardTx a'))
                          ++ refundOutputs (bceResult a'))
                         (originalRewardTx a')))
      /\ refundOutputs (bceResult a') = refundOutputs (bceResult a) ++ extra
      /\ valueTransfers (bceResult a') = []
      /\ originalRewardTx a' = originalRewardTx a.
Proof.
  intros a a' k. split; [exact sample_committed|].
  exact (AttemptToAddContractToBlock_commit_rebuilds_reward Sample.ambient a Sample.gs0
           3%N 40 a' Sample.committed.2 sample_committed).
Defined.

Lemma AttemptToAddContractToBlock_commit_within_dgp_weight_witness :
  AttemptToAddContractToBlock Sample.ambient Sample.a0 Sample.gs0 3%N 40
    = Some (true, Sample.committed.1, Sample.committed.2)
  /\ 0 <= nBlockWeight Sample.committed.1 <= dgpMaxBlockWeight.
Proof.
  split; [exact sample_committed|].
  exact (AttemptToAddContractToBlock_commit_within_dgp_weight Sample.ambient Sample.a0
           Sample.gs0 3%N 40 Sample.committed.1 Sample.committed.2 sample_committed).
Defined.
End OnTheSample.
End AttemptFacts.

(** ** More on package selection *)

Module SelectorMore.
Import Assembler Selector SelectorFacts SelectorView AssemblerView.

Section WithCollaborators.
Context `{Chain} `{MemPool} `{ContractVM}.

(** X14.  [SortForBlock] returns the package itself, every entry once,
    ordered by ancestor count and, among equal counts, by hash. *)
Theorem SortForBlock_sorts_package (package : gset txiter) :
  SortForBlock package ≡ₚ elements package
  /\ NoDup (SortForBlock package)
  /\ forall i j x y,
      SortForBlock package !! i = Some x ->
      SortForBlock package !! j = Some y ->
      (i < j)%nat ->
      GetCountWithAncestors (entry x) < GetCountWithAncestors (entry y)
      \/ (GetCountWithAncestors (entry x) = GetCountWithAncestors (entry y)
          /\ (x < y)%N).
Proof.
  assert (Hnd : NoDup (SortForBlock package)).
  { rewrite SortForBlock_perm. apply NoDup_elements. }
  split; [apply SortForBlock_perm|]. split; [exact Hnd|].
  intros i j x y Hi Hj Hij.
  pose proof (StronglySorted_lookup_lt not_after _ i j x y
                (SortForBlock_sorted package) Hi Hj Hij) as Hxy.
  apply not_after_spec in Hxy. destruct Hxy as [Hlt | [Heq Hle]]; [left; exact Hlt|].
  right. split; [exact Heq|].
  assert (x <> y).
  { intros ->. pose proof (NoDup_lookup _ i j y Hnd Hi Hj). lia. }
  lia.
Qed.

Lemma AddToBlock_fields a it :
  let e := entry it in
  vTxFees (pblocktemplate (AddToBlock a it)) = vTxFees (pblocktemplate a) ++ [GetFee e]
  /\ vTxSigOpsCost (pblocktemplate (AddToBlock a it))
     = vTxSigOpsCost (pblocktemplate a) ++ [GetSigOpCost e]
  /\ nBlockTx (AddToBlock a it) = u64 (nBlockTx a + 1)
  /\ nBlockWeight (AddToBlock a it) = u64 (nBlockWeight a + GetTxWeight e)
  /\ nBlockSigOpsCost (AddToBlock a it) = u64 (nBlockSigOpsCost a + GetSigOpCost e)
  /\ nFees (AddToBlock a it) = s64 (nFees a + GetFee e)
  /\ AddToBlock_frame (AddToBlock a it) = AddToBlock_frame a.
Proof. repeat split; reflexivity. Qed.

Lemma fold_AddToBlock_fields (order : list txiter) : forall a,
  let a' := fold_left AddToBlock order a in
  vTxFees (pblocktemplate a')
  = vTxFees (pblocktemplate a) ++ map (λ it, GetFee (entry it)) order
  /\ vTxSigOpsCost (pblocktemplate a')
     = vTxSigOpsCost (pblocktemplate a) ++ map (λ it, GetSigOpCost (entry it)) order
  /\ u64 (nBlockTx a') = u64 (nBlockTx a + Z.of_nat (length order))
  /\ u64 (nBlockWeight a')
     = u64 (nBlockWeight a + sum_with (λ it, GetTxWeight (entry it)) order)
  /\ u64 (nBlockSigOpsCost a')
     = u64 (nBlockSigOpsCost a + sum_with (λ it, GetSigOpCost (entry it)) order)
  /\ s64 (nFees a') = s64 (nFees a + sum_with (λ it, GetFee (entry it)) order)
  /\ AddToBlock_frame a' = AddToBlock_frame a.
Proof.
  induction order as [|it order IH]; intros a; cbn zeta.
  - simpl. rewrite !app_nil_r, !Z.add_0_r. repeat split; reflexivity.
  - simpl fold_left.
    destruct (IH (AddToBlock a it)) as (Hf & Hs & Hn & Hw & Hc & Hfee & Hfr).
    destruct (AddToBlock_fields a it) as (Hf1 & Hs1 & Hn1 & Hw1 & Hc1 & Hfee1 & Hfr1).
    rewrite Hf, Hs, Hn, Hw, Hc, Hfee, Hfr.
    rewrite Hf1, Hs1, Hn1, Hw1, Hc1, Hfee1, Hfr1.
    rewrite !u64_add_u64_l, s64_add_s64_l.
    simpl. rewrite <- !app_assoc. simpl.
    split; [reflexivity|]. split; [reflexivity|].
    split; [f_equal; lia|]. split; [f_equal; lia|].
    split; [f_equal; lia|]. split; [f_equal; lia | reflexivity].
Qed.

Lemma u64_fits x : fits_u64 (u64 x).
Proof. apply Z.mod_pos_bound. reflexivity. Qed.

Lemma s64_fits x : fits_s64 (s64 x).
Proof.
  unfold fits_s64, s64.
  pose proof (Z.mod_pos_bound (x + 2 ^ 63) (2 ^ 64) eq_refl). lia.
Qed.

(** X15.  A run of [AddToBlock] calls appends one transaction, one fee and
    one sigops entry per call, so the three vectors of the template stay in
    step; the counters are the wrapped sums over the entries added:
    [nBlockTx] their number, [nBlockWeight] their weights, [nBlockSigOpsCost]
    their sigops costs and [nFees] their fees.  The header, the limits, the
    height, the lock-time cutoff, [bceResult] and [originalRewardTx] are
    not written. *)
Theorem AddToBlock_sequence_accounting (a : BlockAssembler) (order : list txiter) :
  fits_u64 (nBlockTx a) ->
  fits_u64 (nBlockWeight a) ->
  fits_u64 (nBlockSigOpsCost a) ->
  fits_s64 (nFees a) ->
  let a' := fold_left AddToBlock order a in
  block_vtx a' = block_vtx a ++ map tx_ref order
  /\ vTxFees (pblocktemplate a')
     = vTxFees (pblocktemplate a) ++ map (λ it, GetFee (entry it)) order
  /\ vTxSigOpsCost (pblocktemplate a')
     = vTxSigOpsCost (pblocktemplate a) ++ map (λ it, GetSigOpCost (entry it)) order
  /\ inBlock a' = list_to_set order ∪ inBlock a
  /\ nBlockTx a' = u64 (nBlockTx a + Z.of_nat (length order))
  /\ nBlockWeight a'
     = u64 (nBlockWeight a + sum_with (λ it, GetTxWeight (entry it)) order)
  /\ nBlockSigOpsCost a'
     = u64 (nBlockSigOpsCost a + sum_with (λ it, GetSigOpCost (entry it)) order)
  /\ nFees a' = s64 (nFees a + sum_with (λ it, GetFee (entry it)) order)
  /\ AddToBlock_frame a' = AddToBlock_frame a.
Proof.
  intros Hn Hw Hc Hfee a'.
  assert (Hfit : fits_u64 (nBlockTx a') /\ fits_u64 (nBlockWeight a')
                 /\ fits_u64 (nBlockSigOpsCost a') /\ fits_s64 (nFees a')).
  { subst a'. destruct order as [|it order _] using rev_ind.
    - simpl. exact (conj Hn (conj Hw (conj Hc Hfee))).
    - rewrite fold_left_app. cbn [fold_left].
      destruct (AddToBlock_fields (fold_left AddToBlock order a) it)
        as (_ & _ & -> & -> & -> & -> & _).
      exact (conj (u64_fits _) (conj (u64_fits _) (conj (u64_fits _) (s64_fits _)))). }
  destruct Hfit as (Hn' & Hw' & Hc' & Hfee').
  destruct (fold_AddToBlock order a) as [Hv Hib].
  destruct (fold_AddToBlock_fields order a) as (Hf & Hs & En & Ew & Ec & Efee & Hfr).
  fold a' in Hv, Hib, Hf, Hs, En, Ew, Ec, Efee, Hfr.
  rewrite (u64_id _ Hn') in En. rewrite (u64_id _ Hw') in Ew.
  rewrite (u64_id _ Hc') in Ec. rewrite (s64_id _ Hfee') in Efee.
  repeat (split; [assumption|]). assumption.
Qed.
(** How one pass ends, case by case. *)
Lemma step_cases (s : Selection) :
  (step s = Exhausted s /\ mi s = [] /\ mapModifiedTx s = [])
  \/ (exists it rest, mi s = it :: rest /\ step s = Continue (advance s rest))
  \/ step s = AssertFail
  \/ exists it modit mi',
      choose_candidate s = Some (it, modit, mi')
      /\ (it ∉ inBlock (asm s))
      /\ let d := drop_failed (bool_decide (is_Some modit)) it s in
         (exists n, step s = Return (with_locals s mi' (mapModifiedTx s) (failedTx s) n))
         \/ (exists n, step s = Break (with_locals s mi' d.1 d.2 n))
         \/ (exists n, step s = Continue (with_locals s mi' d.1 d.2 n))
         \/ (step s = Continue (included s it mi')
             /\ TestPackageTransactions (asm s) (package_of (asm s) it) = true).
Proof.
  destruct (reaches_body s) eqn:Hb.
  2:{ destruct (step_skip s Hb) as [He | (it & rest & Hmi & He)].
      - left. split; [exact He|].
        unfold reaches_body in Hb. unfold step in He.
        destruct (mi s) as [|it rest]; [|destruct (stale s it); discriminate].
        destruct (mapModifiedTx s); [split; reflexivity | discriminate].
      - right. left. exists it, rest. split; assumption. }
  right. right. rewrite (step_body s Hb). unfold body.
  destruct (choose_candidate s) as [[[it modit] mi']|]; [|left; reflexivity].
  rewrite evaluate_unfold. cbv zeta.
  destruct (bool_decide (it ∈ inBlock (asm s))) eqn:Hin; [left; reflexivity|].
  apply bool_decide_eq_false_1 in Hin.
  right. exists it, modit, mi'. split; [reflexivity|]. split; [exact Hin|].
  destruct (packageFees_of it modit <? _).
  { left. eexists. reflexivity. }
  destruct (negb (TestPackage _ _ _)).
  { destruct (_ && _).
    - right. left. eexists. reflexivity.
    - right. right. left. eexists. reflexivity. }
  destruct (negb (TestPackageTransactions _ _)) eqn:Ht.
  { right. right. left. eexists. reflexivity. }
  right. right. right. split; [reflexivity|].
  apply negb_false_iff in Ht. exact Ht.
Qed.

(** The entries a pass appends: none, or the sorted package. *)
Lemma step_appends s s' :
  result_state (step s) = Some s' ->
  asm s' = asm s
  \/ exists it,
       (it ∉ inBlock (asm s))
       /\ TestPackageTransactions (asm s) (package_of (asm s) it) = true
       /\ asm s' = fold_left AddToBlock (SortForBlock (package_of (asm s) it)) (asm s).
Proof.
  intros Hr.
  destruct (step_cases s) as [(He & _) | [(it & rest & _ & He) | [He | Hc]]].
  - rewrite He in Hr. injection Hr as <-. left. reflexivity.
  - rewrite He in Hr. injection Hr as <-. left. reflexivity.
  - rewrite He in Hr. discriminate.
  - destruct Hc as (it & modit & mi' & _ & Hin & Hc). cbv zeta in Hc.
    destruct Hc as [[n He] | [[n He] | [[n He] | [He Ht]]]];
      rewrite He in Hr; injection Hr as <-; try (left; reflexivity).
    right. exists it. split; [exact Hin|]. split; [exact Ht | reflexivity].
Qed.

Lemma TestPackageTransactions_final a P x :
  TestPackageTransactions a P = true -> x ∈ P -> final_for a x.
Proof.
  unfold TestPackageTransactions, final_for. intros Ht Hx.
  rewrite forallb_forall in Ht. apply Ht.
  apply list_elem_of_In, elem_of_setEntries_iterate. exact Hx.
Qed.

Lemma fold_AddToBlock_frame l a :
  AddToBlock_frame (fold_left AddToBlock l a) = AddToBlock_frame a.
Proof. apply (fold_AddToBlock_fields l a). Qed.

Lemma final_for_frame a a' x :
  AddToBlock_frame a' = AddToBlock_frame a -> final_for a' x -> final_for a x.
Proof.
  unfold AddToBlock_frame, final_for. intros Hf Hx.
  injection Hf as _ _ _ Hh Hc _ _ _ _ _ _. rewrite <- Hh, <- Hc. exact Hx.
Qed.

(** What the block has gained since [a]: a run of [AddToBlock] calls on
    distinct entries that were not in the block and are all final. *)
Lemma step_trace a s order s' :
  asm s = fold_left AddToBlock order a ->
  NoDup order ->
  (forall x, x ∈ order -> x ∉ inBlock a) ->
  Forall (final_for a) order ->
  result_state (step s) = Some s' ->
  exists order',
    asm s' = fold_left AddToBlock order' a
    /\ NoDup order'
    /\ (forall x, x ∈ order' -> x ∉ inBlock a)
    /\ Forall (final_for a) order'.
Proof.
  intros Ha Hnd Hout Hfin Hr.
  destruct (step_appends s s' Hr) as [He | (it & Hin & Ht & He)].
  { exists order. rewrite He. repeat split; assumption. }
  set (l := SortForBlock (package_of (asm s) it)) in *.
  assert (Hl : forall x, x ∈ l -> x ∉ inBlock (asm s)).
  { intros x Hx. apply elem_of_SortForBlock in Hx.
    apply elem_of_package_of in Hx as [-> | [_ Hx]]; assumption. }
  assert (Hib : inBlock (asm s) = list_to_set order ∪ inBlock a).
  { rewrite Ha. apply fold_AddToBlock. }
  exists (order ++ l). split; [|split; [|split]].
  - rewrite He, Ha, fold_left_app. reflexivity.
  - apply NoDup_app. split; [exact Hnd|]. split.
    + intros x Hx Hx'. apply (Hl x Hx'). rewrite Hib.
      apply elem_of_union. left. apply elem_of_list_to_set. exact Hx.
    + unfold l. rewrite SortForBlock_perm. apply NoDup_elements.
  - intros x Hx. apply elem_of_app in Hx as [Hx | Hx]; [apply Hout; exact Hx|].
    intros Hxa. apply (Hl x Hx). rewrite Hib. apply elem_of_union. right. exact Hxa.
  - apply Forall_app. split; [exact Hfin|].
    apply Forall_forall. intros x Hx.
    apply (final_for_frame a (asm s)).
    { rewrite Ha. apply fold_AddToBlock_frame. }
    apply (TestPackageTransactions_final _ _ _ Ht).
    apply elem_of_SortForBlock. exact Hx.
Qed.

Lemma iterate_trace a fuel : forall s order s',
  asm s = fold_left AddToBlock order a ->
  NoDup order ->
  (forall x, x ∈ order -> x ∉ inBlock a) ->
  Forall (final_for a) order ->
  result_state (iterate fuel s) = Some s' ->
  exists order',
    asm s' = fold_left AddToBlock order' a
    /\ NoDup order'
    /\ (forall x, x ∈ order' -> x ∉ inBlock a)
    /\ Forall (final_for a) order'.
Proof.
  induction fuel as [|fuel IH]; intros s order s' Ha Hnd Hout Hfin Hr.
  - injection Hr as <-. exists order. repeat split; assumption.
  - simpl in Hr. destruct (step s) as [s1| | | |] eqn:Hstep;
      try (apply (step_trace a s order s' Ha Hnd Hout Hfin); rewrite Hstep; exact Hr).
    destruct (step_trace a s order s1 Ha Hnd Hout Hfin)
      as (order1 & Ha1 & Hnd1 & Hout1 & Hfin1); [rewrite Hstep; reflexivity|].
    exact (IH s1 order1 s' Ha1 Hnd1 Hout1 Hfin1 Hr).
Qed.

(** X16.  Whatever [addPackageTxs] has done to the assembler after any
    number of passes, it has done by calling [AddToBlock]: the assembler is
    the one at entry with [AddToBlock] applied to a sequence of entries.  No
    entry occurs twice in it, none was in the block at entry, and each has
    passed the finality test for the block's height and lock-time cutoff. *)
Theorem addPackageTxs_is_a_run_of_AddToBlock (fuel : nat) (a : BlockAssembler)
    (nPackagesSelected0 nDescendantsUpdated0 : Z) (s' : Selection) :
  result_state (addPackageTxs fuel a nPackagesSelected0 nDescendantsUpdated0) = Some s' ->
  exists order : list txiter,
    asm s' = fold_left AddToBlock order a
    /\ NoDup order
    /\ (forall it, it ∈ order -> it ∉ inBlock a)
    /\ forall it, it ∈ order ->
         IsFinalTx (GetSharedTx (entry it)) (nHeight a) (m_lock_time_cutoff a) = true.
Proof.
  intros Hr.
  destruct (iterate_trace a fuel (enter a nPackagesSelected0 nDescendantsUpdated0) [] s')
    as (order & Ha & Hnd & Hout & Hfin).
  - reflexivity.
  - apply NoDup_nil_2.
  - intros x Hx. apply elem_of_nil in Hx. contradiction.
  - apply Forall_nil_2.
  - exact Hr.
  - exists order. split; [exact Ha|]. split; [exact Hnd|]. split; [exact Hout|].
    intros it Hit. rewrite Forall_forall in Hfin. apply Hfin. exact Hit.
Qed.
Lemma appended_at_entry a : inBlock a = ∅ -> appended_in_order a a [].
Proof.
  intros Hempty. split.
  - simpl. rewrite app_nil_r. reflexivity.
  - constructor.
  - intros it. rewrite Hempty. split; intros Hx.
    + apply elem_of_empty in Hx. contradiction.
    + inversion Hx.
  - intros i T A Hi. rewrite lookup_nil in Hi. discriminate.
Qed.

Lemma iterate_outside a0 fuel : forall s order s',
  consistent_ancestors -> consistent_descendants ->
  appended_in_order a0 (asm s) order ->
  overlay_outside_block s ->
  result_state (iterate fuel s) = Some s' ->
  overlay_outside_block s'.
Proof.
  induction fuel as [|fuel IH]; intros s order s' Hanc Hdesc Hinv Hov Hr.
  - injection Hr as <-. exact Hov.
  - simpl in Hr. destruct (step_safe a0 s order Hdesc Hinv Hov) as [_ Hnext].
    destruct (step s) as [s1| | | |] eqn:Hstep; try (apply Hnext; exact Hr).
    destruct (step_in_order a0 s order s1 Hanc Hinv) as [order1 Hinv1];
      [rewrite Hstep; reflexivity|].
    apply (IH s1 order1 s' Hanc Hdesc Hinv1); [|exact Hr].
    apply Hnext. reflexivity.
Qed.

(** X17.  On a mempool whose ancestor and descendant sets describe one
    dependency relation, [addPackageTxs] entered with an empty [inBlock]
    never fails the assertion of line 568, and after any number of passes
    [mapModifiedTx] holds no record of an entry that is in the block. *)
Theorem addPackageTxs_overlay_outside_block (fuel : nat) (a : BlockAssembler)
    (nPackagesSelected0 nDescendantsUpdated0 : Z) :
  consistent_ancestors -> consistent_descendants ->
  inBlock a = ∅ ->
  addPackageTxs fuel a nPackagesSelected0 nDescendantsUpdated0 <> AssertFail
  /\ forall s',
      result_state (addPackageTxs fuel a nPackagesSelected0 nDescendantsUpdated0)
        = Some s' ->
      forall e, e ∈ mapModifiedTx s' -> iter e ∉ inBlock (asm s').
Proof.
  intros Hanc Hdesc Hempty.
  assert (Hov : overlay_outside_block (enter a nPackagesSelected0 nDescendantsUpdated0)).
  { intros e He. simpl in He. inversion He. }
  split.
  - apply (iterate_safe a fuel _ [] Hanc Hdesc); [|exact Hov].
    apply appended_at_entry. exact Hempty.
  - intros s' Hr.
    apply (iterate_outside a fuel (enter a nPackagesSelected0 nDescendantsUpdated0)
             [] s' Hanc Hdesc); [|exact Hov|exact Hr].
    apply appended_at_entry. exact Hempty.
Qed.

(** *** Termination *)

Lemma length_overlay_erase x m : (length (overlay_erase x m) <= length m)%nat.
Proof. apply List.filter_length_le. Qed.

Lemma length_overlay_erase_head x e m :
  head m = Some e -> iter e = x -> (length (overlay_erase x m) < length m)%nat.
Proof.
  destruct m as [|e' m]; [discriminate|]. intros [= ->] <-.
  unfold overlay_erase. simpl. rewrite N.eqb_refl. simpl.
  pose proof (List.filter_length_le (λ e0, negb (iter e0 =? iter e)%N) m). lia.
Qed.

Lemma choose_candidate_inv s it modit mi' :
  choose_candidate s = Some (it, modit, mi') ->
  match modit with
  | Some m => head (mapModifiedTx s) = Some m /\ iter m = it /\ mi' = mi s
  | None => mi s = it :: mi'
  end.
Proof.
  unfold choose_candidate. destruct (mi s) as [|x rest].
  - destruct (head (mapModifiedTx s)) as [m|]; [|discriminate].
    simpl. intros [= <- <- <-]. repeat split; reflexivity.
  - destruct (head (mapModifiedTx s)) as [m|].
    + destruct (CompareModifiedEntry m (modified_of x)).
      * intros [= <- <- <-]. repeat split; reflexivity.
      * intros [= <- <- <-]. reflexivity.
    + intros [= <- <- <-]. reflexivity.
Qed.

Lemma update_descendant_indexed alreadyAdded it acc desc :
  desc ∈ mapTx_by_score ->
  (forall e, e ∈ acc.2 -> iter e ∈ mapTx_by_score) ->
  forall e, e ∈ (update_descendant alreadyAdded it acc desc).2 -> iter e ∈ mapTx_by_score.
Proof.
  intros Hd Hacc e. unfold update_descendant.
  destruct (bool_decide (desc ∈ alreadyAdded)); [apply Hacc|].
  destruct acc as [n m]. simpl in Hacc.
  destruct (overlay_find m desc) as [mit|] eqn:Hfind; simpl; intros He.
  - apply elem_of_overlay_place in He as [-> | He].
    + simpl. rewrite (overlay_find_Some_iter _ _ _ Hfind). exact Hd.
    + apply elem_of_overlay_erase in He as [He _]. apply Hacc. exact He.
  - apply elem_of_overlay_insert in He as [-> | He]; [exact Hd | apply Hacc; exact He].
Qed.

Lemma UpdatePackagesForAdded_indexed (P : gset txiter) (m : overlay) :
  closed_index ->
  (forall x, x ∈ P -> x ∈ mapTx_by_score) ->
  (forall e, e ∈ m -> iter e ∈ mapTx_by_score) ->
  forall e, e ∈ (UpdatePackagesForAdded P m).2 -> iter e ∈ mapTx_by_score.
Proof.
  intros Hclosed HP Hm. unfold UpdatePackagesForAdded.
  apply (fold_left_invariant_in
           (λ acc : Z * overlay, forall e, e ∈ acc.2 -> iter e ∈ mapTx_by_score));
    [|exact Hm].
  intros acc it Hit Hacc.
  apply elem_of_setEntries_iterate in Hit.
  apply (fold_left_invariant_in
           (λ acc : Z * overlay, forall e, e ∈ acc.2 -> iter e ∈ mapTx_by_score));
    [|exact Hacc].
  intros acc' desc Hdesc Hacc'.
  apply elem_of_setEntries_iterate in Hdesc.
  apply update_descendant_indexed; [|exact Hacc'].
  apply (proj2 (Hclosed it (HP it Hit))). exact Hdesc.
Qed.

(** A pass that goes back to the loop condition has either put an indexed
    entry into the block, or left the block alone and shortened what is
    left under [mi] and in the overlay. *)
Lemma step_progress s s' :
  closed_index -> indexed s ->
  step s = Continue s' ->
  indexed s'
  /\ ((remaining s' < remaining s)%nat
      \/ (remaining s' = remaining s /\ (pending s' < pending s)%nat)).
Proof.
  intros Hclosed [Hmi Hov] Hstep.
  destruct (step_cases s) as [(He & _) | [(it & rest & Hmis & He) | [He | Hc]]].
  - rewrite He in Hstep. discriminate.
  - rewrite He in Hstep. injection Hstep as <-. split.
    + split; simpl.
      * intros x Hx. apply Hmi. rewrite Hmis. apply elem_of_cons. right. exact Hx.
      * exact Hov.
    + right. split; [reflexivity|]. unfold pending. simpl. rewrite Hmis. simpl. lia.
  - rewrite He in Hstep. discriminate.
  - destruct Hc as (it & modit & mi' & Hcand & Hin & Hc). cbv zeta in Hc.
    pose proof (choose_candidate_inv s it modit mi' Hcand) as Hinv.
    assert (Hit : it ∈ mapTx_by_score).
    { destruct modit as [m|].
      - destruct Hinv as (Hh & <- & _). apply Hov, overlay_head_elem. exact Hh.
      - apply Hmi. rewrite Hinv. apply elem_of_cons. left. reflexivity. }
    assert (Hmi' : forall x, x ∈ mi' -> x ∈ mapTx_by_score).
    { intros x Hx. apply Hmi. destruct modit as [m|].
      - destruct Hinv as (_ & _ & ->). exact Hx.
      - rewrite Hinv. apply elem_of_cons. right. exact Hx. }
    destruct Hc as [[n He] | [[n He] | [[n He] | [He Ht]]]];
      rewrite He in Hstep; try discriminate; injection Hstep as <-.
    + split.
      * split; simpl; [exact Hmi'|].
        intros e He'. apply drop_failed_subset in He'. apply Hov. exact He'.
      * right. split; [reflexivity|]. unfold pending. simpl.
        destruct modit as [m|].
        -- destruct Hinv as (Hh & Hm & ->). simpl.
           pose proof (length_overlay_erase_head it m _ Hh Hm). lia.
        -- simpl. rewrite Hinv. simpl. lia.
    + set (P := package_of (asm s) it).
      assert (HP : forall x, x ∈ P -> x ∈ mapTx_by_score).
      { intros x Hx. apply elem_of_package_of in Hx as [-> | [Hx _]]; [exact Hit|].
        apply (proj1 (Hclosed it Hit)). exact Hx. }
      split.
      * split; [exact Hmi'|]. simpl.
        apply (UpdatePackagesForAdded_indexed P _ Hclosed HP).
        intros e He'. apply elem_of_fold_erase in He' as [He' _]. apply Hov. exact He'.
      * left. unfold remaining.
        change (asm (included s it mi'))
          with (fold_left AddToBlock (SortForBlock P) (asm s)).
        destruct (fold_AddToBlock (SortForBlock P) (asm s)) as [_ ->].
        apply subset_size. apply strict_spec_alt. split.
        -- intros x. rewrite !elem_of_difference, elem_of_union. tauto.
        -- intros Heq.
           assert (Hx : it ∈ (list_to_set mapTx_by_score ∖ inBlock (asm s) : gset txiter)).
           { apply elem_of_difference. split; [|exact Hin].
             apply elem_of_list_to_set. exact Hit. }
           rewrite <- Heq in Hx. apply elem_of_difference in Hx as [_ Hx].
           apply Hx, elem_of_union. left.
           apply elem_of_list_to_set, elem_of_SortForBlock, elem_of_package_of.
           left. reflexivity.
Qed.

Lemma iterate_leaves : forall n p s,
  closed_index -> indexed s ->
  (remaining s <= n)%nat -> (pending s <= p)%nat ->
  exists fuel, finished (iterate fuel s) = true.
Proof.
  induction n as [n IHn] using lt_wf_ind.
  induction p as [p IHp] using lt_wf_ind.
  intros s Hclosed Hidx Hn Hp.
  destruct (step s) as [s1| | | |] eqn:Hstep;
    try (exists 1%nat; simpl; rewrite Hstep; reflexivity).
  destruct (step_progress s s1 Hclosed Hidx Hstep) as [Hidx1 [Hlt | [Heq Hlt]]].
  - destruct (IHn (remaining s1) ltac:(lia) (pending s1) s1 Hclosed Hidx1)
      as [fuel Hf]; [lia | lia |].
    exists (S fuel). simpl. rewrite Hstep. exact Hf.
  - destruct (IHp (pending s1) ltac:(lia) s1 Hclosed Hidx1) as [fuel Hf]; [lia | lia |].
    exists (S fuel). simpl. rewrite Hstep. exact Hf.
Qed.

Lemma iterate_more fuel : forall s fuel',
  finished (iterate fuel s) = true ->
  (fuel <= fuel')%nat ->
  iterate fuel' s = iterate fuel s.
Proof.
  induction fuel as [|fuel IH]; intros s fuel' Hf Hle; [discriminate|].
  destruct fuel' as [|fuel']; [lia|].
  simpl in *. destruct (step s) as [s1| | | |]; try reflexivity.
  apply IH; [exact Hf | lia].
Qed.

(** X18.  [addPackageTxs] terminates on every mempool whose ancestor and
    descendant sets hold indexed entries only: some number of passes leaves
    the loop, by exhaustion, [return], [break] or the assertion, and more
    passes change nothing. *)
Theorem addPackageTxs_terminates (a : BlockAssembler)
    (nPackagesSelected0 nDescendantsUpdated0 : Z) :
  closed_index ->
  exists fuel,
    finished (addPackageTxs fuel a nPackagesSelected0 nDescendantsUpdated0) = true
    /\ forall fuel', (fuel <= fuel')%nat ->
         addPackageTxs fuel' a nPackagesSelected0 nDescendantsUpdated0
         = addPackageTxs fuel a nPackagesSelected0 nDescendantsUpdated0.
Proof.
  intros Hclosed. unfold addPackageTxs.
  set (s := enter a nPackagesSelected0 nDescendantsUpdated0).
  destruct (iterate_leaves (remaining s) (pending s) s Hclosed) as [fuel Hf].
  - split; simpl; [intros x Hx; exact Hx | intros e He; inversion He].
  - lia.
  - lia.
  - exists fuel. split; [exact Hf|].
    intros fuel' Hle. apply iterate_more; assumption.
Qed.
(** *** What [UpdatePackagesForAdded] leaves in the overlay *)

Lemma overlay_find_erase_ne x y m :
  x <> y -> overlay_find (overlay_erase x m) y = overlay_find m y.
Proof.
  intros Hne. unfold overlay_find, overlay_erase.
  induction m as [|e m IH]; simpl; [reflexivity|].
  destruct (iter e =? x)%N eqn:Ex; simpl.
  - apply N.eqb_eq in Ex.
    assert (Ey : (iter e =? y)%N = false) by (apply N.eqb_neq; congruence).
    rewrite Ey. exact IH.
  - destruct (iter e =? y)%N; [reflexivity | exact IH].
Qed.

Lemma overlay_find_place_eq e m :
  overlay_find m (iter e) = None ->
  overlay_find (overlay_place e m) (iter e) = Some e.
Proof.
  unfold overlay_find.
  induction m as [|y m IH]; simpl; intros Hm; [rewrite N.eqb_refl; reflexivity|].
  destruct (iter y =? iter e)%N eqn:Ey; [discriminate|].
  destruct (CompareModifiedEntry e y); simpl.
  - rewrite N.eqb_refl. reflexivity.
  - rewrite Ey. apply IH. exact Hm.
Qed.

Lemma overlay_find_insert_eq e m :
  overlay_find m (iter e) = None ->
  overlay_find (overlay_insert e m) (iter e) = Some e.
Proof.
  intros Hm. unfold overlay_insert.
  rewrite (proj2 (overlay_count_false m (iter e)) Hm).
  apply overlay_find_place_eq. exact Hm.
Qed.

Lemma update_descendant_find_eq alreadyAdded it acc desc :
  desc ∉ alreadyAdded ->
  overlay_find (update_descendant alreadyAdded it acc desc).2 desc
  = Some (update_for_parent_inclusion it (current acc.2 desc)).
Proof.
  intros Hd. unfold update_descendant, current.
  rewrite bool_decide_eq_false_2 by exact Hd.
  destruct acc as [n m]. simpl.
  destruct (overlay_find m desc) as [mit|] eqn:Hfind; simpl.
  - pose proof (overlay_find_Some_iter _ _ _ Hfind) as Hi.
    rewrite <- Hi at 2.
    change (iter mit) with (iter (update_for_parent_inclusion it mit)).
    apply overlay_find_place_eq. simpl. rewrite Hi. apply overlay_find_erase_eq.
  - change desc with (iter (update_for_parent_inclusion it (modified_of desc))) at 2.
    apply overlay_find_insert_eq. exact Hfind.
Qed.

Lemma update_descendant_find_ne alreadyAdded it acc desc x :
  x <> desc \/ desc ∈ alreadyAdded ->
  overlay_find (update_descendant alreadyAdded it acc desc).2 x = overlay_find acc.2 x.
Proof.
  intros Hx. unfold update_descendant.
  destruct (decide (desc ∈ alreadyAdded)) as [Hd | Hd].
  { rewrite bool_decide_eq_true_2 by exact Hd. reflexivity. }
  rewrite bool_decide_eq_false_2 by exact Hd.
  destruct Hx as [Hx | Hx]; [|contradiction].
  destruct acc as [n m]. simpl.
  destruct (overlay_find m desc) as [mit|] eqn:Hfind; simpl.
  - rewrite overlay_find_place_ne.
    + apply overlay_find_erase_ne. congruence.
    + simpl. rewrite (overlay_find_Some_iter _ _ _ Hfind). congruence.
  - apply overlay_find_insert_ne. simpl. congruence.
Qed.

(** The inner loop, seen from one entry. *)
Lemma inner_find_ne alreadyAdded it L : forall acc x,
  x ∉ L \/ x ∈ alreadyAdded ->
  overlay_find (fold_left (update_descendant alreadyAdded it) L acc).2 x
  = overlay_find acc.2 x.
Proof.
  induction L as [|d L IH]; intros acc x Hx; simpl; [reflexivity|].
  rewrite IH.
  - apply update_descendant_find_ne. destruct Hx as [Hx | Hx].
    + destruct (decide (x = d)) as [-> | Hne]; [|left; exact Hne].
      exfalso. apply Hx. apply elem_of_cons. left. reflexivity.
    + destruct (decide (x = d)) as [-> | Hne]; [right; exact Hx | left; exact Hne].
  - destruct Hx as [Hx | Hx]; [left | right; exact Hx].
    intros Hx'. apply Hx. apply elem_of_cons. right. exact Hx'.
Qed.

Lemma inner_find_eq alreadyAdded it L : forall acc x,
  NoDup L -> x ∈ L -> x ∉ alreadyAdded ->
  overlay_find (fold_left (update_descendant alreadyAdded it) L acc).2 x
  = Some (update_for_parent_inclusion it (current acc.2 x)).
Proof.
  induction L as [|d L IH]; intros acc x Hnd Hx HP; [inversion Hx|].
  apply NoDup_cons in Hnd as [Hd Hnd]. simpl.
  destruct (decide (x = d)) as [-> | Hne].
  - rewrite inner_find_ne by (left; exact Hd).
    apply update_descendant_find_eq. exact HP.
  - apply elem_of_cons in Hx as [Hx | Hx]; [contradiction|].
    rewrite (IH _ x Hnd Hx HP). unfold current.
    rewrite update_descendant_find_ne by (left; exact Hne). reflexivity.
Qed.

Lemma NoDup_setEntries_iterate (P : gset txiter) : NoDup (setEntries_iterate P).
Proof. rewrite setEntries_iterate_perm. apply NoDup_elements. Qed.

(** The outer loop over any list of added entries, seen from one entry
    that is not added. *)
Lemma outer_find alreadyAdded K : forall acc x,
  x ∉ alreadyAdded ->
  overlay_find
    (fold_left
       (λ acc it, fold_left (update_descendant alreadyAdded it)
                    (setEntries_iterate (CalculateDescendants it)) acc) K acc).2 x
  = match List.filter (λ it, bool_decide (x ∈ CalculateDescendants it)) K with
    | [] => overlay_find acc.2 x
    | p :: l =>
        Some (fold_left (λ e it, update_for_parent_inclusion it e) (p :: l)
                (current acc.2 x))
    end.
Proof.
  induction K as [|it K IH]; intros acc x HP; simpl; [reflexivity|].
  rewrite (IH _ x HP).
  destruct (decide (x ∈ CalculateDescendants it)) as [Hd | Hd].
  - rewrite (bool_decide_eq_true_2 _ Hd).
    assert (Hf := inner_find_eq alreadyAdded it _ acc x
                    (NoDup_setEntries_iterate _)
                    (proj2 (elem_of_setEntries_iterate _ x) Hd) HP).
    unfold current at 1. rewrite Hf. simpl.
    destruct (List.filter _ K); reflexivity.
  - rewrite (bool_decide_eq_false_2 _ Hd).
    assert (Hf := inner_find_ne alreadyAdded it
                    (setEntries_iterate (CalculateDescendants it)) acc x).
    unfold current at 1. rewrite Hf; [reflexivity|].
    left. rewrite elem_of_setEntries_iterate. exact Hd.
Qed.

Lemma u64_sub_u64_l x y : u64 (u64 x - y) = u64 (x - y).
Proof. unfold Z.sub. apply u64_add_u64_l. Qed.

Lemma s64_sub_s64_l x y : s64 (s64 x - y) = s64 (x - y).
Proof. unfold Z.sub. apply s64_add_s64_l. Qed.

Lemma fold_update_for_parent_inclusion l : forall e,
  let e' := fold_left (λ e it, update_for_parent_inclusion it e) l e in
  iter e' = iter e
  /\ u64 (nSizeWithAncestors e')
     = u64 (nSizeWithAncestors e - sum_with (λ it, GetTxSize (entry it)) l)
  /\ s64 (nModFeesWithAncestors e')
     = s64 (nModFeesWithAncestors e - sum_with (λ it, GetModifiedFee (entry it)) l)
  /\ s64 (nSigOpCostWithAncestors e')
     = s64 (nSigOpCostWithAncestors e - sum_with (λ it, GetSigOpCost (entry it)) l).
Proof.
  induction l as [|it l IH]; intros e; cbn zeta.
  - simpl. rewrite !Z.sub_0_r. repeat split; reflexivity.
  - simpl fold_left. destruct (IH (update_for_parent_inclusion it e)) as (Hi & Hs & Hf & Hc).
    rewrite Hi, Hs, Hf, Hc. simpl.
    rewrite u64_sub_u64_l, !s64_sub_s64_l.
    split; [reflexivity|].
    split; [f_equal; lia|]. split; f_equal; lia.
Qed.

(** X19.  After [UpdatePackagesForAdded], an entry that was not added has
    been updated once for each added entry that counts it among its
    descendants, and for no other: its record is the one it had (its overlay
    record, or else the mempool's cached ancestor values) less the size,
    modified fee and sigops cost of exactly those added entries, in 64-bit
    arithmetic.  If there is at least one such entry it has an overlay
    record afterwards; if there is none its record, or its absence, is as
    before. *)
Theorem UpdatePackagesForAdded_records (alreadyAdded : gset txiter) (m : overlay)
    (x : txiter) :
  x ∉ alreadyAdded ->
  let m' := (UpdatePackagesForAdded alreadyAdded m).2 in
  let parents := added_ancestors alreadyAdded x in
  current m' x
  = fold_left (λ e it, update_for_parent_inclusion it e) parents (current m x)
  /\ (parents <> [] -> overlay_find m' x = Some (current m' x))
  /\ (parents = [] -> overlay_find m' x = overlay_find m x)
  /\ iter (current m' x) = x
  /\ u64 (nSizeWithAncestors (current m' x))
     = u64 (nSizeWithAncestors (current m x)
            - sum_with (λ it, GetTxSize (entry it)) parents)
  /\ s64 (nModFeesWithAncestors (current m' x))
     = s64 (nModFeesWithAncestors (current m x)
            - sum_with (λ it, GetModifiedFee (entry it)) parents)
  /\ s64 (nSigOpCostWithAncestors (current m' x))
     = s64 (nSigOpCostWithAncestors (current m x)
            - sum_with (λ it, GetSigOpCost (entry it)) parents).
Proof.
  intros HP m' parents.
  assert (Hfind := outer_find alreadyAdded (setEntries_iterate alreadyAdded) (0, m) x HP).
  change (overlay_find m' x
          = match parents with
            | [] => overlay_find m x
            | p :: l =>
                Some (fold_left (λ e it, update_for_parent_inclusion it e) (p :: l)
                        (current m x))
            end) in Hfind.
  assert (Hcur : current m' x
                 = fold_left (λ e it, update_for_parent_inclusion it e) parents
                     (current m x)).
  { unfold current at 1. rewrite Hfind. destruct parents; reflexivity. }
  assert (Hiter : iter (current m x) = x).
  { unfold current. destruct (overlay_find m x) as [e|] eqn:He; simpl; [|reflexivity].
    apply (overlay_find_Some_iter _ _ _ He). }
  destruct (fold_update_for_parent_inclusion parents (current m x)) as (Hi & Hs & Hf & Hc).
  cbv zeta in Hi, Hs, Hf, Hc. rewrite <- Hcur in Hi, Hs, Hf, Hc.
  split; [exact Hcur|]. split; [|split].
  - intros Hne. rewrite Hfind, Hcur. destruct parents; [contradiction | reflexivity].
  - intros ->. exact Hfind.
  - split; [rewrite Hi; exact Hiter|].
    split; [exact Hs|]. split; [exact Hf | exact Hc].
Qed.

Lemma s32_add_s32_l x y : s32 (s32 x + y) = s32 (x + y).
Proof.
  unfold s32. f_equal.
  replace ((x + 2 ^ 31) mod 2 ^ 32 - 2 ^ 31 + y + 2 ^ 31)
    with ((x + 2 ^ 31) mod 2 ^ 32 + y) by lia.
  rewrite Zplus_mod_idemp_l. f_equal. lia.
Qed.

Lemma inner_count alreadyAdded it L : forall n m,
  (fold_left (update_descendant alreadyAdded it) L (s32 n, m)).1
  = s32 (n + Z.of_nat (length (List.filter
                                  (λ desc, negb (bool_decide (desc ∈ alreadyAdded))) L))).
Proof.
  induction L as [|d L IH]; intros n m; simpl.
  - rewrite Z.add_0_r. reflexivity.
  - unfold update_descendant at 2.
    destruct (bool_decide (d ∈ alreadyAdded)); simpl; [apply IH|].
    destruct (overlay_find m d); rewrite s32_add_s32_l, IH; f_equal; lia.
Qed.

Lemma outer_count alreadyAdded K : forall n m,
  (fold_left
     (λ acc it, fold_left (update_descendant alreadyAdded it)
                  (setEntries_iterate (CalculateDescendants it)) acc) K (s32 n, m)).1
  = s32 (n + Z.of_nat (length (flat_map (updated_descendants alreadyAdded) K))).
Proof.
  induction K as [|it K IH]; intros n m; simpl.
  - rewrite Z.add_0_r. reflexivity.
  - rewrite (surjective_pairing
               (fold_left (update_descendant alreadyAdded it)
                  (setEntries_iterate (CalculateDescendants it)) (s32 n, m))).
    rewrite inner_count, IH. rewrite length_app. unfold updated_descendants at 2.
    f_equal. lia.
Qed.

(** X20.  [UpdatePackagesForAdded] returns, as an [int], the number of
    pairs of an added entry and a descendant of it that is not added: a
    descendant of several added entries is counted once for each.  The
    overlay records of the added entries themselves are not touched. *)
Theorem UpdatePackagesForAdded_count (alreadyAdded : gset txiter) (m : overlay) :
  (UpdatePackagesForAdded alreadyAdded m).1
  = s32 (Z.of_nat (length (flat_map (updated_descendants alreadyAdded)
                             (setEntries_iterate alreadyAdded))))
  /\ forall x, x ∈ alreadyAdded ->
       overlay_find (UpdatePackagesForAdded alreadyAdded m).2 x = overlay_find m x.
Proof.
  split.
  - unfold UpdatePackagesForAdded. change 0 with (s32 0) at 1.
    rewrite outer_count. f_equal.
  - intros x Hx. unfold UpdatePackagesForAdded.
    apply (fold_left_invariant
             (λ acc : Z * overlay, overlay_find acc.2 x = overlay_find m x));
      [|reflexivity].
    intros acc it Hacc. rewrite inner_find_ne; [exact Hacc | right; exact Hx].
Qed.
End WithCollaborators.

Section OnTheSample.
#[local] Existing Instance Sample.chain.
#[local] Existing Instance Sample.mempool.
#[local] Existing Instance Sample.vm.

Lemma AddToBlock_sequence_accounting_witness :
  let a := Sample.a0 in
  let order := [1%N; 2%N; 3%N] in
  let a' := fold_left AddToBlock order a in
  (fits_u64 (nBlockTx a) /\ fits_u64 (nBlockWeight a)
   /\ fits_u64 (nBlockSigOpsCost a) /\ fits_s64 (nFees a))
  /\ block_vtx a' = block_vtx a ++ map tx_ref order
  /\ vTxFees (pblocktemplate a')
     = vTxFees (pblocktemplate a) ++ map (λ it, GetFee (entry it)) order
  /\ vTxSigOpsCost (pblocktemplate a')
     = vTxSigOpsCost (pblocktemplate a) ++ map (λ it, GetSigOpCost (entry it)) order
  /\ inBlock a' = list_to_set order ∪ inBlock a
  /\ nBlockTx a' = u64 (nBlockTx a + Z.of_nat (length order))
  /\ nBlockWeight a'
     = u64 (nBlockWeight a + sum_with (λ it, GetTxWeight (entry it)) order)
  /\ nBlockSigOpsCost a'
     = u64 (nBlockSigOpsCost a + sum_with (λ it, GetSigOpCost (entry it)) order)
  /\ nFees a' = s64 (nFees a + sum_with (λ it, GetFee (entry it)) order)
  /\ AddToBlock_frame a' = AddToBlock_frame a.
Proof.
  intros a order a'.
  assert (H1 : fits_u64 (nBlockTx a)) by (vm_compute; split; [discriminate|reflexivity]).
  assert (H2 : fits_u64 (nBlockWeight a))
    by (vm_compute; split; [discriminate|reflexivity]).
  assert (H3 : fits_u64 (nBlockSigOpsCost a))
    by (vm_compute; split; [discriminate|reflexivity]).
  assert (H4 : fits_s64 (nFees a)) by (vm_compute; split; [discriminate|reflexivity]).
  split; [exact (conj H1 (conj H2 (conj H3 H4)))|].
  exact (AddToBlock_sequence_accounting a order H1 H2 H3 H4).
Defined.

Lemma addPackageTxs_is_a_run_of_AddToBlock_witness :
  let a := Sample.a0 in
  let s' := Sample.s_final in
  result_state (addPackageTxs 10 a 0 0) = Some s'
  /\ exists order : list txiter,
      asm s' = fold_left AddToBlock order a
      /\ NoDup order
      /\ (forall it, it ∈ order -> it ∉ inBlock a)
      /\ forall it, it ∈ order ->
           IsFinalTx (GetSharedTx (entry it)) (nHeight a) (m_lock_time_cutoff a) = true.
Proof.
  intros a s'.
  assert (H1 : result_state (addPackageTxs 10 a 0 0) = Some s')
    by (vm_compute; reflexivity).
  split; [exact H1|].
  exact (addPackageTxs_is_a_run_of_AddToBlock 10 a 0 0 s' H1).
Defined.
Lemma sample_consistent_descendants : consistent_descendants.
Proof.
  intros it desc Hd Hne. simpl in *. unfold Sample.descendants_of in Hd.
  unfold Sample.ancestors_of.
  destruct (it =? 1)%N eqn:E.
  - apply N.eqb_eq in E. subst it.
    apply elem_of_union in Hd as [Hd | Hd]; apply elem_of_singleton in Hd; subst desc.
    + contradiction.
    + simpl. apply elem_of_singleton. reflexivity.
  - apply elem_of_singleton in Hd. contradiction.
Defined.

Lemma sample_closed_index : closed_index.
Proof.
  intros it Hit. simpl in *. unfold Sample.ancestors_of, Sample.descendants_of.
  assert (Hcases : it = 2%N \/ it = 1%N \/ it = 3%N \/ it = 4%N).
  { rewrite !elem_of_cons in Hit.
    destruct Hit as [-> | [-> | [-> | [-> | Hit]]]]; auto.
    apply elem_of_nil in Hit. contradiction. }
  destruct Hcases as [-> | [-> | [-> | ->]]]; simpl; split; intros x Hx;
    rewrite ?elem_of_union, ?elem_of_singleton in Hx;
    try (apply elem_of_empty in Hx; contradiction);
    repeat destruct Hx as [Hx | Hx]; subst x;
    rewrite !elem_of_cons; auto.
Defined.

Lemma addPackageTxs_overlay_outside_block_witness :
  let a := Sample.a0 in
  (consistent_ancestors /\ consistent_descendants /\ inBlock a = ∅)
  /\ addPackageTxs 10 a 0 0 <> AssertFail
  /\ forall s',
      result_state (addPackageTxs 10 a 0 0) = Some s' ->
      forall e, e ∈ mapModifiedTx s' -> iter e ∉ inBlock (asm s').
Proof.
  intros a.
  assert (H3 : inBlock a = ∅) by reflexivity.
  split; [exact (conj sample_consistent_ancestors (conj sample_consistent_descendants H3))|].
  exact (addPackageTxs_overlay_outside_block 10 a 0 0 sample_consistent_ancestors
           sample_consistent_descendants H3).
Defined.

Lemma addPackageTxs_terminates_witness :
  closed_index
  /\ exists fuel,
      finished (addPackageTxs fuel Sample.a0 0 0) = true
      /\ forall fuel', (fuel <= fuel')%nat ->
           addPackageTxs fuel' Sample.a0 0 0 = addPackageTxs fuel Sample.a0 0 0.
Proof.
  split; [exact sample_closed_index|].
  exact (addPackageTxs_terminates Sample.a0 0 0 sample_closed_index).
Defined.
Lemma UpdatePackagesForAdded_records_witness :
  let alreadyAdded : gset txiter := {[1%N]} in
  let m : overlay := [] in
  let x := 2%N in
  let m' := (UpdatePackagesForAdded alreadyAdded m).2 in
  let parents := added_ancestors alreadyAdded x in
  (x ∉ alreadyAdded)
  /\ current m' x
     = fold_left (λ e it, update_for_parent_inclusion it e) parents (current m x)
  /\ (parents <> [] -> overlay_find m' x = Some (current m' x))
  /\ (parents = [] -> overlay_find m' x = overlay_find m x)
  /\ iter (current m' x) = x
  /\ u64 (nSizeWithAncestors (current m' x))
     = u64 (nSizeWithAncestors (current m x)
            - sum_with (λ it, GetTxSize (entry it)) parents)
  /\ s64 (nModFeesWithAncestors (current m' x))
     = s64 (nModFeesWithAncestors (current m x)
            - sum_with (λ it, GetModifiedFee (entry it)) parents)
  /\ s64 (nSigOpCostWithAncestors (current m' x))
     = s64 (nSigOpCostWithAncestors (current m x)
            - sum_with (λ it, GetSigOpCost (entry it)) parents).
Proof.
  intros alreadyAdded m x m' parents.
  assert (H1 : x ∉ alreadyAdded).
  { apply (bool_decide_eq_false_1 (x ∈ alreadyAdded)). vm_compute. reflexivity. }
  split; [exact H1|].
  exact (UpdatePackagesForAdded_records alreadyAdded m x H1).
Defined.
End OnTheSample.
End SelectorMore.
